(** * curlens: workspace-path resolver and incremental summarization pipeline

    A shallow embedding of the Python sources

      - [curlens/backfill.py]           (folder-name decoding, discovery, batch),
      - [curlens/hooks/session_end.py]  (message extraction, the hook),
      - [curlens/summarize.py]          (prompt building, screens),
      - [curlens/db.py]                 (summary table),
      - [curlens/chat_store.py]         (lookup of a chat store),
      - [curlens/search.py]             (ranking),

    followed by the properties stated about them.

    Conventions of the embedding.

    - A Python [str] is a Rocq [string]; a character is an [ascii], read as
      the code point 0..255.  The character classes ([isspace], [isalpha],
      [lower]) follow CPython on exactly that range.
    - A parsed JSON document is a value of [json]; a [dict] keeps its
      insertion order and has unique keys, so [dict.get] is the first match
      of an association list.  Numbers are the integers.
    - Code that can raise returns an [outcome]; code that talks to the
      outside (the filesystem, the agent CLI, the clock) takes the outside
      as an argument.
    - The summary table is a finite map keyed by conversation id. *)

From Stdlib Require Import ZArith Ascii String List Lia Bool DecimalString
  Permutation Sorted.
From stdpp Require Import base strings list gmap.

Open Scope string_scope.
Open Scope list_scope.
Open Scope stdpp_scope.

Local Set Warnings "-register-all,-abstract-large-number".

(* ===================================================================== *)
(** * Part I: the embedding                                              *)
(* ===================================================================== *)

(** ** Python string primitives *)

Module PyStr.

Definition code (c : ascii) : nat := nat_of_ascii c.

Definition between (lo hi n : nat) : bool := (lo <=? n)%nat && (n <=? hi)%nat.

(** [str.isspace] on one character, which is also what [str.split()],
    [str.strip()] and the regex class [\s] use. *)
Definition isspace (c : ascii) : bool :=
  let n := code c in
  between 9 13 n || between 28 32 n || (n =? 133)%nat || (n =? 160)%nat.

(** [str.isalpha] on one character. *)
Definition isalpha (c : ascii) : bool :=
  let n := code c in
  between 65 90 n || between 97 122 n
  || (n =? 170)%nat || (n =? 181)%nat || (n =? 186)%nat
  || between 192 214 n || between 216 246 n || between 248 255 n.

(** [str.lower] on one character. *)
Definition lower_char (c : ascii) : ascii :=
  let n := code c in
  if between 65 90 n || between 192 214 n || between 216 222 n
  then ascii_of_nat (n + 32) else c.

Fixpoint lower (s : string) : string :=
  match s with
  | EmptyString => EmptyString
  | String c s' => String (lower_char c) (lower s')
  end.

(** [sum(1 for c in s if c.isalpha())] *)
Fixpoint count_alpha (s : string) : nat :=
  match s with
  | EmptyString => 0
  | String c s' => (if isalpha c then 1 else 0) + count_alpha s'
  end.

Definition startswith (p s : string) : bool := String.prefix p s.

Fixpoint endswith (suf s : string) : bool :=
  String.eqb s suf ||
  match s with
  | EmptyString => false
  | String _ s' => endswith suf s'
  end.

(** [s[:n]] and [s[n:]] for [n >= 0]. *)
Fixpoint take (n : nat) (s : string) : string :=
  match n, s with
  | S n', String c s' => String c (take n' s')
  | _, _ => EmptyString
  end.

Fixpoint drop (n : nat) (s : string) : string :=
  match n, s with
  | S n', String _ s' => drop n' s'
  | _, _ => s
  end.

(** [s.find(sub)], [None] standing for -1. *)
Fixpoint find (sub s : string) : option nat :=
  if startswith sub s then Some 0
  else match s with
       | EmptyString => None
       | String _ s' => option_map S (find sub s')
       end.

(** [sub in s] *)
Definition contains (sub s : string) : bool :=
  match find sub s with Some _ => true | None => false end.

Fixpoint lstrip (s : string) : string :=
  match s with
  | EmptyString => EmptyString
  | String c s' => if isspace c then lstrip s' else s
  end.

Fixpoint rstrip (s : string) : string :=
  match s with
  | EmptyString => EmptyString
  | String c s' =>
      match rstrip s' with
      | EmptyString => if isspace c then EmptyString else String c EmptyString
      | r => String c r
      end
  end.

(** Every character of [s] is whitespace (true of the empty string). *)
Fixpoint all_whitespace (s : string) : bool :=
  match s with
  | EmptyString => true
  | String c s' => isspace c && all_whitespace s'
  end.

(** No character of [s] is whitespace. *)
Fixpoint no_whitespace (s : string) : bool :=
  match s with
  | EmptyString => true
  | String c s' => negb (isspace c) && no_whitespace s'
  end.

(** A word as [str.split()] yields them: not empty, free of whitespace. *)
Definition is_word (w : string) : Prop := w <> "" /\ no_whitespace w = true.

(** The character [c] occurs in [s]. *)
Fixpoint occurs (c : ascii) (s : string) : bool :=
  match s with
  | EmptyString => false
  | String d s' => Ascii.eqb c d || occurs c s'
  end.

(** [s.strip()] *)
Definition strip (s : string) : string := rstrip (lstrip s).

(** [sep.join(l)] *)
Fixpoint join (sep : string) (l : list string) : string :=
  match l with
  | [] => EmptyString
  | [x] => x
  | x :: l' => x +:+ sep +:+ join sep l'
  end.

(** [s.split(sep)] for a non-empty [sep] (an empty one raises
    [ValueError]; every call site passes a literal).  Each round cuts at
    the leftmost occurrence and goes on behind it; [String.length s]
    rounds always suffice since a round consumes at least one
    character. *)
Fixpoint split_rounds (rounds : nat) (sep s : string) : list string :=
  match find sep s with
  | None => [s]
  | Some i =>
      match rounds with
      | O => [s]
      | S r => take i s :: split_rounds r sep (drop (i + String.length sep) s)
      end
  end.

Definition split (sep s : string) : list string :=
  split_rounds (String.length s) sep s.

(** [s.split()]: maximal runs of non-whitespace characters.  [cur] is
    the run being read. *)
Fixpoint words_from (cur s : string) : list string :=
  match s with
  | EmptyString => if String.eqb cur "" then [] else [cur]
  | String c s' =>
      if isspace c
      then (if String.eqb cur "" then words_from "" s'
            else cur :: words_from "" s')
      else words_from (cur +:+ String c "") s'
  end.

Definition split_ws (s : string) : list string := words_from "" s.

(** [s.replace(old, new)] for a one-character [old]. *)
Fixpoint replace_char (old : ascii) (new : string) (s : string) : string :=
  match s with
  | EmptyString => EmptyString
  | String c s' =>
      if Ascii.eqb c old then new +:+ replace_char old new s'
      else String c (replace_char old new s')
  end.

(** [l[:n]] for a Python [int] [n], negative values counting from the
    end. *)
Definition slice_to {A} (n : Z) (l : list A) : list A :=
  if (0 <=? n)%Z then firstn (Z.to_nat n) l
  else firstn (length l - Z.to_nat (- n)) l.

(** [str(n)] and [f"{n}"] for an [int]. *)
Definition str_of_int (n : Z) : string := NilZero.string_of_int (Z.to_int n).

End PyStr.

(** ** backfill.py: decoding a workspace folder name *)

Module Backfill.
Import PyStr.

(** [os.path.join(a, b)] of [posixpath]. *)
Definition os_path_join (a b : string) : string :=
  if startswith "/" b then b
  else if String.eqb a "" || endswith "/" a then a +:+ b
  else a +:+ "/" +:+ b.

(** A [for] loop whose body either returns a value or falls through to
    the next iteration; falling off the end yields [None]. *)
Fixpoint for_range {A} (body : nat -> option A) (range : list nat) : option A :=
  match range with
  | [] => None
  | i :: range' =>
      match body i with
      | Some r => Some r
      | None => for_range body range'
      end
  end.

(** [if result:] on an [Optional[str]]. *)
Definition truthy_path (r : option string) : option string :=
  match r with
  | Some p => if String.eqb p "" then None else Some p
  | None => None
  end.

Section Oracle.
(** [os.path.isdir] *)
Variable isdir : string -> bool.

(** [_build_path_segments].  The recursion is on a strictly shorter
    list ([remaining_parts[i:]] with [i >= 1]); [depth] bounds the
    nesting of calls. *)
Fixpoint _build_path_segments_depth (depth : nat)
         (base : string) (remaining_parts : list string) : option string :=
  match depth with
  | O => None
  | S depth' =>
      match remaining_parts with
      | [] => if isdir base then Some base else None
      | _ =>
          for_range
            (fun i =>
               let segment := join "-" (firstn i remaining_parts) in
               let candidate := os_path_join base segment in
               if isdir candidate then
                 if (i =? length remaining_parts)%nat then Some candidate
                 else truthy_path
                        (_build_path_segments_depth depth' candidate
                           (skipn i remaining_parts))
               else None)
            (seq 1 (length remaining_parts))
      end
  end.

Definition _build_path_segments (base : string) (remaining_parts : list string)
  : option string :=
  _build_path_segments_depth (S (length remaining_parts)) base remaining_parts.

(** The path tried by iteration [i] of the loop, and the iteration
    itself written in terms of the function. *)
Definition candidate (base : string) (parts : list string) (i : nat) : string :=
  os_path_join base (join "-" (firstn i parts)).

Definition attempt (base : string) (parts : list string) (i : nat)
  : option string :=
  if isdir (candidate base parts i) then
    if (i =? length parts)%nat then Some (candidate base parts i)
    else truthy_path
           (_build_path_segments (candidate base parts i) (skipn i parts))
  else None.

(** [_resolve_folder_name_to_path] *)
Definition _resolve_folder_name_to_path (folder_name : string) : option string :=
  let simple_path := "/" +:+ replace_char "-" "/" folder_name in
  if isdir simple_path then Some simple_path
  else
    let parts := split "-" folder_name in
    match parts with
    | p0 :: remaining =>
        if String.eqb p0 "Users" && (1 <? length parts)%nat then
          truthy_path (_build_path_segments "/Users" remaining)
        else None
    | [] => None
    end.
End Oracle.

(** A directory oracle given by the list of the directories that exist. *)
Definition tree (dirs : list string) (p : string) : bool :=
  existsb (String.eqb p) dirs.

End Backfill.

(** ** JSON documents as [json.loads] returns them *)

Module Json.
Import PyStr.

Inductive json : Type :=
| JNull
| JBool (b : bool)
| JNum (n : Z)
| JStr (s : string)
| JArr (items : list json)
| JObj (fields : list (string * json)).

(** [d.get(key)], [None] when the key is missing. *)
Fixpoint dict_get (fields : list (string * json)) (key : string) : option json :=
  match fields with
  | [] => None
  | (k, v) :: fields' => if String.eqb k key then Some v else dict_get fields' key
  end.

(** Truth value of a document, as [not x] and [if x:] compute it. *)
Definition truthy (j : json) : bool :=
  match j with
  | JNull => false
  | JBool b => b
  | JNum n => negb (n =? 0)%Z
  | JStr s => negb (String.eqb s "")
  | JArr items => match items with [] => false | _ => true end
  | JObj fields => match fields with [] => false | _ => true end
  end.

(** [x == s] for a string literal [s]. *)
Definition eq_str (j : json) (s : string) : bool :=
  match j with
  | JStr s' => String.eqb s' s
  | _ => false
  end.

Definition dquote : ascii := "034"%char.
Definition backslash : ascii := "092"%char.
Definition nl : string := String "010"%char "".

Definition hex_digit (n : nat) : ascii :=
  match String.get n "0123456789abcdef" with
  | Some c => c
  | None => "0"%char
  end.

(** One character inside a JSON string literal ([ensure_ascii=True]). *)
Definition escape_char (c : ascii) : string :=
  let n := code c in
  if (n =? 34)%nat then String backslash (String dquote "")
  else if (n =? 92)%nat then String backslash (String backslash "")
  else if (n =? 10)%nat then String backslash "n"
  else if (n =? 13)%nat then String backslash "r"
  else if (n =? 9)%nat then String backslash "t"
  else if (n =? 8)%nat then String backslash "b"
  else if (n =? 12)%nat then String backslash "f"
  else if between 32 126 n then String c ""
  else String backslash
         ("u00" +:+ String (hex_digit (Nat.div n 16)) (String (hex_digit (Nat.modulo n 16)) "")).

Fixpoint escape (s : string) : string :=
  match s with
  | EmptyString => EmptyString
  | String c s' => escape_char c +:+ escape s'
  end.

Definition quote (s : string) : string :=
  String dquote (escape s +:+ String dquote "").

(** [json.dumps(j)] with the default separators. *)
Fixpoint dumps (j : json) : string :=
  match j with
  | JNull => "null"
  | JBool true => "true"
  | JBool false => "false"
  | JNum n => str_of_int n
  | JStr s => quote s
  | JArr [] => "[]"
  | JArr items => "[" +:+ join ", " (List.map dumps items) +:+ "]"
  | JObj [] => "{}"
  | JObj fields =>
      "{" +:+ join ", " (List.map (fun kv => quote (fst kv) +:+ ": " +:+ dumps (snd kv)) fields)
          +:+ "}"
  end.

Fixpoint spaces (n : nat) : string :=
  match n with
  | O => EmptyString
  | S n' => String " "%char (spaces n')
  end.

Definition newline_indent (level : nat) : string := nl +:+ spaces (2 * level).

(** [json.dumps(j, indent=2)], [level] being the current nesting. *)
Fixpoint dumps_indent (level : nat) (j : json) : string :=
  match j with
  | JNull => "null"
  | JBool true => "true"
  | JBool false => "false"
  | JNum n => str_of_int n
  | JStr s => quote s
  | JArr [] => "[]"
  | JArr items =>
      "[" +:+ newline_indent (S level)
          +:+ join ("," +:+ newline_indent (S level))
                   (List.map (dumps_indent (S level)) items)
          +:+ newline_indent level +:+ "]"
  | JObj [] => "{}"
  | JObj fields =>
      "{" +:+ newline_indent (S level)
          +:+ join ("," +:+ newline_indent (S level))
                   (List.map (fun kv => quote (fst kv) +:+ ": "
                                          +:+ dumps_indent (S level) (snd kv)) fields)
          +:+ newline_indent level +:+ "}"
  end.

End Json.

(** ** Exceptions *)

Inductive exn : Type :=
| TypeError
| AttributeError
| KeyError
| ValueError
| OverflowError
| SqliteError.      (* sqlite3's error for a parameter it cannot bind *)

Inductive outcome (A : Type) : Type :=
| Ok (a : A)
| Raise (e : exn).
Arguments Ok {A} a.
Arguments Raise {A} e.

Definition bind {A B} (m : outcome A) (k : A -> outcome B) : outcome B :=
  match m with
  | Ok a => k a
  | Raise e => Raise e
  end.

Notation "'try!' x := m 'in' k" := (bind m (fun x => k))
  (at level 10, x name, m at level 100, k at level 200, only parsing).

(** ** db.py: the [summaries] table *)

Module Db.

(** One row; [blob_ids] is the decoded [blob_ids_json] column. *)
Record row : Type := Row {
  summary_text : string;
  blob_ids : list string;
  created_at : Z;
  updated_at : Z;
  chat_name : option string;
  chat_directory : option string
}.

(** [upsert_summary]; [now] is the clock reading taken inside. *)
Definition upsert_summary (db : gmap string row) (now : Z)
           (conversation_id summary_text : string) (blob_ids : list string)
           (chat_name chat_directory : option string) : gmap string row :=
  let created_at :=
    match db !! conversation_id with
    | Some r => created_at r
    | None => now
    end in
  <[conversation_id := Row summary_text blob_ids created_at now chat_name chat_directory]> db.

(** [get_summary_state] *)
Definition get_summary_state (db : gmap string row) (conversation_id : string)
  : option row :=
  db !! conversation_id.

(** What [cursor.execute] makes of a Python value given for one of the
    TEXT columns [chat_name] and [chat_directory], as a later SELECT
    returns it: [None] is NULL, a [str] is itself, an [int] or a [bool]
    is stored as the text of the number (an [int] outside 64 bits raises
    [OverflowError]), and a list or a dict cannot be bound. *)
Definition sql_text (value : Json.json) : outcome (option string) :=
  match value with
  | Json.JNull => Ok None
  | Json.JStr s => Ok (Some s)
  | Json.JNum n =>
      if ((- 2 ^ 63 <=? n) && (n <? 2 ^ 63))%Z then Ok (Some (PyStr.str_of_int n))
      else Raise OverflowError
  | Json.JBool b => Ok (Some (if b then "1" else "0"))
  | Json.JArr _ | Json.JObj _ => Raise SqliteError
  end.

End Db.

(** ** chat_store.py *)

Module ChatStore.
Import Json.

(** One [store.db] as its readers see it: what [read_meta] returns for
    it and what [list_json_blobs] returns for it. *)
Record store : Type := Store {
  store_meta : option json;
  store_blobs : list (string * json)
}.

(** An entry of [~/.cursor/chats]: whether it is a directory, and for a
    conversation id the store at [entry / conversation_id / "store.db"]
    when that file exists. *)
Record chat_folder : Type := ChatFolder {
  folder_is_dir : bool;
  folder_store : string -> option store
}.

(** The loop of [find_chat_db_path]. *)
Fixpoint find_store (folders : list chat_folder) (conversation_id : string)
  : option store :=
  match folders with
  | [] => None
  | hash_dir :: folders' =>
      if negb (folder_is_dir hash_dir) then find_store folders' conversation_id
      else
        match folder_store hash_dir conversation_id with
        | Some db => Some db
        | None => find_store folders' conversation_id
        end
  end.

(** [find_chat_db_path]; [chats] lists [~/.cursor/chats] in iteration
    order, [None] when it does not exist.  The path returned stands for
    the store it names. *)
Definition find_chat_db_path (chats : option (list chat_folder))
           (conversation_id : string) : option store :=
  match chats with
  | None => None
  | Some folders => find_store folders conversation_id
  end.

(** [meta.get(key, fallback) if meta else fallback], used by the hook and
    by the backfill on what [read_meta] returned: a truthy value that is
    not a dict has no [get]. *)
Definition meta_get (meta : option json) (key : string) (fallback : json)
  : outcome json :=
  match meta with
  | None => Ok fallback
  | Some m =>
      if negb (truthy m) then Ok fallback
      else
        match m with
        | JObj fields => Ok (default fallback (dict_get fields key))
        | _ => Raise AttributeError
        end
  end.

End ChatStore.

(** ** What a hook invocation can touch *)

Record world : Type := World {
  summaries : gmap string Db.row;          (* the summary database *)
  agent_calls : list (string * string)     (* (prompt, model) of every agent run *)
}.

(** ** summarize.py *)

Module Summarize.
Import PyStr Json.

(** A message [{"role": role, "content": content}] as the extractor builds
    it: the role is whatever the blob carried, the content is a [str]. *)
Record message : Type := Message {
  role : json;
  content : string
}.

Definition message_json (msg : message) : json :=
  JObj [("role", role msg); ("content", JStr (content msg))].

(** [word_count] *)
Definition word_count (text : string) : nat := length (split_ws text).

(** [truncate_to_words] *)
Definition truncate_to_words (text : string) (max_words : Z) : string :=
  let words := split_ws text in
  if (Z.of_nat (length words) <=? max_words)%Z then text
  else join " " (slice_to max_words words) +:+ "...".

(** [_trim_json_messages]: [total] is the running character count; the
    result list is built front to back. *)
Fixpoint _trim_json_messages_from (total : nat) (messages : list message)
         (max_chars : nat) : list message :=
  match messages with
  | [] => []
  | msg :: messages' =>
      let msg_str := dumps (message_json msg) in
      if (max_chars <? total + String.length msg_str)%nat then
        if negb (String.eqb (content msg) "")
           && (200 <? String.length (content msg))%nat
        then [Message (role msg) (take 200 (content msg) +:+ "... [trimmed]")]
        else []
      else msg :: _trim_json_messages_from (total + String.length msg_str)
                    messages' max_chars
  end.

Definition _trim_json_messages (messages : list message) (max_chars : nat)
  : list message :=
  _trim_json_messages_from 0 messages max_chars.

(** The characters the messages take when each is serialized on its own,
    which is what the loop above adds up. *)
Definition serialized_chars (messages : list message) : nat :=
  list_sum (List.map (fun msg => String.length (dumps (message_json msg))) messages).

(** [if existing_summary:] *)
Definition nonempty (s : option string) : bool :=
  match s with
  | Some t => negb (String.eqb t "")
  | None => false
  end.

(** [build_summary_prompt] *)
Definition build_summary_prompt (messages : list message) (max_words : Z)
           (existing_summary : option string) : string :=
  let trimmed := _trim_json_messages messages 6000 in
  let messages_json := dumps_indent 0 (JArr (List.map message_json trimmed)) in
  if nonempty existing_summary then
    join nl
      [ "Update this chat summary with new messages. Max "
          +:+ str_of_int max_words +:+ " words.";
        "";
        "EXISTING SUMMARY:";
        default "" existing_summary;
        "";
        "NEW MESSAGES:";
        messages_json;
        "";
        "Create an updated summary incorporating the new content. Focus on tasks, technologies, and outcomes.";
        "Output ONLY the updated summary." ]
  else
    join nl
      [ "Summarize this coding chat in " +:+ str_of_int max_words +:+ " words or less.";
        "";
        "FOCUS ON:";
        "- The specific task/problem the user wanted to solve";
        "- Technologies, frameworks, or files involved";
        "- Key outcomes or solutions implemented";
        "";
        "DO NOT INCLUDE:";
        "- Model names (gpt-5, claude, grok, etc.)";
        "- System setup information";
        "- Generic phrases like " +:+ String dquote "user initiated a chat"
          +:+ String dquote "";
        "";
        "If the conversation has no meaningful coding task, respond with just: "
          +:+ String dquote "No actionable content" +:+ String dquote "";
        "";
        "Output ONLY the summary, nothing else.";
        "";
        "Messages:";
        messages_json ].

(** [run_agent]: the subprocess is the function [agent] of the prompt and
    the model, [None] on a non-zero exit, a timeout or a missing binary;
    the run is recorded. *)
Definition run_agent (agent : string -> string -> option string)
           (prompt model : string) (w : world) : option string * world :=
  (agent prompt model,
   World (summaries w) (agent_calls w ++ [(prompt, model)])).

(** An agent that answers every prompt with the same reply. *)
Definition canned (reply : option string) : string -> string -> option string :=
  fun _ _ => reply.

(** [generate_summary] *)
Definition generate_summary (agent : string -> string -> option string)
           (messages : list message) (model : string) (max_words : Z)
           (existing_summary : option string) (w : world)
  : option string * world :=
  match messages with
  | [] => (None, w)
  | _ =>
      let prompt := build_summary_prompt messages max_words existing_summary in
      let '(summary, w') := run_agent agent prompt model w in
      if nonempty summary
         && (max_words <? Z.of_nat (word_count (default "" summary)))%Z
      then (Some (truncate_to_words (default "" summary) max_words), w')
      else (summary, w')
  end.

Definition reject_phrases : list string :=
  [ "no actionable content";
    "no specific coding task";
    "no meaningful";
    "user initiated a chat";
    "user started a chat";
    "testing";
    "just saying";
    "no specific task";
    "empty conversation" ].

(** [is_summary_actionable] *)
Definition is_summary_actionable (summary : option string) : bool :=
  match summary with
  | None => false
  | Some summary =>
      if String.eqb summary "" then false
      else if (word_count summary <? 10)%nat then false
      else if (count_alpha summary <? 50)%nat then false
      else
        let lower := lower summary in
        negb (existsb (fun phrase => contains phrase lower) reject_phrases)
  end.

Definition meta_indicators : list string :=
  [ "Summarize this coding chat in";
    "Update this chat summary with new messages";
    "rank these chat summaries";
    "Output ONLY the summary";
    "No actionable content" ].

(** [is_curlens_meta_chat] *)
Definition is_curlens_meta_chat (content : string) : bool :=
  let content_lower := lower content in
  existsb (fun indicator => contains (lower indicator) content_lower)
          meta_indicators.

(** The loop of [has_meaningful_messages] that concatenates the contents;
    every [content] is a [str], so the [isinstance] test always passes. *)
Definition total_content (messages : list message) : string :=
  fold_left (fun acc msg => acc +:+ content msg) messages "".

(** [has_meaningful_messages] *)
Definition has_meaningful_messages (messages : list message) : bool :=
  match messages with
  | [] => false
  | _ =>
      let total_content := total_content messages in
      if is_curlens_meta_chat total_content then false
      else if (String.length total_content <? 100)%nat then false
      else if (count_alpha total_content <? 50)%nat then false
      else true
  end.

(** [s * n] *)
Fixpoint repeat_string (s : string) (n : nat) : string :=
  match n with
  | O => EmptyString
  | S n' => s +:+ repeat_string s n'
  end.

(** Three long messages that fill the budget of the prompt and a short
    one that no longer fits. *)
Definition long_chat : list message :=
  [ Message (JStr "user") (repeat_string "a" 2000);
    Message (JStr "assistant") (repeat_string "b" 2000);
    Message (JStr "user") (repeat_string "c" 1880) ].

Definition short_message : message := Message (JStr "assistant") "Done, it works now.".

(** A summary of 12 words and 80 letters. *)
Definition twelve_words : string :=
  "Rewrote authentication middleware to validate session tokens and fix broken login redirects".

End Summarize.

(** ** hooks/session_end.py *)

Module SessionEnd.
Import PyStr Json Summarize.

Definition metadata_indicators : list string :=
  [ "You are gpt-";
    "You are claude-";
    "You are running as";
    "interactive CLI coding agent";
    "Plan mode is active" ].

(** [_is_mostly_metadata] *)
Definition _is_mostly_metadata (text : string) : bool :=
  if (500 <? String.length text)%nat then false
  else
    let text_lower := lower text in
    existsb (fun indicator => contains (lower indicator) text_lower)
            metadata_indicators.

(** The loop of [_extract_text_content] over a list content. *)
Fixpoint text_parts (items : list json) : list json :=
  match items with
  | [] => []
  | item :: items' =>
      match item with
      | JObj fields =>
          let item_type := default (JStr "") (dict_get fields "type") in
          if eq_str item_type "reasoning" then text_parts items'
          else if eq_str item_type "text"
               then default (JStr "") (dict_get fields "text") :: text_parts items'
               else text_parts items'
      | _ => text_parts items'
      end
  end.

(** [" ".join(parts)], which raises on the first part that is not a
    [str]. *)
Fixpoint join_parts (parts : list json) : outcome (list string) :=
  match parts with
  | [] => Ok []
  | JStr s :: parts' => try! rest := join_parts parts' in Ok (s :: rest)
  | _ :: _ => Raise TypeError
  end.

(** [_extract_text_content] *)
Definition _extract_text_content (content : json) : outcome string :=
  match content with
  | JStr s => Ok s
  | JArr items => try! parts := join_parts (text_parts items) in Ok (join " " parts)
  | _ => Ok ""
  end.

Definition user_query_open : string := "<user_query>".
Definition user_query_close : string := "</user_query>".

(** The tail [(.*?)\s*</user_query>] of the pattern, matched at the start
    of [s]: the lazy group grows one character at a time until what
    follows is whitespace and the closing tag.  The greedy [\s*] never has
    to give characters back, since the closing tag does not begin with
    whitespace. *)
Fixpoint match_lazy_group (s : string) : option string :=
  if startswith user_query_close (lstrip s) then Some ""
  else match s with
       | EmptyString => None
       | String c s' => option_map (String c) (match_lazy_group s')
       end.

(** [re.search(r'<user_query>\s*(.*?)\s*</user_query>', text, re.DOTALL)],
    returning group 1 of the leftmost match. *)
Fixpoint search_user_query (text : string) : option string :=
  let here :=
    if startswith user_query_open text
    then match_lazy_group (lstrip (drop (String.length user_query_open) text))
    else None in
  match here with
  | Some group => Some group
  | None =>
      match text with
      | EmptyString => None
      | String _ text' => search_user_query text'
      end
  end.

(** The text holds an opening [<user_query>] tag with a closing tag
    somewhere behind it, which is when the pattern matches. *)
Definition has_user_query_span (text : string) : Prop :=
  exists before inner after,
    text = before +:+ user_query_open +:+ inner +:+ user_query_close +:+ after.

Definition metadata_tags : list string :=
  [ "<user_info>"; "<rules>"; "<system_reminder>"; "<always_applied" ].

(** [_extract_user_query] *)
Definition _extract_user_query (text : string) : string :=
  match search_user_query text with
  | Some group => strip group
  | None =>
      if existsb (fun tag => startswith tag (strip text)) metadata_tags then ""
      else if contains "<system_reminder>" text then
        let parts := split "</system_reminder>" text in
        if (1 <? length parts)%nat then
          let remaining := strip (List.last parts "") in
          if negb (String.eqb remaining "") then remaining else ""
        else text
      else text
  end.

(** A text with a closing reminder tag and no opening one. *)
Definition stray_closing_tag : string :=
  "Please fix </system_reminder> the login bug".

(** The user branch of the loop of [_extract_messages] (lines 190-194):
    [None] is [continue], [Some q] is [text = q]. *)
Definition user_query_filter (text : string) : option string :=
  let user_query := _extract_user_query text in
  if String.eqb user_query "" || (String.length (strip user_query) <? 10)%nat
  then None
  else Some user_query.

(** One iteration of the loop of [_extract_messages]: [Ok None] is
    [continue], [Ok (Some m)] is [messages.append(m)]. *)
Definition _extract_messages_body (blob_data : json) : outcome (option message) :=
  match blob_data with
  | JObj fields =>
      let role := default JNull (dict_get fields "role") in
      let content := default JNull (dict_get fields "content") in
      if negb (truthy role) || negb (truthy content) then Ok None
      else if eq_str role "system" then Ok None
      else
        try! text := _extract_text_content content in
        if String.eqb text "" || (String.length (strip text) <? 10)%nat then Ok None
        else
          let after_user_query :=
            if eq_str role "user" then user_query_filter text else Some text in
          match after_user_query with
          | None => Ok None
          | Some text =>
              if _is_mostly_metadata text then Ok None
              else Ok (Some (Message role (take 2000 text)))
          end
  | _ => Ok None
  end.

(** [_extract_messages] *)
Fixpoint _extract_messages (blobs : list (string * json)) : outcome (list message) :=
  match blobs with
  | [] => Ok []
  | (_, blob_data) :: blobs' =>
      try! emitted := _extract_messages_body blob_data in
      try! messages := _extract_messages blobs' in
      Ok (match emitted with
          | Some msg => msg :: messages
          | None => messages
          end)
  end.

(** The fields of [CurlensConfig] that the hook and the backfill read,
    as [load_config] returned them from a configuration whose model is a
    [str] and whose word limit is an [int]; [hooks_enabled] is the truth
    value of the setting. *)
Record config : Type := Config {
  summary_model : string;
  summary_max_words : Z;
  hooks_enabled : bool
}.

(** [workspace_roots[0] if workspace_roots else None] for whatever the
    payload carries: the first item of a list, the first character of a
    string; a dict has no key [0] and a number cannot be indexed. *)
Definition first_root (workspace_roots : json) : outcome json :=
  if negb (truthy workspace_roots) then Ok JNull
  else
    match workspace_roots with
    | JArr (root :: _) => Ok root
    | JStr (String c _) => Ok (JStr (String c ""))
    | JObj _ => Raise KeyError
    | _ => Raise TypeError
    end.

(** [value >= n] for an [int] [n]: a [bool] counts as 0 or 1, anything
    that is not a number cannot be compared. *)
Definition ge_int (value : json) (n : Z) : outcome bool :=
  match value with
  | JNum m => Ok (n <=? m)%Z
  | JBool b => Ok (n <=? Z.b2z b)%Z
  | _ => Raise TypeError
  end.

Definition JAN_2026_MS : Z := 1767205800000.

(** What [main] has in hand when it reaches the listing of the blobs
    (line 101). *)
Record hook_input : Type := HookInput {
  hook_conversation_id : string;
  hook_chat_name : json;
  hook_chat_directory : json;
  hook_blobs : list (string * json)
}.

(** Lines 46-101 of [main]: [Ok None] is one of the early returns.
    [skip_hooks] is [os.environ.get("CURLENS_SKIP_HOOKS")], [cfg] the
    loaded configuration, [raw_input] what stdin holds, [loads] is
    [json.loads] ([None] for [JSONDecodeError]) and [chats] the content of
    [~/.cursor/chats].  A payload that is not a dict has no [get];
    [hash_dir / conversation_id] raises for a conversation id that is not
    a [str], at the first entry that is a directory. *)
Definition main_prelude (skip_hooks : option string) (cfg : config)
           (loads : string -> option json) (raw_input : string)
           (chats : option (list ChatStore.chat_folder))
  : outcome (option hook_input) :=
  if bool_decide (skip_hooks = Some "1") then Ok None
  else if negb (hooks_enabled cfg) then Ok None
  else if String.eqb (strip raw_input) "" then Ok None
  else
    match loads raw_input with
    | None => Ok None
    | Some (JObj payload) =>
        let conversation_id := default JNull (dict_get payload "conversation_id") in
        let workspace_roots := default (JArr []) (dict_get payload "workspace_roots") in
        if negb (truthy conversation_id) then Ok None
        else
          try! chat_directory := first_root workspace_roots in
          match conversation_id with
          | JStr conversation_id =>
              match ChatStore.find_chat_db_path chats conversation_id with
              | None => Ok None
              | Some db_path =>
                  let meta := ChatStore.store_meta db_path in
                  try! chat_name := ChatStore.meta_get meta "name" (JStr "Unnamed") in
                  try! created_at := ChatStore.meta_get meta "createdAt" (JNum 0) in
                  try! skipped :=
                    (if eq_str chat_name "New Agent" then ge_int created_at JAN_2026_MS
                     else Ok false) in
                  if skipped then Ok None
                  else
                    Ok (Some (HookInput conversation_id chat_name chat_directory
                                        (ChatStore.store_blobs db_path)))
              end
          | _ =>
              if existsb ChatStore.folder_is_dir (default [] chats)
              then Raise TypeError
              else Ok None
          end
    | Some _ => Raise AttributeError
    end.

(** Lines 101-164 of [main], from the listing of the blobs to the end;
    [agent] is the agent CLI and [now] the clock read by the upsert.  The
    name and the directory are bound by the INSERT, after the agent has
    run. *)
Definition main_update (cfg : config) (agent : string -> string -> option string)
           (now : Z) (conversation_id : string) (chat_name chat_directory : json)
           (blobs : list (string * json)) (w : world) : outcome world :=
  let blob_ids := List.map fst blobs in
  let existing := Db.get_summary_state (summaries w) conversation_id in
  let summarize (existing_summary : option string) (new_blob_ids : gset string) :=
    try! messages :=
      (if negb (bool_decide (new_blob_ids = ∅)) then
         let new_blobs :=
           List.filter (fun b => bool_decide (fst b ∈ new_blob_ids)) blobs in
         _extract_messages new_blobs
       else _extract_messages blobs) in
    match messages with
    | [] => Ok w
    | _ =>
        if negb (has_meaningful_messages messages) then Ok w
        else
          let '(summary, w') :=
            generate_summary agent messages (summary_model cfg)
                             (summary_max_words cfg) existing_summary w in
          if negb (is_summary_actionable summary) then Ok w'
          else
            try! name := Db.sql_text chat_name in
            try! directory := Db.sql_text chat_directory in
            Ok (World
                  (Db.upsert_summary (summaries w') now conversation_id
                     (default "" summary) blob_ids name directory)
                  (agent_calls w'))
    end in
  match existing with
  | Some r =>
      let existing_ids : gset string := list_to_set (Db.blob_ids r) in
      let current_ids : gset string := list_to_set blob_ids in
      let new_blob_ids := current_ids ∖ existing_ids in
      if bool_decide (new_blob_ids = ∅) then Ok w
      else summarize (Some (Db.summary_text r)) new_blob_ids
  | None => summarize None ∅
  end.

(** [main].  The debug log and the line printed for Cursor touch neither
    the table nor the agent and are left out.  An exception leaves the
    hook; what the world is then is not described. *)
Definition main (skip_hooks : option string) (cfg : config)
           (loads : string -> option json) (raw_input : string)
           (chats : option (list ChatStore.chat_folder))
           (agent : string -> string -> option string) (now : Z) (w : world)
  : outcome world :=
  try! input := main_prelude skip_hooks cfg loads raw_input chats in
  match input with
  | None => Ok w
  | Some input =>
      main_update cfg agent now (hook_conversation_id input) (hook_chat_name input)
                  (hook_chat_directory input) (hook_blobs input) w
  end.

(** The blobs of [blobs] whose id the stored row does not cover. *)
Definition delta_blobs (covered : list string) (blobs : list (string * json))
  : list (string * json) :=
  List.filter (fun b => negb (bool_decide (fst b ∈ covered))) blobs.

(** A conversation "conv" summarized once, when blob "a" was all it held. *)
Definition hook_config : config := Config "grok" 70 true.

Definition hook_row : Db.row :=
  Db.Row "Fixed a login bug in auth.py by correcting a password hashing mismatch."
         ["a"] 1000 1000 (Some "Login fix") (Some "/Users/jane/dev/my-app").

Definition hook_world : world := World {[ "conv" := hook_row ]} [].

Definition blob_a : string * json :=
  ("a", JObj [("role", JStr "user");
              ("content", JStr "<user_query>Fix the login bug in auth.py</user_query>")]).

Definition blob_system : string * json :=
  ("b", JObj [("role", JStr "system");
              ("content", JStr "You are running as an interactive CLI coding agent.")]).

Definition blob_c : string * json :=
  ("c", JObj [("role", JStr "assistant");
              ("content", JStr "I added a regression test for the password hashing mismatch and moved the salt handling into a helper so the login flow and the signup flow share it.")]).

Definition blob_prose : string * json :=
  ("p", JObj [("role", JStr "assistant");
              ("content", JStr (repeat_string "The login check compared a salted hash with an unsalted one. " 3))]).

(** A hook invocation for "conv": the payload that stdin parses to, the
    meta of its store, and a chats folder that holds the store, with the
    given blobs, behind an entry that is not a directory. *)
Definition hook_payload : json :=
  JObj [("hook_event_name", JStr "afterFileEdit");
        ("conversation_id", JStr "conv");
        ("workspace_roots", JArr [JStr "/Users/jane/dev/my-app"])].

Definition hook_loads : string -> option json := fun _ => Some hook_payload.

Definition hook_meta : json :=
  JObj [("name", JStr "Login fix"); ("createdAt", JNum 1760000000000)].

Definition hook_chats (blobs : list (string * json))
  : option (list ChatStore.chat_folder) :=
  Some [ ChatStore.ChatFolder false (fun _ => None);
         ChatStore.ChatFolder true
           (fun conversation_id =>
              if String.eqb conversation_id "conv"
              then Some (ChatStore.Store (Some hook_meta) blobs)
              else None) ].

End SessionEnd.

(** ** backfill.py: discovery and the batch *)

Module BackfillBatch.
Import PyStr Json Summarize SessionEnd Backfill ChatStore.

Section Discovery.
(** [os.path.isdir] and [hashlib.md5(...).hexdigest()] *)
Variable isdir : string -> bool.
Variable md5 : string -> string.

(** [build_path_mapping].  [projects] lists [~/.cursor/projects] as
    (name, is a directory) pairs in iteration order, [None] when the
    directory does not exist. *)
Definition build_path_mapping (projects : option (list (string * bool)))
  : gmap string string :=
  match projects with
  | None => ∅
  | Some folders =>
      fold_left
        (fun mapping folder =>
           if negb (snd folder) then mapping
           else if negb (startswith "Users-" (fst folder)) then mapping
           else
             match truthy_path (_resolve_folder_name_to_path isdir (fst folder)) with
             | Some resolved_path => <[md5 resolved_path := resolved_path]> mapping
             | None => mapping
             end)
        folders ∅
  end.
End Discovery.

(** An entry of a hash folder: its name, whether it is a directory and
    whether it holds a [store.db]. *)
Record conv_dir : Type := ConvDir {
  conv_name : string;
  conv_is_dir : bool;
  conv_has_store : bool
}.

(** An entry of [~/.cursor/chats]. *)
Record hash_dir : Type := HashDir {
  hash_name : string;
  hash_is_dir : bool;
  hash_entries : list conv_dir
}.

(** [discover_all_chats]: [chats_dir] is the path of [~/.cursor/chats] and
    [listing] its content, [None] when it does not exist.  A result is
    (conversation id, workspace path, path of the store). *)
Definition discover_all_chats (path_mapping : gmap string string)
           (chats_dir : string) (listing : option (list hash_dir))
  : list (string * option string * string) :=
  match listing with
  | None => []
  | Some hash_dirs =>
      List.concat
        (List.map
           (fun h =>
              if negb (hash_is_dir h) then []
              else
                let workspace_path := path_mapping !! hash_name h in
                List.concat
                  (List.map
                     (fun c =>
                        if negb (conv_is_dir c) then []
                        else if conv_has_store c then
                          [(conv_name c, workspace_path,
                            chats_dir +:+ "/" +:+ hash_name h +:+ "/"
                              +:+ conv_name c +:+ "/store.db")]
                        else [])
                     (hash_entries h)))
           hash_dirs)
  end.

Inductive status : Type :=
| Success
| NoMessages
| NotMeaningful
| NotActionable.

(** [_process_single_chat]: the result with the chat name, or the
    exception that leaves it, and the world in either case.  The chat
    name is bound by the INSERT, after the agent has run. *)
Definition _process_single_chat (cfg : config)
           (agent : string -> string -> option string) (now : Z)
           (conversation_id : string) (workspace_path : option string)
           (store_db : store) (w : world) : outcome (status * json) * world :=
  match meta_get (store_meta store_db) "name" (JStr "Unnamed") with
  | Raise e => (Raise e, w)
  | Ok chat_name =>
      let blobs := store_blobs store_db in
      let blob_ids := List.map fst blobs in
      match _extract_messages blobs with
      | Raise e => (Raise e, w)
      | Ok messages =>
          match messages with
          | [] => (Ok (NoMessages, chat_name), w)
          | _ =>
              if negb (has_meaningful_messages messages)
              then (Ok (NotMeaningful, chat_name), w)
              else
                let '(summary, w') :=
                  generate_summary agent messages (summary_model cfg)
                                   (summary_max_words cfg) None w in
                if negb (is_summary_actionable summary)
                then (Ok (NotActionable, chat_name), w')
                else
                  match Db.sql_text chat_name with
                  | Raise e => (Raise e, w')
                  | Ok name =>
                      (Ok (Success, chat_name),
                       World
                         (Db.upsert_summary (summaries w') now conversation_id
                            (default "" summary) blob_ids name workspace_path)
                         (agent_calls w'))
                  end
          end
      end
  end.

(** [name[:30]] in the progress line: a [str] and a list can be sliced,
    nothing else can (a dict raises [KeyError] or [TypeError], depending
    on the Python version). *)
Definition slice_30 (name : json) : outcome json :=
  match name with
  | JStr s => Ok (JStr (take 30 s))
  | JArr items => Ok (JArr (firstn 30 items))
  | JObj _ => Raise KeyError
  | _ => Raise TypeError
  end.

(** The counters of [backfill_summaries]. *)
Record stats : Type := Stats {
  total : nat;
  processed : nat;
  skipped_exists : nat;
  skipped_no_messages : nat;
  skipped_not_meaningful : nat;
  skipped_not_actionable : nat;
  failed : nat
}.

(** [stats[stat_key] += 1] for the key [result_map] gives a status. *)
Definition count_status (s : status) (st : stats) : stats :=
  match s with
  | Success =>
      Stats (total st) (S (processed st)) (skipped_exists st)
            (skipped_no_messages st) (skipped_not_meaningful st)
            (skipped_not_actionable st) (failed st)
  | NoMessages =>
      Stats (total st) (processed st) (skipped_exists st)
            (S (skipped_no_messages st)) (skipped_not_meaningful st)
            (skipped_not_actionable st) (failed st)
  | NotMeaningful =>
      Stats (total st) (processed st) (skipped_exists st)
            (skipped_no_messages st) (S (skipped_not_meaningful st))
            (skipped_not_actionable st) (failed st)
  | NotActionable =>
      Stats (total st) (processed st) (skipped_exists st)
            (skipped_no_messages st) (skipped_not_meaningful st)
            (S (skipped_not_actionable st)) (failed st)
  end.

(** [stats["failed"] += 1] *)
Definition count_failed (st : stats) : stats :=
  Stats (total st) (processed st) (skipped_exists st)
        (skipped_no_messages st) (skipped_not_meaningful st)
        (skipped_not_actionable st) (S (failed st)).

(** A discovered chat with its store. *)
Record chat : Type := Chat {
  chat_id : string;
  chat_workspace : option string;
  chat_store : store
}.

(** [if not workspace_path], negated. *)
Definition known_workspace (c : chat) : bool := nonempty (chat_workspace c).

Section Batch.
Variable cfg : config.
Variable agent : string -> string -> option string.
(** The clock read by the upsert of the [i]-th chat processed. *)
Variable clock : nat -> Z.
(** What [time.sleep(delay)] does: it raises [ValueError] for a delay
    that is negative or not a number and [OverflowError] for one that is
    too large. *)
Variable sleep : outcome unit.

(** One round of the [try] block of the processing loop, after
    [_process_single_chat] has returned [result]: the counter of the
    status goes up, then the progress line slices the name, then a
    success that is not the last chat sleeps.  An exception in any of
    these counts the chat as failed as well. *)
Definition count_round (i n : nat) (result : outcome (status * json)) (st : stats)
  : stats :=
  match result with
  | Raise _ => count_failed st
  | Ok (result, name) =>
      let st := count_status result st in
      match slice_30 name with
      | Raise _ => count_failed st
      | Ok _ =>
          match result with
          | Success =>
              if (i <? n)%nat then
                match sleep with
                | Ok _ => st
                | Raise _ => count_failed st
                end
              else st
          | _ => st
          end
      end
  end.

(** The processing loop of [backfill_summaries] over the chats from the
    [i]-th on, [i] counting from 1 and [n] being [len(to_process)]. *)
Fixpoint process_chats (i n : nat) (to_process : list chat) (st : stats) (w : world)
  : stats * world :=
  match to_process with
  | [] => (st, w)
  | c :: to_process' =>
      let '(result, w') :=
        _process_single_chat cfg agent (clock i) (chat_id c)
                             (chat_workspace c) (chat_store c) w in
      process_chats (S i) n to_process' (count_round i n result st) w'
  end.

(** The chats the first loop of [backfill_summaries] keeps. *)
Definition chats_to_process (all_chats : list chat) (w : world) : list chat :=
  List.filter
    (fun c => known_workspace c
              && negb (bool_decide
                         (is_Some (Db.get_summary_state (summaries w) (chat_id c)))))
    all_chats.

(** [if limit: to_process = to_process[:limit]] *)
Definition apply_limit (limit : option Z) (to_process : list chat) : list chat :=
  match limit with
  | Some n => if (n =? 0)%Z then to_process else slice_to n to_process
  | None => to_process
  end.

(** [backfill_summaries] *)
Definition backfill_summaries (all_chats : list chat) (dry_run : bool)
           (limit : option Z) (w : world) : stats * world :=
  let already :=
    List.filter
      (fun c => known_workspace c
                && bool_decide
                     (is_Some (Db.get_summary_state (summaries w) (chat_id c))))
      all_chats in
  let st := Stats (length all_chats) 0 (length already) 0 0 0 0 in
  let to_process := apply_limit limit (chats_to_process all_chats w) in
  if dry_run then (st, w)
  else process_chats 1 (length to_process) to_process st w.
End Batch.

End BackfillBatch.

(** ** search.py *)

Module Search.
Import PyStr Json Summarize.

(** A summary as [list_recent_summaries] returns it (the [blob_ids] column
    is not selected). *)
Record summary : Type := Summary {
  conversation_id : string;
  summary_text : string;
  created_at : Z;
  updated_at : Z;
  chat_name : option string;
  chat_directory : option string
}.

(** A result: the copied summary with its ["reason"] entry. *)
Record ranked : Type := Ranked {
  entry : summary;
  reason : json
}.

(** What an f-string prints for a nullable text column. *)
Definition format_opt (o : option string) : string :=
  match o with
  | Some s => s
  | None => "None"
  end.

(** The text of [_fallback_ranking] that the keywords are looked up in. *)
Definition haystack (s : summary) : string :=
  lower (summary_text s +:+ " " +:+ format_opt (chat_name s) +:+ " "
           +:+ format_opt (chat_directory s)).

(** [sum(1 for kw in keywords if kw in text)] over the set [keywords]. *)
Definition score (keywords : gset string) (s : summary) : nat :=
  length (List.filter (fun kw => contains kw (haystack s)) (elements keywords)).

(** [list.sort(key=..., reverse=True)]: descending by key and stable, so
    an element goes in front of the first one whose key is not larger. *)
Fixpoint insert_desc {A} (key : A -> nat) (x : A) (sorted : list A) : list A :=
  match sorted with
  | [] => [x]
  | y :: sorted' =>
      if (key x <? key y)%nat then y :: insert_desc key x sorted'
      else x :: sorted
  end.

Fixpoint sort_desc {A} (key : A -> nat) (l : list A) : list A :=
  match l with
  | [] => []
  | x :: l' => insert_desc key x (sort_desc key l')
  end.

(** [_fallback_ranking] *)
Definition _fallback_ranking (description : string) (summaries : list summary)
           (max_results : Z) : list ranked :=
  let keywords : gset string := list_to_set (split_ws (lower description)) in
  let scored :=
    List.filter (fun p => (0 <? fst p)%nat)
                (List.map (fun s => (score keywords s, s)) summaries) in
  let scored := sort_desc fst scored in
  List.map (fun p => Ranked (snd p) (JStr "Keyword match"))
           (slice_to max_results scored).

(** [re.search(r'\[.*\]', response, re.DOTALL)]: from the first "[" through
    the last "]" behind it.  [through_last c s] is [s] up to and including
    its last [c]. *)
Fixpoint through_last (c : ascii) (s : string) : option string :=
  match s with
  | EmptyString => None
  | String d s' =>
      match through_last c s' with
      | Some t => Some (String d t)
      | None => if Ascii.eqb d c then Some (String d "") else None
      end
  end.

Definition search_array (response : string) : option string :=
  match find "[" response with
  | Some i => through_last "]" (drop i response)
  | None => None
  end.

(** [{s["conversation_id"]: s for s in summaries}]: a later summary
    replaces an earlier one of the same id. *)
Definition summary_map (summaries : list summary) : gmap string summary :=
  fold_left (fun m s => <[conversation_id s := s]> m) summaries ∅.

(** The loop of [_parse_ranking_response].  [conv_id in summary_map]
    hashes the id, which raises for a list or a dict. *)
Fixpoint ranked_results (map : gmap string summary) (ranked_ids : list json)
  : outcome (list ranked) :=
  match ranked_ids with
  | [] => Ok []
  | item :: ranked_ids' =>
      let continue := ranked_results map ranked_ids' in
      match item with
      | JObj fields =>
          match dict_get fields "id" with
          | Some (JStr conv_id) =>
              match map !! conv_id with
              | Some s =>
                  try! rest := continue in
                  Ok (Ranked s (default (JStr "") (dict_get fields "reason")) :: rest)
              | None => continue
              end
          | Some (JArr _) | Some (JObj _) => Raise TypeError
          | Some _ => continue
          | None => continue
          end
      | _ => continue
      end
  end.

Section Parser.
(** [json.loads] on a text that begins with "[": the parsed array, or
    [None] for [JSONDecodeError]. *)
Variable loads_array : string -> option (list json).

(** [_parse_ranking_response] *)
Definition _parse_ranking_response (response : string) (summaries : list summary)
  : outcome (list ranked) :=
  match search_array response with
  | None => Ok []
  | Some text =>
      match loads_array text with
      | None => Ok []
      | Some ranked_ids => ranked_results (summary_map summaries) ranked_ids
      end
  end.

Definition candidate_json (s : summary) : json :=
  JObj [ ("id", JStr (conversation_id s));
         ("summary", JStr (summary_text s));
         ("name", match chat_name s with Some n => JStr n | None => JNull end);
         ("directory",
          match chat_directory s with Some d => JStr d | None => JNull end) ].

Definition ranking_prompt (description : string) (summaries : list summary)
           (max_results : Z) : string :=
  join nl
    [ "Rank these chats by relevance to: " +:+ String dquote description
        +:+ String dquote "";
      "";
      dumps_indent 0 (JArr (List.map candidate_json summaries));
      "";
      "Return JSON array with relevant chats only (max " +:+ str_of_int max_results
        +:+ "):";
      "[{" +:+ String dquote "id" +:+ String dquote ": "
        +:+ String dquote "..." +:+ String dquote ", "
        +:+ String dquote "reason" +:+ String dquote ": "
        +:+ String dquote "..." +:+ String dquote "}]";
      "";
      "If none match, return: []" ].

(** [rank_summaries] *)
Definition rank_summaries (agent : string -> string -> option string)
           (description : string) (summaries : list summary) (model : string)
           (max_results : Z) (use_llm : bool) (w : world)
  : outcome (list ranked) * world :=
  match summaries with
  | [] => (Ok [], w)
  | _ =>
      if negb use_llm then (Ok (_fallback_ranking description summaries max_results), w)
      else
        let prompt := ranking_prompt description summaries max_results in
        let '(response, w') := run_agent agent prompt model w in
        let fallback := Ok (_fallback_ranking description summaries max_results) in
        if nonempty response then
          match _parse_ranking_response (default "" response) summaries with
          | Raise e => (Raise e, w')
          | Ok [] => (fallback, w')
          | Ok ranked => (Ok (slice_to max_results ranked), w')
          end
        else (fallback, w')
  end.
End Parser.

End Search.

(** ** Shapes of input and sample data used by the properties below *)

Module Shapes.
Import PyStr Json Summarize SessionEnd BackfillBatch.

(** The chats that the processing loop of [backfill_summaries] counted. *)
Definition handled (st : stats) : nat :=
  processed st + skipped_no_messages st + skipped_not_meaningful st
  + skipped_not_actionable st + failed st.

(** A batch of one chat: the store of "conv" under a known workspace. *)
Definition batch_of_one : list chat :=
  [ Chat "conv" (Some "/Users/jane/dev/my-app")
         (ChatStore.Store (Some hook_meta) [blob_a; blob_c]) ].

(** A disk with one workspace, a stand-in for the digest, and a projects
    folder holding the workspace's entry, a file and a foreign folder. *)
Definition jane_tree : string -> bool := Backfill.tree ["/Users/jane/dev/app"].

Definition tagged (path : string) : string := "digest of " +:+ path.

Definition jane_projects : list (string * bool) :=
  [("Users-jane-dev-app", true); ("Users-jane-notes", false); ("tmp-cache", true)].

(** Three stored summaries, and a parser that reads every text as the
    same array. *)
Definition chat_css : Search.summary :=
  Search.Summary "c2" "Tidy the css of the login page" 11 21 None None.

Definition chat_auth : Search.summary :=
  Search.Summary "c1" "Fix login token refresh" 10 20 (Some "auth")
                 (Some "/Users/jane/dev/app").

Definition chat_docs : Search.summary :=
  Search.Summary "c3" "Write release notes" 12 22 (Some "docs") None.

Definition sample_summaries : list Search.summary := [chat_css; chat_auth; chat_docs].

Definition parsed_as (ranked_ids : list json) : string -> option (list json) :=
  fun _ => Some ranked_ids.

(** Two arrays an agent may answer with: one names a stored chat and an
    unknown one, the other gives a list for an id. *)
Definition ranked_reply : list json :=
  [ JObj [("id", JStr "c1"); ("reason", JStr "best")]; JObj [("id", JStr "zz")] ].

Definition unhashable_reply : list json :=
  [ JObj [("id", JStr "c1")]; JObj [("id", JArr [JStr "c2"])] ].

(** A content part that [_extract_text_content] keeps: a dict whose
    ["type"] is ["text"]. *)
Definition is_text_part (item : json) : bool :=
  match item with
  | JObj fields => eq_str (default (JStr "") (dict_get fields "type")) "text"
  | _ => false
  end.

(** The ["text"] entry of a part, [""] when missing. *)
Definition part_text (item : json) : json :=
  match item with
  | JObj fields => default (JStr "") (dict_get fields "text")
  | _ => JStr ""
  end.

Definition is_str (j : json) : bool :=
  match j with
  | JStr _ => true
  | _ => false
  end.

(** A blob payload that the loop of [_extract_messages] passes over
    before looking at the content: not a dict, or a dict whose role or
    content is missing or falsy. *)
Definition malformed (blob_data : json) : bool :=
  match blob_data with
  | JObj fields =>
      negb (truthy (default JNull (dict_get fields "role")))
      || negb (truthy (default JNull (dict_get fields "content")))
  | _ => true
  end.

(** What every message emitted by [_extract_messages] satisfies: a
    content of 10 to 2000 characters that is not a metadata banner, and a
    truthy role that is not "system". *)
Definition well_formed (msg : message) : Prop :=
  10 <= String.length (content msg) <= 2000 /\
  _is_mostly_metadata (content msg) = false /\
  truthy (role msg) = true /\
  eq_str (role msg) "system" = false.

End Shapes.

(* ===================================================================== *)
(** * Part II: properties                                                *)
(* ===================================================================== *)

(** String concatenation computes by [simpl] on a known head. *)
Arguments String.append !_ _ / : simpl nomatch.
Arguments PyStr.startswith _ _ : simpl never.

(** ** Facts about the string primitives *)

Module PyStrFacts.
Import PyStr.

Lemma existsb_false_iff {A} (f : A -> bool) (l : list A) :
  existsb f l = false <-> forall x, In x l -> f x = false.
Proof.
  induction l as [|a l IH]; simpl.
  - split; [intros _ x [] | reflexivity].
  - rewrite orb_false_iff, IH. split.
    + intros [Ha Hl] x [<- | Hx]; auto.
    + intros H. split; [apply H; auto | intros x Hx; apply H; auto].
Qed.

Lemma append_nil_r (s : string) : s +:+ "" = s.
Proof. induction s as [|c s IH]; simpl; [reflexivity | now rewrite IH]. Qed.

Lemma append_assoc (a b c : string) : (a +:+ b) +:+ c = a +:+ (b +:+ c).
Proof. induction a as [|x a IH]; simpl; [reflexivity | now rewrite IH]. Qed.

Lemma length_append (a b : string) :
  String.length (a +:+ b) = String.length a + String.length b.
Proof. induction a as [|x a IH]; simpl; [reflexivity | now rewrite IH]. Qed.

Lemma eqb_eq_iff (a b : string) : String.eqb a b = true <-> a = b.
Proof. apply String.eqb_eq. Qed.

Lemma ascii_eqb_refl (c : ascii) : Ascii.eqb c c = true.
Proof. now apply Ascii.eqb_eq. Qed.

Lemma startswith_iff (p s : string) :
  startswith p s = true <-> exists t, s = p +:+ t.
Proof.
  unfold startswith. revert s.
  induction p as [|c p IH]; intros s.
  - split; [intros _; exists s; reflexivity | destruct s; reflexivity].
  - destruct s as [|d s]; simpl.
    + split; [discriminate | intros [t Ht]; discriminate].
    + destruct (ascii_dec c d) as [->|Hne].
      * split.
        -- intros H. apply IH in H as [t ->]. now exists t.
        -- intros [t Ht]. injection Ht as ->. apply IH. now exists t.
      * split; [discriminate | intros [t Ht]; injection Ht; congruence].
Qed.

Lemma startswith_append (p t : string) : startswith p (p +:+ t) = true.
Proof. apply startswith_iff. now exists t. Qed.

Lemma find_Some_split (sub s : string) (i : nat) :
  find sub s = Some i ->
  s = take i s +:+ sub +:+ drop (i + String.length sub) s /\
  String.length (take i s) = i.
Proof.
  revert i. induction s as [|c s IH]; intros i; simpl.
  - destruct (startswith sub "") eqn:E; [|discriminate].
    intros [= <-]. apply startswith_iff in E as [t Ht].
    destruct sub; [|discriminate]. auto.
  - destruct (startswith sub (String c s)) eqn:E.
    + intros [= <-]. apply startswith_iff in E as [t Ht].
      split; [|reflexivity]. simpl. rewrite Ht at 1. f_equal.
      clear -Ht. revert Ht. generalize (String c s) as u.
      induction sub as [|d sub IHs]; intros u Hu; simpl.
      * now destruct u.
      * destruct u as [|e u]; [discriminate|]. injection Hu as -> ->.
        now apply IHs.
    + destruct (find sub s) as [j|]; [|discriminate].
      intros [= <-]. destruct (IH j eq_refl) as [Hs Hl].
      split; simpl; [now rewrite <- Hs | now rewrite Hl].
Qed.

Lemma find_None_suffix (sub : string) (c : ascii) (s : string) :
  find sub (String c s) = None -> find sub s = None.
Proof.
  simpl. destruct (startswith sub (String c s)); [discriminate|].
  now destruct (find sub s).
Qed.

Lemma contains_iff (sub s : string) :
  contains sub s = true <-> exists pre post, s = pre +:+ sub +:+ post.
Proof.
  unfold contains. split.
  - destruct (find sub s) as [i|] eqn:E; [|discriminate]. intros _.
    apply find_Some_split in E as [E _]. eauto.
  - intros (pre & post & ->).
    induction pre as [|c pre IH]; simpl.
    + replace (find sub (sub +:+ post)) with (Some 0); [reflexivity|].
      destruct sub; simpl; [now destruct post|].
      change (String a sub +:+ post) with (String a (sub +:+ post)).
      pose proof (startswith_append (String a sub) post) as H.
      simpl in *. now rewrite H.
    + destruct (startswith sub (String c (pre +:+ sub +:+ post))); [reflexivity|].
      now destruct (find sub (pre +:+ sub +:+ post)).
Qed.

Lemma contains_false_iff (sub s : string) :
  contains sub s = false <-> find sub s = None.
Proof. unfold contains. destruct (find sub s); split; congruence. Qed.

Lemma contains_within (sub inner s : string) :
  contains sub inner = true -> contains inner s = true -> contains sub s = true.
Proof.
  intros H1 H2. apply contains_iff in H1 as (p1 & q1 & ->).
  apply contains_iff in H2 as (p2 & q2 & ->).
  apply contains_iff. exists (p2 +:+ p1), (q1 +:+ q2).
  now rewrite !append_assoc.
Qed.

Lemma lower_append (a b : string) : lower (a +:+ b) = lower a +:+ lower b.
Proof. induction a as [|c a IH]; simpl; [reflexivity | now rewrite IH]. Qed.

Lemma length_lower (s : string) : String.length (lower s) = String.length s.
Proof. induction s as [|c s IH]; simpl; [reflexivity | now rewrite IH]. Qed.

Lemma contains_lower (inner s : string) :
  contains inner s = true -> contains (lower inner) (lower s) = true.
Proof.
  intros H. apply contains_iff in H as (p & q & ->).
  apply contains_iff. exists (lower p), (lower q). now rewrite !lower_append.
Qed.

Lemma contains_prefix (sub t : string) : contains sub (sub +:+ t) = true.
Proof. apply contains_iff. now exists "", t. Qed.

(** *** Whitespace and stripping *)

Lemma lstrip_decomp (s : string) :
  exists ws, all_whitespace ws = true /\ s = ws +:+ lstrip s.
Proof.
  induction s as [|c s (ws & Hws & Hs)]; simpl.
  - now exists "".
  - destruct (isspace c) eqn:Hc.
    + exists (String c ws). simpl. rewrite Hc, Hws. split; [reflexivity | now f_equal].
    + now exists "".
Qed.

Lemma lstrip_app_ws (ws s : string) :
  all_whitespace ws = true -> lstrip (ws +:+ s) = lstrip s.
Proof.
  induction ws as [|c ws IH]; simpl; [reflexivity|].
  intros H. apply andb_true_iff in H as [-> H]. auto.
Qed.

Lemma lstrip_head (s : string) :
  lstrip s = "" \/ exists c t, lstrip s = String c t /\ isspace c = false.
Proof.
  induction s as [|c s IH]; simpl; [now left|].
  destruct (isspace c) eqn:Hc; [exact IH | right; eauto].
Qed.

Lemma lstrip_all_ws (s : string) : all_whitespace s = true -> lstrip s = "".
Proof.
  induction s as [|c s IH]; simpl; [reflexivity|].
  intros H. apply andb_true_iff in H as [-> H]. auto.
Qed.

Lemma rstrip_cons (c : ascii) (s : string) :
  rstrip (String c s)
  = if all_whitespace (String c s) then "" else String c (rstrip s).
Proof.
  revert c. induction s as [|d s IH]; intros c.
  - simpl. destruct (isspace c); reflexivity.
  - change (rstrip (String c (String d s)))
      with (match rstrip (String d s) with
            | "" => if isspace c then "" else String c ""
            | r => String c r
            end).
    rewrite IH. change (all_whitespace (String c (String d s)))
      with (isspace c && all_whitespace (String d s)).
    destruct (all_whitespace (String d s)); [|now rewrite andb_false_r].
    rewrite andb_true_r. destruct (isspace c); reflexivity.
Qed.

Lemma rstrip_all_ws (s : string) : all_whitespace s = true -> rstrip s = "".
Proof.
  destruct s as [|c s]; [reflexivity|]. intros H. now rewrite rstrip_cons, H.
Qed.

Lemma all_whitespace_rstrip (s : string) :
  all_whitespace (rstrip s) = all_whitespace s.
Proof.
  induction s as [|c s IH]; [reflexivity|].
  rewrite rstrip_cons. destruct (all_whitespace (String c s)) eqn:E; [reflexivity|].
  simpl in *. now rewrite IH.
Qed.

Lemma rstrip_idempotent (s : string) : rstrip (rstrip s) = rstrip s.
Proof.
  induction s as [|c s IH]; [reflexivity|].
  rewrite rstrip_cons. destruct (all_whitespace (String c s)) eqn:E; [reflexivity|].
  rewrite rstrip_cons. simpl in *. now rewrite all_whitespace_rstrip, E, IH.
Qed.

Lemma strip_idempotent (s : string) : strip (strip s) = strip s.
Proof.
  unfold strip. destruct (lstrip_head s) as [-> | (c & t & -> & Hc)]; [reflexivity|].
  rewrite rstrip_cons. simpl. rewrite Hc. simpl. rewrite Hc.
  rewrite rstrip_cons. simpl. rewrite Hc. simpl. now rewrite rstrip_idempotent.
Qed.

(** *** Two ways of cutting one string *)

Lemma append_eq_cases (a b c d : string) :
  a +:+ b = c +:+ d ->
  (exists m, c = a +:+ m /\ b = m +:+ d) \/
  (exists m, a = c +:+ m /\ d = m +:+ b).
Proof.
  revert c. induction a as [|x a IH]; intros c H.
  - left. now exists c.
  - destruct c as [|y c].
    + right. now exists (String x a).
    + simpl in H. injection H as -> H.
      destruct (IH c H) as [(m & -> & ->) | (m & -> & ->)];
        [left | right]; now exists m.
Qed.

Lemma append_inj_length (a b c d : string) :
  a +:+ b = c +:+ d -> String.length a = String.length c -> a = c /\ b = d.
Proof.
  revert c. induction a as [|x a IH]; intros [|y c]; simpl; try discriminate.
  - auto.
  - intros H L. injection H as -> H. injection L as L.
    destruct (IH c H L) as [-> ->]. auto.
Qed.

Lemma append_inv_head (a b c : string) : a +:+ b = a +:+ c -> b = c.
Proof. intros H. now apply append_inj_length in H. Qed.

(** *** The leftmost occurrence *)

Lemma find_cons (sub : string) (x : ascii) (s : string) :
  find sub (String x s)
  = if startswith sub (String x s) then Some 0 else option_map S (find sub s).
Proof. reflexivity. Qed.

Lemma find_prefix (sub post : string) : find sub (sub +:+ post) = Some 0.
Proof.
  destruct (sub +:+ post) eqn:E; simpl; rewrite <- E, startswith_append; reflexivity.
Qed.

Lemma find_le (sub pre post : string) (i : nat) :
  find sub (pre +:+ sub +:+ post) = Some i -> i <= String.length pre.
Proof.
  revert i. induction pre as [|c pre IH]; intros i.
  - simpl. rewrite find_prefix. intros [= <-]. lia.
  - simpl. destruct (startswith _ _); [intros [= <-]; lia|].
    destruct (find sub _) as [j|]; [|discriminate].
    intros [= <-]. specialize (IH j eq_refl). lia.
Qed.

Lemma startswith_head_ne (c x : ascii) (sub s : string) :
  c <> x -> startswith (String c sub) (String x s) = false.
Proof.
  intros H. unfold startswith. simpl. now destruct (ascii_dec c x).
Qed.

Lemma occurs_false_ne (c d : ascii) (s t : string) :
  occurs c (s +:+ String d t) = false -> c <> d.
Proof.
  induction s as [|x s IH]; simpl.
  - intros H ->. now rewrite ascii_eqb_refl in H.
  - intros H. apply orb_false_iff in H as [_ H]. auto.
Qed.

Lemma find_after_ws (c : ascii) (sub ws post : string) :
  isspace c = false -> all_whitespace ws = true ->
  find (String c sub) (ws +:+ String c sub +:+ post) = Some (String.length ws).
Proof.
  intros Hc. induction ws as [|x ws IH]; intros Hws.
  - apply (find_prefix (String c sub)).
  - simpl in Hws. apply andb_true_iff in Hws as [Hx Hws].
    change (String x ws +:+ String c sub +:+ post)
      with (String x (ws +:+ String c sub +:+ post)).
    rewrite find_cons, startswith_head_ne by congruence.
    now rewrite (IH Hws).
Qed.

(** *** Splitting on a separator that cannot overlap itself *)

Lemma split_rounds_found (rounds : nat) (sep s : string) (i : nat) :
  find sep s = Some i ->
  split_rounds (S rounds) sep s
  = take i s :: split_rounds rounds sep (drop (i + String.length sep) s).
Proof. intros H. simpl. now rewrite H. Qed.

Lemma split_rounds_none (rounds : nat) (sep s : string) :
  find sep s = None -> split_rounds rounds sep s = [s].
Proof. intros H. destruct rounds; simpl; now rewrite H. Qed.

(** More rounds than characters change nothing: the bound in [split] is
    never what ends the cutting. *)
Lemma split_rounds_stable (sep : string) (r1 : nat) :
  sep <> "" ->
  forall r2 s,
    String.length s <= r1 -> String.length s <= r2 ->
    split_rounds r1 sep s = split_rounds r2 sep s.
Proof.
  intros Hsep. induction r1 as [|r1 IH]; intros r2 s H1 H2.
  - destruct s; [|simpl in H1; lia].
    assert (find sep "" = None) as Hnone.
    { simpl. destruct (startswith sep "") eqn:E; [|reflexivity].
      apply startswith_iff in E as [t Ht]. destruct sep; [congruence | discriminate]. }
    now rewrite !split_rounds_none.
  - destruct (find sep s) as [i|] eqn:Hfind.
    + pose proof (find_Some_split _ _ _ Hfind) as [Hcut Hi].
      apply (f_equal String.length) in Hcut.
      rewrite !length_append, Hi in Hcut.
      assert (0 < String.length sep) by (destruct sep; [congruence | simpl; lia]).
      destruct r2 as [|r2]; [lia|].
      rewrite !(split_rounds_found _ _ _ _ Hfind). f_equal. apply IH; lia.
    + now rewrite !split_rounds_none.
Qed.

Section Split.
Variables (c0 : ascii) (sep' : string).
Hypothesis Hfresh : occurs c0 sep' = false.
Let sep := String c0 sep'.

(** An occurrence of the separator that starts inside another one would
    put its first character into the tail of the separator. *)
Lemma sep_no_overlap (m m' a b : string) :
  sep = m +:+ m' -> sep +:+ a = m' +:+ b -> m = "" \/ m' = "".
Proof.
  intros Hs Ha. destruct m as [|x m]; [now left|]. right.
  destruct m' as [|y m']; [reflexivity|].
  unfold sep in *. simpl in Hs, Ha. injection Hs as -> Hs. injection Ha as <- _.
  rewrite Hs in Hfresh. now apply occurs_false_ne in Hfresh.
Qed.

Lemma split_rounds_last (rem : string) :
  contains sep rem = false ->
  forall rounds s pre,
    String.length s <= rounds ->
    s = pre +:+ sep +:+ rem ->
    List.last (split_rounds rounds sep s) "" = rem /\
    1 < length (split_rounds rounds sep s).
Proof.
  intros Hrem. apply contains_false_iff in Hrem.
  assert (Hbase : forall r t, List.last (t :: split_rounds r sep rem) "" = rem /\
                              1 < length (t :: split_rounds r sep rem)).
  { intros r t. rewrite split_rounds_none by exact Hrem. simpl. split; [reflexivity | lia]. }
  induction rounds as [|rounds IH]; intros s pre Hlen Hs.
  - subst s. rewrite !length_append in Hlen. simpl in Hlen. lia.
  - destruct (find sep s) as [i|] eqn:Hfind.
    2:{ assert (contains sep s = true) as Hc by (apply contains_iff; eauto).
        unfold contains in Hc. now rewrite Hfind in Hc. }
    rewrite (split_rounds_found _ _ _ _ Hfind).
    pose proof Hfind as Hle. rewrite Hs in Hle. apply find_le in Hle.
    apply find_Some_split in Hfind as [Hcut Hi].
    set (s1 := drop (i + String.length sep) s) in *.
    assert (Hs1 : String.length s1 <= rounds).
    { apply (f_equal String.length) in Hcut.
      rewrite !length_append in Hcut. simpl in Hcut. lia. }
    assert (Hnext : forall pre', s1 = pre' +:+ sep +:+ rem ->
              List.last (take i s :: split_rounds rounds sep s1) "" = rem /\
              1 < length (take i s :: split_rounds rounds sep s1)).
    { intros pre' E. destruct (IH s1 pre' Hs1 E) as [Hl Hn].
      destruct (split_rounds rounds sep s1) as [|p ps] eqn:Ep; simpl in *; [lia|].
      split; [exact Hl | lia]. }
    rewrite Hs in Hcut at 1.
    apply append_eq_cases in Hcut as [(m & Htake & Hrest) | (m & Hpre & Hrest)].
    + assert (m = "") as ->.
      { apply (f_equal String.length) in Htake.
        rewrite length_append, Hi in Htake. destruct m; [reflexivity | simpl in *; lia]. }
      change (sep +:+ rem = sep +:+ s1) in Hrest.
      apply append_inv_head in Hrest. rewrite <- Hrest.
      apply Hbase.
    + apply append_eq_cases in Hrest as [(m' & Hm & Hr) | (m' & Hsep & Hr)].
      * apply (Hnext m'). exact Hr.
      * destruct (sep_no_overlap m m' rem s1 Hsep Hr) as [-> | ->].
        -- change (sep = m') in Hsep. subst m'.
           apply append_inv_head in Hr. rewrite <- Hr. apply Hbase.
        -- change (sep +:+ rem = s1) in Hr. apply (Hnext ""). now rewrite <- Hr.
Qed.

Lemma split_last (pre rem : string) :
  contains sep rem = false ->
  List.last (split sep (pre +:+ sep +:+ rem)) "" = rem /\
  1 < length (split sep (pre +:+ sep +:+ rem)).
Proof.
  intros Hrem. unfold split.
  now apply (split_rounds_last rem Hrem _ _ pre).
Qed.
End Split.

(** *** Words *)

Lemma no_whitespace_append (a b : string) :
  no_whitespace (a +:+ b) = no_whitespace a && no_whitespace b.
Proof.
  induction a as [|c a IH]; simpl; [reflexivity|]. now rewrite IH, andb_assoc.
Qed.

Lemma words_from_cons (cur : string) (c : ascii) (s : string) :
  words_from cur (String c s)
  = if isspace c
    then (if String.eqb cur "" then words_from "" s else cur :: words_from "" s)
    else words_from (cur +:+ String c "") s.
Proof. reflexivity. Qed.

Lemma words_from_word (w cur s : string) :
  no_whitespace w = true -> words_from cur (w +:+ s) = words_from (cur +:+ w) s.
Proof.
  revert cur. induction w as [|c w IH]; intros cur H.
  - now rewrite append_nil_r.
  - simpl in H. apply andb_true_iff in H as [Hc Hw].
    apply negb_true_iff in Hc.
    change (String c w +:+ s) with (String c (w +:+ s)).
    rewrite words_from_cons, Hc, (IH _ Hw), append_assoc. reflexivity.
Qed.

Lemma words_from_sound (s : string) :
  forall cur, no_whitespace cur = true -> Forall is_word (words_from cur s).
Proof.
  induction s as [|c s IH]; intros cur Hcur.
  - simpl. destruct (String.eqb cur "") eqn:E; [constructor|].
    apply String.eqb_neq in E. repeat constructor; assumption.
  - rewrite words_from_cons. destruct (isspace c) eqn:Hc.
    + destruct (String.eqb cur "") eqn:E; [now apply IH|].
      apply String.eqb_neq in E. constructor; [now split | now apply IH].
    + apply IH. rewrite no_whitespace_append, Hcur. simpl. now rewrite Hc.
Qed.

Lemma split_ws_words (s : string) : Forall is_word (split_ws s).
Proof. now apply words_from_sound. Qed.

Lemma append_nonempty_r (a b : string) : b <> "" -> a +:+ b <> "".
Proof. destruct a, b; simpl; congruence. Qed.

Lemma append_nonempty_l (a b : string) : a <> "" -> a +:+ b <> "".
Proof. destruct a; simpl; congruence. Qed.

Lemma words_from_single (cur : string) : cur <> "" -> words_from cur "" = [cur].
Proof. intros H. simpl. apply String.eqb_neq in H. now rewrite H. Qed.

(** Joining words with single spaces and gluing a whitespace-free tail to
    the last one gives back as many words. *)
Lemma words_from_join (ws : list string) (tail : string) :
  Forall is_word ws -> ws <> [] -> no_whitespace tail = true ->
  forall cur, length (words_from cur (join " " ws +:+ tail)) = length ws.
Proof.
  intros Hws Hne Htail. induction Hws as [|w ws [Hw1 Hw2] Hws IH]; [congruence|].
  intros cur. destruct ws as [|w' ws].
  - simpl join. rewrite words_from_word by exact Hw2.
    rewrite <- (append_nil_r tail), words_from_word by exact Htail.
    rewrite words_from_single; [reflexivity|].
    now apply append_nonempty_l, append_nonempty_r.
  - change (join " " (w :: w' :: ws)) with (w +:+ " " +:+ join " " (w' :: ws)).
    rewrite !append_assoc, words_from_word by exact Hw2.
    change (" " +:+ ?t) with (String " "%char t).
    rewrite words_from_cons.
    change (isspace " ") with true. cbv iota.
    destruct (String.eqb (cur +:+ w) "") eqn:E.
    + apply String.eqb_eq in E. now apply append_nonempty_r in E.
    + simpl length. f_equal. apply IH. discriminate.
Qed.

Lemma Forall_firstn {A} (P : A -> Prop) (n : nat) (l : list A) :
  Forall P l -> Forall P (firstn n l).
Proof.
  intros H. revert n. induction H as [|x l Hx Hl IH]; intros [|n]; simpl;
    constructor; auto.
Qed.

End PyStrFacts.

(** ** backfill.py: the folder-name decoder *)

Module BackfillFacts.
Import PyStr PyStrFacts Backfill.

Lemma os_path_join_absolute (a b : string) :
  startswith "/" a = true -> startswith "/" (os_path_join a b) = true.
Proof.
  intros Ha. unfold os_path_join.
  destruct (startswith "/" b) eqn:Hb; [exact Hb|].
  apply startswith_iff in Ha as [t ->].
  destruct (_ || _); apply startswith_iff; eexists; simpl; reflexivity.
Qed.

Lemma os_path_join_nonempty (a b : string) :
  a <> "" -> os_path_join a b <> "".
Proof.
  intros Ha. unfold os_path_join.
  destruct (startswith "/" b) eqn:Hb.
  - intros ->. discriminate.
  - destruct a as [|c a]; [congruence|].
    destruct (_ || _); simpl; discriminate.
Qed.

Lemma for_range_Some {A} (body : nat -> option A) (range : list nat) (r : A) :
  for_range body range = Some r -> exists i, In i range /\ body i = Some r.
Proof.
  induction range as [|i range IH]; simpl; [discriminate|].
  destruct (body i) as [r'|] eqn:Hi.
  - intros [= ->]. exists i. auto.
  - intros H. destruct (IH H) as (j & Hj & Hr). exists j. auto.
Qed.

Lemma for_range_ext {A} (f g : nat -> option A) (range : list nat) :
  (forall i, In i range -> f i = g i) -> for_range f range = for_range g range.
Proof.
  induction range as [|i range IH]; simpl; intros H; [reflexivity|].
  rewrite (H i) by auto. destruct (g i); [reflexivity|]. apply IH. auto.
Qed.

Lemma for_range_first {A} (body : nat -> option A) (before after : list nat)
      (i : nat) (r : A) :
  (forall j, In j before -> body j = None) ->
  body i = Some r ->
  for_range body (before ++ i :: after) = Some r.
Proof.
  induction before as [|j before IH]; simpl; intros Hnone Hi.
  - now rewrite Hi.
  - rewrite (Hnone j) by auto. apply IH; auto.
Qed.

Lemma for_range_None {A} (body : nat -> option A) (range : list nat) :
  (forall j, In j range -> body j = None) -> for_range body range = None.
Proof.
  induction range as [|j range IH]; simpl; intros H; [reflexivity|].
  rewrite (H j) by auto. apply IH; auto.
Qed.

Lemma truthy_path_Some (r : option string) (p : string) :
  truthy_path r = Some p -> r = Some p.
Proof.
  destruct r as [q|]; simpl; [|discriminate].
  destruct (String.eqb q ""); [discriminate | congruence].
Qed.

Section Oracle.
Variable isdir : string -> bool.

(** Whatever the search returns was accepted by the oracle, and is
    absolute when the search started from an absolute prefix. *)
Lemma build_depth_sound (depth : nat) :
  forall base parts r,
    _build_path_segments_depth isdir depth base parts = Some r ->
    isdir r = true /\
    (startswith "/" base = true -> startswith "/" r = true) /\
    (base <> "" -> r <> "").
Proof.
  induction depth as [|depth IH]; intros base parts r; simpl; [discriminate|].
  destruct parts as [|p parts].
  - destruct (isdir base) eqn:Hb; [|discriminate].
    intros [= <-]. auto.
  - intros H. apply for_range_Some in H as (i & _ & Hi).
    cbv beta zeta in Hi.
    destruct (isdir (os_path_join base (join "-" (firstn i (p :: parts))))) eqn:Hc;
      [|discriminate].
    destruct (i =? length (p :: parts))%nat.
    + injection Hi as <-. split; [exact Hc|].
      split; [apply os_path_join_absolute | apply os_path_join_nonempty].
    + apply truthy_path_Some, IH in Hi as (Hr & Habs & Hne).
      split; [exact Hr|].
      split; intros Hb; [apply Habs, os_path_join_absolute, Hb
                        | apply Hne, os_path_join_nonempty, Hb].
Qed.

(** Any depth beyond the number of parts gives the same answer: the
    bound in [_build_path_segments] is never the reason for [None]. *)
Lemma build_depth_stable (d1 : nat) :
  forall d2 base parts,
    length parts < d1 -> length parts < d2 ->
    _build_path_segments_depth isdir d1 base parts
    = _build_path_segments_depth isdir d2 base parts.
Proof.
  induction d1 as [|d1 IH]; intros d2 base parts H1 H2; [lia|].
  destruct d2 as [|d2]; [lia|]. simpl.
  destruct parts as [|p parts]; [reflexivity|].
  apply for_range_ext. intros i Hi. apply in_seq in Hi.
  cbv beta zeta.
  destruct (isdir _); [|reflexivity].
  destruct (i =? length (p :: parts))%nat; [reflexivity|].
  f_equal. apply IH; rewrite length_skipn; simpl in *; lia.
Qed.

Lemma build_unfold (base : string) (parts : list string) :
  parts <> [] ->
  _build_path_segments isdir base parts
  = for_range (attempt isdir base parts) (seq 1 (length parts)).
Proof.
  intros Hne. unfold _build_path_segments. simpl.
  destruct parts as [|p parts]; [congruence|].
  apply for_range_ext. intros i Hi. apply in_seq in Hi.
  unfold attempt, candidate. cbv beta zeta.
  destruct (isdir _); [|reflexivity].
  destruct (i =? length (p :: parts))%nat; [reflexivity|].
  f_equal. unfold _build_path_segments.
  apply build_depth_stable; rewrite length_skipn; simpl in *; lia.
Qed.

Lemma build_nil (base : string) :
  _build_path_segments isdir base [] = if isdir base then Some base else None.
Proof. reflexivity. Qed.

Lemma build_sound (base : string) (parts : list string) (r : string) :
  _build_path_segments isdir base parts = Some r ->
  isdir r = true /\
  (startswith "/" base = true -> startswith "/" r = true) /\
  (base <> "" -> r <> "").
Proof. apply build_depth_sound. Qed.

Lemma resolve_sound (folder_name p : string) :
  _resolve_folder_name_to_path isdir folder_name = Some p ->
  isdir p = true /\ startswith "/" p = true.
Proof.
  unfold _resolve_folder_name_to_path.
  destruct (isdir ("/" +:+ replace_char "-" "/" folder_name)) eqn:Hs.
  - intros [= <-]. split; [exact Hs | exact (startswith_append "/" _)].
  - destruct (split "-" folder_name) as [|p0 remaining]; [discriminate|].
    destruct (_ && _); [|discriminate].
    intros H. apply truthy_path_Some, build_sound in H as (Hr & Habs & _).
    split; [exact Hr | apply Habs; reflexivity].
Qed.

Lemma truthy_path_build (base : string) (parts : list string) (r : string) :
  base <> "" ->
  _build_path_segments isdir base parts = Some r ->
  truthy_path (_build_path_segments isdir base parts) = Some r.
Proof.
  intros Hb H. rewrite H. simpl.
  destruct (String.eqb r "") eqn:E; [|reflexivity].
  apply String.eqb_eq in E. apply build_sound in H as (_ & _ & Hne).
  now destruct (Hne Hb).
Qed.

Lemma shortest_first (base : string) (parts : list string) (i : nat) (r : string) :
  base <> "" ->
  1 <= i <= length parts ->
  (forall j, 1 <= j < i ->
             isdir (candidate base parts j) = false \/
             _build_path_segments isdir (candidate base parts j) (skipn j parts) = None) ->
  isdir (candidate base parts i) = true ->
  (if (i =? length parts)%nat then r = candidate base parts i
   else _build_path_segments isdir (candidate base parts i) (skipn i parts) = Some r) ->
  _build_path_segments isdir base parts = Some r.
Proof.
  intros Hb Hi Hfail Hacc Hrec.
  rewrite build_unfold by (destruct parts; simpl in *; [lia | discriminate]).
  replace (seq 1 (length parts))
    with (seq 1 (i - 1) ++ i :: seq (S i) (length parts - i)).
  2:{ replace (length parts) with ((i - 1) + S (length parts - i)) at 2 by lia.
      rewrite seq_app. simpl. repeat f_equal; lia. }
  apply for_range_first.
  - intros j Hj. apply in_seq in Hj. unfold attempt.
    destruct (Hfail j ltac:(lia)) as [-> | Hnone]; [reflexivity|].
    destruct (isdir (candidate base parts j)); [|reflexivity].
    replace (j =? length parts)%nat with false
      by (symmetry; apply Nat.eqb_neq; lia).
    now rewrite Hnone.
  - unfold attempt. rewrite Hacc.
    destruct (i =? length parts)%nat; [now subst r|].
    apply truthy_path_build; [|exact Hrec].
    apply os_path_join_nonempty, Hb.
Qed.

Lemma all_refused (base : string) (parts : list string) :
  parts <> [] ->
  (forall j, 1 <= j <= length parts ->
             isdir (candidate base parts j) = false \/
             (j < length parts /\
              _build_path_segments isdir (candidate base parts j) (skipn j parts)
              = None)) ->
  _build_path_segments isdir base parts = None.
Proof.
  intros Hne Hfail. rewrite build_unfold by exact Hne.
  apply for_range_None. intros j Hj. apply in_seq in Hj. unfold attempt.
  destruct (Hfail j ltac:(lia)) as [-> | [Hlt Hnone]]; [reflexivity|].
  destruct (isdir (candidate base parts j)); [|reflexivity].
  replace (j =? length parts)%nat with false by (symmetry; apply Nat.eqb_neq; lia).
  now rewrite Hnone.
Qed.

Lemma jane_example :
  isdir "/Users/jane" = true ->
  isdir "/Users/jane/dev" = true ->
  isdir "/Users/jane/dev/my-app" = true ->
  isdir "/Users/jane/dev/my" = false ->
  isdir "/Users/jane/dev/my/app" = false ->
  _resolve_folder_name_to_path isdir "Users-jane-dev-my-app"
  = Some "/Users/jane/dev/my-app".
Proof.
  intros H1 H2 H3 H4 H5.
  unfold _resolve_folder_name_to_path.
  change ("/" +:+ replace_char "-" "/" "Users-jane-dev-my-app")
    with "/Users/jane/dev/my/app".
  rewrite H5.
  change (split "-" "Users-jane-dev-my-app")
    with ["Users"; "jane"; "dev"; "my"; "app"].
  cbv beta iota zeta.
  change (String.eqb "Users" "Users" && (1 <? 5)%nat) with true.
  cbv iota.
  assert (Hmy : _build_path_segments isdir "/Users/jane/dev" ["my"; "app"]
                = Some "/Users/jane/dev/my-app").
  { apply (shortest_first _ _ 2); [discriminate | simpl; lia | | exact H3 | reflexivity].
    intros j Hj. assert (j = 1) as -> by lia. left. exact H4. }
  assert (Hdev : _build_path_segments isdir "/Users/jane" ["dev"; "my"; "app"]
                 = Some "/Users/jane/dev/my-app").
  { apply (shortest_first _ _ 1); [discriminate | simpl; lia | | exact H2 | exact Hmy].
    intros j Hj. lia. }
  rewrite (shortest_first "/Users" ["jane"; "dev"; "my"; "app"] 1
             "/Users/jane/dev/my-app");
    [reflexivity | discriminate | simpl; lia | | exact H1 | exact Hdev].
  intros j Hj. lia.
Qed.
End Oracle.

(** C3.  For every folder name and every directory oracle the decoder,
    a total function, returns either [None] or a path that the oracle
    accepts as a directory and that is absolute. *)
Theorem decode_validated_or_not_found :
  forall (isdir : string -> bool) (folder_name : string),
    _resolve_folder_name_to_path isdir folder_name = None \/
    exists p, _resolve_folder_name_to_path isdir folder_name = Some p /\
              isdir p = true /\ startswith "/" p = true.
Proof.
  intros isdir folder_name.
  destruct (_resolve_folder_name_to_path isdir folder_name) as [p|] eqn:H;
    [right | left; reflexivity].
  exists p. split; [reflexivity|]. now apply resolve_sound in H.
Qed.

(** C4.  The search takes the segment lengths in increasing order: the
    answer is the one of the smallest length [i] whose candidate the oracle
    accepts and from which the rest can be resolved, every shorter
    candidate having been refused or having led nowhere (backtracking);
    when every length is refused or leads nowhere the answer is [None].
    In particular "Users-jane-dev-my-app" decodes to
    /Users/jane/dev/my-app when that directory and its ancestors exist and
    neither /Users/jane/dev/my nor /Users/jane/dev/my/app does. *)
Theorem decode_shortest_segment_first :
  (forall (isdir : string -> bool) (base : string) (parts : list string)
          (i : nat) (r : string),
      base <> "" ->
      1 <= i <= length parts ->
      (forall j, 1 <= j < i ->
                 isdir (candidate base parts j) = false \/
                 _build_path_segments isdir (candidate base parts j) (skipn j parts)
                 = None) ->
      isdir (candidate base parts i) = true ->
      (if (i =? length parts)%nat then r = candidate base parts i
       else _build_path_segments isdir (candidate base parts i) (skipn i parts)
            = Some r) ->
      _build_path_segments isdir base parts = Some r) /\
  (forall (isdir : string -> bool) (base : string) (parts : list string),
      parts <> [] ->
      (forall j, 1 <= j <= length parts ->
                 isdir (candidate base parts j) = false \/
                 (j < length parts /\
                  _build_path_segments isdir (candidate base parts j) (skipn j parts)
                  = None)) ->
      _build_path_segments isdir base parts = None) /\
  (forall isdir : string -> bool,
      isdir "/Users/jane" = true ->
      isdir "/Users/jane/dev" = true ->
      isdir "/Users/jane/dev/my-app" = true ->
      isdir "/Users/jane/dev/my" = false ->
      isdir "/Users/jane/dev/my/app" = false ->
      _resolve_folder_name_to_path isdir "Users-jane-dev-my-app"
      = Some "/Users/jane/dev/my-app").
Proof.
  split; [exact shortest_first|]. split; [exact all_refused | exact jane_example].
Qed.

Lemma decode_shortest_segment_first_witness :
  _build_path_segments
    (tree ["/Users/jane"; "/Users/jane-dev"; "/Users/jane-dev/my-app"])
    "/Users" ["jane"; "dev"; "my"; "app"]
  = Some "/Users/jane-dev/my-app"
  /\
  _resolve_folder_name_to_path
    (tree ["/"; "/Users"; "/Users/jane"; "/Users/jane/dev"; "/Users/jane/dev/my-app"])
    "Users-jane-dev-my-app"
  = Some "/Users/jane/dev/my-app".
Proof.
  split.
  - apply (proj1 decode_shortest_segment_first _ _ _ 2);
      [discriminate | simpl; lia | | reflexivity | reflexivity].
    intros j Hj. assert (j = 1) as -> by lia. right. reflexivity.
  - apply (proj2 (proj2 decode_shortest_segment_first)); reflexivity.
Defined.

Lemma replace_char_append (old : ascii) (new a b : string) :
  replace_char old new (a +:+ b) = replace_char old new a +:+ replace_char old new b.
Proof.
  induction a as [|c a IH]; [reflexivity|].
  change (String c a +:+ b) with (String c (a +:+ b)). simpl.
  rewrite IH. destruct (Ascii.eqb c old); [now rewrite append_assoc | reflexivity].
Qed.

Lemma replace_char_absent (old : ascii) (new s : string) :
  occurs old s = false -> replace_char old new s = s.
Proof.
  induction s as [|c s IH]; [reflexivity|]. simpl. intros H.
  apply orb_false_iff in H as [Hc Hs].
  rewrite Ascii.eqb_sym, Hc. now rewrite IH.
Qed.

Lemma replace_char_join (segments : list string) :
  Forall (fun segment => occurs "-" segment = false) segments ->
  replace_char "-" "/" (join "-" segments) = join "/" segments.
Proof.
  induction 1 as [|segment segments Hs Hrest IH]; [reflexivity|].
  destruct segments as [|next segments].
  - simpl. now apply replace_char_absent.
  - change (join "-" (segment :: next :: segments))
      with (segment +:+ "-" +:+ join "-" (next :: segments)).
    change (join "/" (segment :: next :: segments))
      with (segment +:+ "/" +:+ join "/" (next :: segments)).
    rewrite !replace_char_append, IH, (replace_char_absent _ _ _ Hs). reflexivity.
Qed.

(** PathCodec round trip (common case).  A path none of whose segments
    holds the separator, encoded by joining the segments with "-", decodes
    to itself whenever the directory exists: the all-slashes reading is
    tried first. *)
Theorem decode_round_trip :
  forall (isdir : string -> bool) (segments : list string),
    Forall (fun segment => occurs "-" segment = false) segments ->
    isdir ("/" +:+ join "/" segments) = true ->
    _resolve_folder_name_to_path isdir (join "-" segments)
    = Some ("/" +:+ join "/" segments).
Proof.
  intros isdir segments Hseg Hdir. unfold _resolve_folder_name_to_path.
  cbv zeta. rewrite (replace_char_join _ Hseg), Hdir. reflexivity.
Qed.

Lemma decode_round_trip_witness :
  _resolve_folder_name_to_path
    (tree ["/Users/jane/dev/app"]) "Users-jane-dev-app"
  = Some "/Users/jane/dev/app".
Proof.
  apply (decode_round_trip (tree ["/Users/jane/dev/app"]) ["Users"; "jane"; "dev"; "app"]).
  - repeat constructor.
  - reflexivity.
Defined.

End BackfillFacts.

(** ** summarize.py: the screens and the prompt *)

Module SummarizeFacts.
Import PyStr PyStrFacts Json Summarize.

Lemma actionable_iff (summary : string) :
  is_summary_actionable (Some summary) = true <->
  summary <> "" /\
  10 <= word_count summary /\
  50 <= count_alpha summary /\
  (forall phrase, In phrase reject_phrases ->
                  contains phrase (lower summary) = false).
Proof.
  unfold is_summary_actionable.
  destruct (String.eqb summary "") eqn:E.
  - apply String.eqb_eq in E. split; [discriminate | intros [H _]; contradiction].
  - apply String.eqb_neq in E.
    destruct (word_count summary <? 10)%nat eqn:W.
    + apply Nat.ltb_lt in W. split; [discriminate | intros (_ & H & _); lia].
    + apply Nat.ltb_ge in W.
      destruct (count_alpha summary <? 50)%nat eqn:A.
      * apply Nat.ltb_lt in A. split; [discriminate | intros (_ & _ & H & _); lia].
      * apply Nat.ltb_ge in A. cbv zeta.
        rewrite negb_true_iff, existsb_false_iff. tauto.
Qed.

Lemma word_count_positive_nonempty (s : string) : 0 < word_count s -> s <> "".
Proof. intros H ->. vm_compute in H. lia. Qed.

(** C7.  The screen accepts a summary exactly when it is non-empty, has
    at least 10 words and at least 50 alphabetic characters, and its
    lower-cased text contains none of the rejection phrases; a missing
    summary is rejected; "No actionable content" is rejected; every text of
    12 words and 80 alphabetic characters free of the rejection phrases is
    accepted, and [twelve_words] is such a text. *)
Theorem actionability_screen :
  (forall summary : string,
      is_summary_actionable (Some summary) = true <->
      summary <> "" /\
      10 <= word_count summary /\
      50 <= count_alpha summary /\
      (forall phrase, In phrase reject_phrases ->
                      contains phrase (lower summary) = false)) /\
  is_summary_actionable None = false /\
  is_summary_actionable (Some "No actionable content") = false /\
  (forall text : string,
      word_count text = 12 -> count_alpha text = 80 ->
      (forall phrase, In phrase reject_phrases ->
                      contains phrase (lower text) = false) ->
      is_summary_actionable (Some text) = true) /\
  (word_count twelve_words = 12 /\ count_alpha twelve_words = 80 /\
   is_summary_actionable (Some twelve_words) = true).
Proof.
  split; [exact actionable_iff|].
  split; [reflexivity|].
  split; [reflexivity|].
  split; [|repeat split; reflexivity].
  intros text Hw Ha Hp. apply actionable_iff.
  split; [apply word_count_positive_nonempty; lia|].
  split; [lia|]. split; [lia | exact Hp].
Qed.

Lemma meta_chat_of_indicator (indicator content : string) :
  In indicator meta_indicators ->
  contains indicator content = true ->
  is_curlens_meta_chat content = true.
Proof.
  unfold is_curlens_meta_chat. intros Hin Hc.
  apply existsb_exists. exists indicator.
  split; [exact Hin | now apply contains_lower].
Qed.

Lemma prompt_opens_with_indicator (messages : list message) (max_words : Z)
      (existing_summary : option string) :
  exists indicator rest,
    In indicator meta_indicators /\
    build_summary_prompt messages max_words existing_summary = indicator +:+ rest.
Proof.
  unfold build_summary_prompt. cbv zeta.
  set (messages_json := dumps_indent 0 _).
  destruct (nonempty existing_summary).
  - exists "Update this chat summary with new messages". eexists.
    split; [simpl; tauto|]. simpl. reflexivity.
  - exists "Summarize this coding chat in". eexists.
    split; [simpl; tauto|]. simpl. reflexivity.
Qed.

Lemma prompt_is_meta_chat (messages : list message) (max_words : Z)
      (existing_summary : option string) :
  is_curlens_meta_chat
    (build_summary_prompt messages max_words existing_summary) = true.
Proof.
  destruct (prompt_opens_with_indicator messages max_words existing_summary)
    as (indicator & rest & Hin & ->).
  apply (meta_chat_of_indicator indicator); [exact Hin | apply contains_prefix].
Qed.

Lemma meta_chat_within (inner content : string) :
  is_curlens_meta_chat inner = true ->
  contains inner content = true ->
  is_curlens_meta_chat content = true.
Proof.
  unfold is_curlens_meta_chat. intros Hi Hc.
  apply existsb_exists in Hi as (indicator & Hin & Hl).
  apply existsb_exists. exists indicator. split; [exact Hin|].
  apply (contains_within _ (lower inner)); [exact Hl | now apply contains_lower].
Qed.

(** C10.  Both shapes of the prompt are recognised as curlens meta-chats,
    and so a message list whose concatenated content contains such a prompt
    is never meaningful. *)
Theorem prompt_closes_the_loop :
  forall (messages : list message) (max_words : Z)
         (existing_summary : option string),
    is_curlens_meta_chat
      (build_summary_prompt messages max_words existing_summary) = true /\
    (forall chat : list message,
        contains (build_summary_prompt messages max_words existing_summary)
                 (total_content chat) = true ->
        has_meaningful_messages chat = false).
Proof.
  intros messages max_words existing_summary.
  split; [apply prompt_is_meta_chat|].
  intros chat Hc. unfold has_meaningful_messages.
  destruct chat as [|m chat]; [reflexivity|]. cbv zeta.
  rewrite (meta_chat_within _ _ (prompt_is_meta_chat _ _ _) Hc). reflexivity.
Qed.

Lemma prompt_closes_the_loop_witness :
  has_meaningful_messages
    [Message (JStr "assistant") "Working on it.";
     Message (JStr "user")
       (build_summary_prompt [Message (JStr "user") "Fix the login bug in auth.py"]
                             70 None)]
  = false /\
  has_meaningful_messages
    [Message (JStr "user")
       (build_summary_prompt [Message (JStr "user") "Fix the login bug in auth.py"]
                             70 (Some "Fixed a login bug."))]
  = false.
Proof.
  split.
  - apply (proj2 (prompt_closes_the_loop
                    [Message (JStr "user") "Fix the login bug in auth.py"] 70 None)).
    vm_compute. reflexivity.
  - apply (proj2 (prompt_closes_the_loop
                    [Message (JStr "user") "Fix the login bug in auth.py"] 70
                    (Some "Fixed a login bug."))).
    vm_compute. reflexivity.
Defined.

(** *** The word limit *)

Lemma truncated_word_count (text : string) (max_words : Z) :
  (1 <= max_words)%Z ->
  (max_words < Z.of_nat (word_count text))%Z ->
  truncate_to_words text max_words
  = join " " (firstn (Z.to_nat max_words) (split_ws text)) +:+ "..." /\
  Z.of_nat (word_count (truncate_to_words text max_words)) = max_words.
Proof.
  intros Hpos Hmore. unfold truncate_to_words, word_count in *. cbv zeta.
  replace (Z.of_nat (length (split_ws text)) <=? max_words)%Z with false
    by (symmetry; apply Z.leb_gt; exact Hmore).
  unfold slice_to.
  replace (0 <=? max_words)%Z with true by (symmetry; apply Z.leb_le; lia).
  split; [reflexivity|].
  unfold split_ws at 1. rewrite words_from_join.
  - rewrite length_firstn. lia.
  - apply Forall_firstn, split_ws_words.
  - intros E. apply (f_equal (@length string)) in E.
    rewrite length_firstn in E. simpl in E. lia.
  - reflexivity.
Qed.

Lemma generate_summary_result (agent : string -> string -> option string)
      (m : message) (ms : list message) (model : string) (max_words : Z)
      (existing_summary : option string) (w : world) :
  fst (generate_summary agent (m :: ms) model max_words existing_summary w)
  = match agent (build_summary_prompt (m :: ms) max_words existing_summary) model with
    | Some text =>
        if negb (String.eqb text "") && (max_words <? Z.of_nat (word_count text))%Z
        then Some (truncate_to_words text max_words)
        else Some text
    | None => None
    end.
Proof.
  unfold generate_summary, run_agent.
  destruct (agent _ model) as [text|]; simpl; [|reflexivity].
  now destruct (negb _ && _).
Qed.

(** C8, for a limit of at least one word.  A reply longer than the limit
    comes back as its first [max_words] words joined by single spaces with
    "..." appended, which counts [max_words] words; a reply within the limit
    comes back unchanged; so no summary returned has more than [max_words]
    words. *)
Theorem generate_summary_word_limit :
  forall (agent : string -> string -> option string) (messages : list message)
         (model : string) (max_words : Z) (existing_summary : option string)
         (w : world),
    (1 <= max_words)%Z ->
    let prompt := build_summary_prompt messages max_words existing_summary in
    let result :=
      fst (generate_summary agent messages model max_words existing_summary w) in
    (forall summary, result = Some summary ->
                     (Z.of_nat (word_count summary) <= max_words)%Z) /\
    (forall text,
        messages <> [] ->
        agent prompt model = Some text ->
        ((max_words < Z.of_nat (word_count text))%Z ->
         result = Some (join " " (firstn (Z.to_nat max_words) (split_ws text)) +:+ "...")
         /\
         Z.of_nat (word_count
                     (join " " (firstn (Z.to_nat max_words) (split_ws text)) +:+ "..."))
         = max_words) /\
        ((Z.of_nat (word_count text) <= max_words)%Z -> result = Some text)).
Proof.
  intros agent messages model max_words existing_summary w Hpos prompt result.
  destruct messages as [|m ms].
  { split; [intros summary; discriminate | intros text H; congruence]. }
  subst prompt result. rewrite generate_summary_result.
  destruct (agent _ model) as [reply|].
  2:{ split; [intros summary; discriminate | intros text _; discriminate]. }
  assert (Hcases :
            (max_words < Z.of_nat (word_count reply))%Z /\
            negb (String.eqb reply "") && (max_words <? Z.of_nat (word_count reply))%Z = true
            \/
            (Z.of_nat (word_count reply) <= max_words)%Z /\
            negb (String.eqb reply "") && (max_words <? Z.of_nat (word_count reply))%Z = false).
  { destruct (max_words <? Z.of_nat (word_count reply))%Z eqn:E.
    - apply Z.ltb_lt in E. left. split; [exact E|].
      rewrite andb_true_r. apply negb_true_iff, String.eqb_neq.
      intros ->. change (word_count "") with 0 in E. lia.
    - apply Z.ltb_ge in E. right. split; [exact E | apply andb_false_r]. }
  destruct Hcases as [[Hmore ->] | [Hle ->]].
  - destruct (truncated_word_count reply max_words Hpos Hmore) as [Heq Hcount].
    split.
    + intros summary [= <-]. lia.
    + intros text _ [= <-]. split; [|lia].
      intros _. rewrite <- Heq. auto.
  - split.
    + intros summary [= <-]. exact Hle.
    + intros text _ [= <-]. split; [lia | reflexivity].
Qed.

Lemma generate_summary_word_limit_witness :
  fst (generate_summary
         (canned (Some "Fixed a login bug in auth.py by correcting the hashing"))
         [Message (JStr "user") "Fix the login bug in auth.py"] "grok" 4 None
         (World ∅ []))
  = Some "Fixed a login bug..."
  /\
  fst (generate_summary
         (canned (Some "Fixed a login bug"))
         [Message (JStr "user") "Fix the login bug in auth.py"] "grok" 4 None
         (World ∅ []))
  = Some "Fixed a login bug".
Proof.
  split.
  - destruct (generate_summary_word_limit
                (canned (Some "Fixed a login bug in auth.py by correcting the hashing"))
                [Message (JStr "user") "Fix the login bug in auth.py"] "grok" 4 None
                (World ∅ []) ltac:(lia)) as [_ H].
    destruct (H "Fixed a login bug in auth.py by correcting the hashing"
                ltac:(discriminate) eq_refl) as [Hmore _].
    destruct (Hmore ltac:(vm_compute; reflexivity)) as [Hres _]. exact Hres.
  - destruct (generate_summary_word_limit
                (canned (Some "Fixed a login bug"))
                [Message (JStr "user") "Fix the login bug in auth.py"] "grok" 4 None
                (World ∅ []) ltac:(lia)) as [_ H].
    destruct (H "Fixed a login bug" ltac:(discriminate) eq_refl) as [_ Hle].
    exact (Hle ltac:(vm_compute; discriminate)).
Defined.

(** C8 as worded fails for a limit of zero: the ellipsis that replaces the
    reply is itself one word. *)
Lemma zero_limit_returns_one_word :
  fst (generate_summary (canned (Some "hello world"))
         [Message (JStr "user") "Fix the login bug in auth.py"] "grok" 0 None
         (World ∅ []))
  = Some "..." /\
  word_count "..." = 1 /\
  ~ (Z.of_nat (word_count "...") <= 0)%Z.
Proof. repeat split; try reflexivity. vm_compute. congruence. Qed.

(** *** The character budget *)

Lemma serialized_chars_cons (msg : message) (messages : list message) :
  serialized_chars (msg :: messages)
  = String.length (dumps (message_json msg)) + serialized_chars messages.
Proof. reflexivity. Qed.

Lemma serialized_chars_app (a b : list message) :
  serialized_chars (a ++ b) = serialized_chars a + serialized_chars b.
Proof.
  induction a as [|m a IH]; [reflexivity|].
  change ((m :: a) ++ b) with (m :: (a ++ b)).
  rewrite !serialized_chars_cons, IH. lia.
Qed.

Lemma trim_from_cons (total : nat) (msg : message) (messages : list message)
      (max_chars : nat) :
  _trim_json_messages_from total (msg :: messages) max_chars
  = if (max_chars <? total + String.length (dumps (message_json msg)))%nat then
      if negb (String.eqb (content msg) "")
         && (200 <? String.length (content msg))%nat
      then [Message (role msg) (take 200 (content msg) +:+ "... [trimmed]")]
      else []
    else msg :: _trim_json_messages_from
                  (total + String.length (dumps (message_json msg)))
                  messages max_chars.
Proof. reflexivity. Qed.

Lemma trim_from_fits (max_chars : nat) (messages : list message) :
  forall total,
    total + serialized_chars messages <= max_chars ->
    _trim_json_messages_from total messages max_chars = messages.
Proof.
  induction messages as [|msg messages IH]; intros total H; [reflexivity|].
  rewrite serialized_chars_cons in H. rewrite trim_from_cons.
  replace (max_chars <? _)%nat with false by (symmetry; apply Nat.ltb_ge; lia).
  f_equal. apply IH. lia.
Qed.

Lemma long_content_nonempty (s : string) :
  negb (String.eqb s "") && (200 <? String.length s)%nat
  = (200 <? String.length s)%nat.
Proof. destruct s; reflexivity. Qed.

Lemma trim_from_overflow (max_chars : nat) (kept : list message) (msg : message)
      (rest : list message) :
  forall total,
    total + serialized_chars kept <= max_chars ->
    max_chars < total + serialized_chars (kept ++ [msg]) ->
    _trim_json_messages_from total (kept ++ msg :: rest) max_chars
    = kept ++
      (if (200 <? String.length (content msg))%nat
       then [Message (role msg) (take 200 (content msg) +:+ "... [trimmed]")]
       else []).
Proof.
  induction kept as [|m kept IH]; intros total Hfit Hover.
  - change ([] ++ ?l) with l in *. rewrite trim_from_cons.
    rewrite serialized_chars_cons in Hover. change (serialized_chars []) with 0 in *.
    replace (max_chars <? _)%nat with true by (symmetry; apply Nat.ltb_lt; lia).
    now rewrite long_content_nonempty.
  - change ((m :: kept) ++ ?l) with (m :: (kept ++ l)) in *.
    rewrite serialized_chars_cons in Hfit, Hover. rewrite trim_from_cons.
    replace (max_chars <? _)%nat with false by (symmetry; apply Nat.ltb_ge; lia).
    f_equal. apply IH; lia.
Qed.

(** C9, as the code has it.  Messages are kept, whole and in order, as
    long as their serializations fit the budget.  The first one that does
    not fit ends the list: it is kept with its content cut to 200 characters
    and "... [trimmed]" appended when that content is longer than 200
    characters, and left out otherwise.  A list that fits is unchanged. *)
Theorem trim_keeps_prefix_and_shortens_long_overflow :
  forall (max_chars : nat) (kept : list message) (msg : message)
         (rest : list message),
    serialized_chars kept <= max_chars ->
    max_chars < serialized_chars (kept ++ [msg]) ->
    _trim_json_messages (kept ++ msg :: rest) max_chars
    = kept ++
      (if (200 <? String.length (content msg))%nat
       then [Message (role msg) (take 200 (content msg) +:+ "... [trimmed]")]
       else [])
    /\
    _trim_json_messages kept max_chars = kept.
Proof.
  intros max_chars kept msg rest Hfit Hover. unfold _trim_json_messages. split.
  - now apply trim_from_overflow.
  - now apply trim_from_fits.
Qed.

Lemma trim_keeps_prefix_and_shortens_long_overflow_witness :
  _trim_json_messages
    (long_chat ++ Message (JStr "assistant") (repeat_string "d" 300) :: [short_message])
    6000
  = long_chat ++
    [Message (JStr "assistant") (repeat_string "d" 200 +:+ "... [trimmed]")]
  /\
  _trim_json_messages long_chat 6000 = long_chat.
Proof.
  apply (trim_keeps_prefix_and_shortens_long_overflow
           6000 long_chat (Message (JStr "assistant") (repeat_string "d" 300))
           [short_message]).
  - apply Nat.leb_le. vm_compute. reflexivity.
  - apply Nat.ltb_lt. vm_compute. reflexivity.
Defined.

(** C9 as worded fails when the message that does not fit has a short
    content: it is dropped outright and no kept message is shortened. *)
Lemma short_overflow_is_dropped :
  6000 < serialized_chars (long_chat ++ [short_message]) /\
  _trim_json_messages (long_chat ++ [short_message]) 6000 = long_chat /\
  Forall (fun msg => contains "... [trimmed]" (content msg) = false)
         (_trim_json_messages (long_chat ++ [short_message]) 6000).
Proof.
  split; [apply Nat.ltb_lt; vm_compute; reflexivity|].
  split; [vm_compute; reflexivity|].
  apply List.Forall_forall. intros msg Hin.
  assert (existsb (fun msg => contains "... [trimmed]" (content msg))
                  (_trim_json_messages (long_chat ++ [short_message]) 6000) = false)
    as Hnone by (vm_compute; reflexivity).
  exact (proj1 (existsb_false_iff _ _) Hnone msg Hin).
Qed.

End SummarizeFacts.

(** ** hooks/session_end.py: the extractor *)

Module SessionEndFacts.
Import PyStr PyStrFacts Json Summarize SessionEnd.

Lemma extract_cons (blob_id : string) (blob_data : json)
      (blobs : list (string * json)) :
  _extract_messages ((blob_id, blob_data) :: blobs)
  = bind (_extract_messages_body blob_data)
         (fun emitted =>
            bind (_extract_messages blobs)
                 (fun messages =>
                    Ok (match emitted with
                        | Some msg => msg :: messages
                        | None => messages
                        end))).
Proof. reflexivity. Qed.

Lemma system_body (fields : list (string * json)) :
  dict_get fields "role" = Some (JStr "system") ->
  _extract_messages_body (JObj fields) = Ok None.
Proof.
  intros H. unfold _extract_messages_body. rewrite H. simpl.
  now destruct (truthy _).
Qed.

Lemma body_role_not_system (blob_data : json) (msg : message) :
  _extract_messages_body blob_data = Ok (Some msg) ->
  eq_str (role msg) "system" = false.
Proof.
  unfold _extract_messages_body.
  destruct blob_data as [| | | | |fields]; try discriminate.
  destruct (negb _ || negb _); [discriminate|].
  destruct (eq_str _ "system") eqn:Hsys; [discriminate|].
  destruct (_extract_text_content _) as [text|e]; simpl; [|discriminate].
  destruct (String.eqb text "" || _); [discriminate|].
  destruct (if eq_str _ "user" then _ else _) as [text'|]; [|discriminate].
  destruct (_is_mostly_metadata text'); [discriminate|].
  intros [= <-]. exact Hsys.
Qed.

Lemma extract_roles_not_system (blobs : list (string * json)) :
  forall messages,
    _extract_messages blobs = Ok messages ->
    Forall (fun msg => eq_str (role msg) "system" = false) messages.
Proof.
  induction blobs as [|[blob_id blob_data] blobs IH]; intros messages.
  - intros [= <-]. constructor.
  - rewrite extract_cons.
    destruct (_extract_messages_body blob_data) as [emitted|e] eqn:Hb; simpl;
      [|discriminate].
    destruct (_extract_messages blobs) as [rest|e]; simpl; [|discriminate].
    intros [= <-]. specialize (IH rest eq_refl).
    destruct emitted as [msg|]; [|exact IH].
    constructor; [now apply body_role_not_system in Hb | exact IH].
Qed.

(** C6.  A blob whose payload has role "system" contributes nothing:
    removing it from the input changes neither the messages nor whether the
    extraction raises; and no extracted message has role "system". *)
Theorem system_blobs_are_dropped :
  forall (before after : list (string * json)) (blob_id : string)
         (fields : list (string * json)),
    dict_get fields "role" = Some (JStr "system") ->
    _extract_messages (before ++ (blob_id, JObj fields) :: after)
    = _extract_messages (before ++ after)
    /\
    (forall messages,
        _extract_messages (before ++ (blob_id, JObj fields) :: after) = Ok messages ->
        Forall (fun msg => eq_str (role msg) "system" = false) messages).
Proof.
  intros before after blob_id fields Hrole.
  split; [|apply extract_roles_not_system].
  induction before as [|[id data] before IH].
  - change ([] ++ ?l) with l. rewrite extract_cons, (system_body _ Hrole).
    simpl. now destruct (_extract_messages after).
  - change ((?x :: ?l) ++ ?l') with (x :: l ++ l').
    now rewrite !extract_cons, IH.
Qed.

Lemma system_blobs_are_dropped_witness :
  _extract_messages
    [("a", JObj [("role", JStr "user");
                 ("content", JStr "<user_query>Fix the login bug in auth.py</user_query>")]);
     ("b", JObj [("role", JStr "system");
                 ("content", JStr "Please fix the login bug in auth.py as well")]);
     ("c", JObj [("role", JStr "assistant");
                 ("content", JStr "I corrected the password hashing mismatch.")])]
  = Ok [Message (JStr "user") "Fix the login bug in auth.py";
        Message (JStr "assistant") "I corrected the password hashing mismatch."].
Proof.
  etransitivity.
  - exact (proj1 (system_blobs_are_dropped
                    [("a", JObj [("role", JStr "user");
                                 ("content", JStr "<user_query>Fix the login bug in auth.py</user_query>")])]
                    [("c", JObj [("role", JStr "assistant");
                                 ("content", JStr "I corrected the password hashing mismatch.")])]
                    "b"
                    [("role", JStr "system");
                     ("content", JStr "Please fix the login bug in auth.py as well")]
                    eq_refl)).
  - vm_compute. reflexivity.
Defined.

(** *** The [<user_query>] pattern *)

Lemma match_lazy_group_unfold (s : string) :
  match_lazy_group s
  = if startswith user_query_close (lstrip s) then Some ""
    else match s with
         | EmptyString => None
         | String c s' => option_map (String c) (match_lazy_group s')
         end.
Proof. destruct s; reflexivity. Qed.

Lemma search_user_query_unfold (text : string) :
  search_user_query text
  = match (if startswith user_query_open text
           then match_lazy_group
                  (lstrip (drop (String.length user_query_open) text))
           else None) with
    | Some group => Some group
    | None =>
        match text with
        | EmptyString => None
        | String _ text' => search_user_query text'
        end
    end.
Proof. destruct text; reflexivity. Qed.

Lemma drop_append (a b : string) : drop (String.length a) (a +:+ b) = b.
Proof. induction a as [|x a IH]; simpl; [now destruct b | exact IH]. Qed.

Lemma close_after_ws (ws t : string) :
  all_whitespace ws = true ->
  find user_query_close (ws +:+ user_query_close +:+ t) = Some (String.length ws).
Proof. intros H. now apply (find_after_ws "<" "/user_query>"). Qed.

Lemma lstrip_before_close (inner post : string) :
  lstrip (inner +:+ user_query_close +:+ post)
  = lstrip inner +:+ user_query_close +:+ post.
Proof.
  induction inner as [|c inner IH]; [reflexivity|].
  simpl. destruct (isspace c); [exact IH | reflexivity].
Qed.

(** The lazy group ends where the whitespace before the first closing tag
    begins. *)
Lemma match_lazy_group_first_close (inner post : string) :
  find user_query_close (inner +:+ user_query_close +:+ post)
  = Some (String.length inner) ->
  match_lazy_group (inner +:+ user_query_close +:+ post) = Some (rstrip inner).
Proof.
  induction inner as [|c inner IH]; intros Hfind.
  - rewrite match_lazy_group_unfold, lstrip_before_close.
    change (lstrip "" +:+ ?t) with t. now rewrite startswith_append.
  - rewrite match_lazy_group_unfold.
    destruct (startswith user_query_close _) eqn:E.
    + apply startswith_iff in E as [t Ht].
      destruct (lstrip_decomp (String c inner +:+ user_query_close +:+ post))
        as (ws & Hws & Hcut).
      rewrite Ht in Hcut. pose proof (close_after_ws ws t Hws) as Hf.
      rewrite <- Hcut, Hfind in Hf. injection Hf as Hlen.
      apply append_inj_length in Hcut as [-> _]; [|exact Hlen].
      now rewrite rstrip_all_ws.
    + change (String c inner +:+ user_query_close +:+ post)
        with (String c (inner +:+ user_query_close +:+ post)) in *.
      rewrite find_cons in Hfind.
      destruct (startswith user_query_close (String c _)); [discriminate|].
      destruct (find user_query_close _) as [j|] eqn:Hj; [|discriminate].
      injection Hfind as ->. rewrite (IH eq_refl). simpl option_map.
      rewrite rstrip_cons.
      destruct (all_whitespace (String c inner)) eqn:Hall; [|reflexivity].
      change (String c (inner +:+ user_query_close +:+ post))
        with (String c inner +:+ user_query_close +:+ post) in E.
      rewrite lstrip_app_ws in E by exact Hall.
      change (lstrip (user_query_close +:+ post)) with (user_query_close +:+ post) in E.
      now rewrite startswith_append in E.
Qed.

Lemma find_skip_ws (c : ascii) (sub ws s : string) (j : nat) :
  isspace c = false -> all_whitespace ws = true ->
  find (String c sub) (ws +:+ s) = Some (String.length ws + j) ->
  find (String c sub) s = Some j.
Proof.
  intros Hc. induction ws as [|x ws IH]; intros Hws; [now simpl|].
  simpl in Hws. apply andb_true_iff in Hws as [Hx Hws].
  change (String x ws +:+ s) with (String x (ws +:+ s)).
  rewrite find_cons, startswith_head_ne by congruence.
  destruct (find (String c sub) (ws +:+ s)) as [k|] eqn:Hk; [|discriminate].
  simpl. intros [= ->]. now apply IH.
Qed.

(** The search finds the leftmost opening tag and returns what lies
    between it and the first closing tag behind it, stripped. *)
Lemma search_user_query_span (pre inner post : string) :
  find user_query_open
       (pre +:+ user_query_open +:+ inner +:+ user_query_close +:+ post)
  = Some (String.length pre) ->
  find user_query_close (inner +:+ user_query_close +:+ post)
  = Some (String.length inner) ->
  search_user_query
    (pre +:+ user_query_open +:+ inner +:+ user_query_close +:+ post)
  = Some (strip inner).
Proof.
  intros Hopen Hclose.
  induction pre as [|x pre IH].
  - rewrite search_user_query_unfold.
    change ("" +:+ ?t) with t. rewrite startswith_append, drop_append.
    rewrite lstrip_before_close, match_lazy_group_first_close; [reflexivity|].
    destruct (lstrip_decomp inner) as (ws & Hws & Hcut).
    rewrite Hcut, append_assoc, length_append in Hclose.
    now apply (find_skip_ws "<" "/user_query>") in Hclose.
  - rewrite search_user_query_unfold.
    change (String x pre +:+ ?t) with (String x (pre +:+ t)) in *.
    rewrite find_cons in Hopen.
    destruct (startswith user_query_open (String x _)); [discriminate|].
    destruct (find user_query_open _) as [j|]; [|discriminate].
    injection Hopen as ->. now apply IH.
Qed.

Lemma match_lazy_group_sound (s group : string) :
  match_lazy_group s = Some group ->
  exists inner after, s = inner +:+ user_query_close +:+ after.
Proof.
  revert group. induction s as [|c s IH]; intros group;
    rewrite match_lazy_group_unfold.
  - destruct (startswith _ _) eqn:E; [|discriminate]. intros _.
    apply startswith_iff in E as [t Ht]. discriminate.
  - destruct (startswith _ _) eqn:E.
    + intros _. apply startswith_iff in E as [t Ht].
      destruct (lstrip_decomp (String c s)) as (ws & _ & Hcut).
      rewrite Ht in Hcut. eauto.
    + destruct (match_lazy_group s) as [g|]; [|discriminate]. intros _.
      destruct (IH g eq_refl) as (inner & after & ->).
      now exists (String c inner), after.
Qed.

Lemma match_lazy_group_complete (inner after : string) :
  match_lazy_group (inner +:+ user_query_close +:+ after) <> None.
Proof.
  induction inner as [|c inner IH]; rewrite match_lazy_group_unfold.
  - change (lstrip _) with (user_query_close +:+ after).
    rewrite startswith_append. congruence.
  - destruct (startswith _ _); [discriminate|].
    change (String c inner +:+ ?t) with (String c (inner +:+ t)).
    cbv iota. destruct (match_lazy_group (inner +:+ _)); simpl; congruence.
Qed.

Lemma search_user_query_None_iff (text : string) :
  search_user_query text = None <-> ~ has_user_query_span text.
Proof.
  split.
  - intros Hnone (before & inner & after & ->).
    induction before as [|x before IH]; rewrite search_user_query_unfold in Hnone.
    + change ("" +:+ ?t) with t in Hnone.
      rewrite startswith_append, drop_append, lstrip_before_close in Hnone.
      pose proof (match_lazy_group_complete (lstrip inner) after) as Hc.
      now destruct (match_lazy_group _).
    + change (String x before +:+ ?t) with (String x (before +:+ t)) in Hnone.
      destruct (if startswith _ _ then _ else _); [discriminate | auto].
  - intros Hno. destruct (search_user_query text) as [group|] eqn:Hs; [|reflexivity].
    exfalso. apply Hno. clear Hno. revert Hs.
    induction text as [|x text IH]; rewrite search_user_query_unfold.
    + destruct (startswith _ _) eqn:E; [|discriminate].
      apply startswith_iff in E as [t Ht]. discriminate.
    + destruct (startswith user_query_open (String x text)) eqn:E.
      * apply startswith_iff in E as [t Ht]. rewrite Ht, drop_append.
        destruct (match_lazy_group (lstrip t)) as [g|] eqn:Hg.
        -- intros _. apply match_lazy_group_sound in Hg as (inner & after & Hl).
           destruct (lstrip_decomp t) as (ws & _ & Hcut). rewrite Hl in Hcut.
           exists "", (ws +:+ inner), after. rewrite Hcut at 1.
           now rewrite !append_assoc.
        -- rewrite <- Ht. intros H. destruct (IH H) as (b & i & a & ->).
           now exists (String x b), i, a.
      * intros H. destruct (IH H) as (b & i & a & ->).
        now exists (String x b), i, a.
Qed.

(** *** The user branch *)

Lemma user_query_filter_stripped (text r : string) :
  _extract_user_query text = strip r ->
  user_query_filter text
  = if (String.length (strip r) <? 10)%nat then None else Some (strip r).
Proof.
  intros H. unfold user_query_filter. cbv zeta. rewrite H, strip_idempotent.
  destruct (String.eqb (strip r) "") eqn:E; [|reflexivity].
  apply String.eqb_eq in E. now rewrite E.
Qed.

Lemma extract_user_query_span (pre inner post : string) :
  find user_query_open
       (pre +:+ user_query_open +:+ inner +:+ user_query_close +:+ post)
  = Some (String.length pre) ->
  find user_query_close (inner +:+ user_query_close +:+ post)
  = Some (String.length inner) ->
  _extract_user_query
    (pre +:+ user_query_open +:+ inner +:+ user_query_close +:+ post)
  = strip inner.
Proof.
  intros Ho Hc. unfold _extract_user_query.
  rewrite (search_user_query_span _ _ _ Ho Hc). apply strip_idempotent.
Qed.

Lemma extract_user_query_metadata (text tag : string) :
  ~ has_user_query_span text ->
  In tag metadata_tags ->
  startswith tag (strip text) = true ->
  _extract_user_query text = "".
Proof.
  intros Hno Hin Hst. apply search_user_query_None_iff in Hno.
  unfold _extract_user_query. rewrite Hno.
  replace (existsb _ metadata_tags) with true; [reflexivity|].
  symmetry. apply existsb_exists. eauto.
Qed.

Lemma extract_user_query_reminder (text pre rem : string) :
  ~ has_user_query_span text ->
  (forall tag, In tag metadata_tags -> startswith tag (strip text) = false) ->
  contains "<system_reminder>" text = true ->
  text = pre +:+ "</system_reminder>" +:+ rem ->
  contains "</system_reminder>" rem = false ->
  _extract_user_query text = strip rem.
Proof.
  intros Hno Hmeta Hopen Hcut Hrem. apply search_user_query_None_iff in Hno.
  unfold _extract_user_query. rewrite Hno.
  replace (existsb _ metadata_tags) with false
    by (symmetry; apply existsb_false_iff; exact Hmeta).
  rewrite Hopen. cbv zeta. rewrite Hcut.
  destruct (split_last "<" "/system_reminder>" eq_refl pre rem Hrem) as [Hlast Hlen].
  rewrite Hlast. apply Nat.ltb_lt in Hlen. rewrite Hlen.
  now destruct (String.eqb (strip rem) "") eqn:E; [apply String.eqb_eq in E|].
Qed.

Lemma extract_user_query_unchanged (text : string) :
  ~ has_user_query_span text ->
  (forall tag, In tag metadata_tags -> startswith tag (strip text) = false) ->
  contains "<system_reminder>" text = false \/
  contains "</system_reminder>" text = false ->
  _extract_user_query text = text.
Proof.
  intros Hno Hmeta Hmissing. apply search_user_query_None_iff in Hno.
  unfold _extract_user_query. rewrite Hno.
  replace (existsb _ metadata_tags) with false
    by (symmetry; apply existsb_false_iff; exact Hmeta).
  destruct (contains "<system_reminder>" text) eqn:Hopen; [|reflexivity].
  destruct Hmissing as [Habsent | Hclose]; [discriminate|].
  apply contains_false_iff in Hclose. cbv zeta. unfold split.
  rewrite (split_rounds_none _ _ _ Hclose). reflexivity.
Qed.

Lemma user_query_filter_unchanged (text : string) :
  _extract_user_query text = text ->
  user_query_filter text
  = if (String.length (strip text) <? 10)%nat then None else Some text.
Proof.
  intros H. unfold user_query_filter. cbv zeta. rewrite H.
  destruct (String.eqb text "") eqn:E; [|reflexivity].
  apply String.eqb_eq in E. now rewrite E.
Qed.

Lemma text_content_truthy (content : json) (text : string) :
  _extract_text_content content = Ok text -> text <> "" -> truthy content = true.
Proof.
  destruct content as [| b | n | s | items | fields]; simpl;
    try (intros [= <-]; congruence).
  - intros [= <-] Hne. apply String.eqb_neq in Hne. now rewrite Hne.
  - destruct items; [|reflexivity]. simpl. intros [= <-]. congruence.
Qed.

Lemma user_body (fields : list (string * json)) (content : json) (text : string) :
  dict_get fields "role" = Some (JStr "user") ->
  dict_get fields "content" = Some content ->
  _extract_text_content content = Ok text ->
  10 <= String.length (strip text) ->
  _extract_messages_body (JObj fields)
  = Ok (match user_query_filter text with
        | None => None
        | Some query =>
            if _is_mostly_metadata query then None
            else Some (Message (JStr "user") (take 2000 query))
        end).
Proof.
  intros Hr Hc Htext Hlen. unfold _extract_messages_body. rewrite Hr, Hc.
  assert (text <> "") as Hne by (intros ->; vm_compute in Hlen; lia).
  simpl default. rewrite (text_content_truthy content text Htext Hne), Htext.
  apply String.eqb_neq in Hne. simpl. rewrite Hne. simpl.
  replace (String.length (strip text) <? 10)%nat with false
    by (symmetry; apply Nat.ltb_ge; exact Hlen).
  destruct (user_query_filter text) as [query|]; [|reflexivity].
  now destruct (_is_mostly_metadata query).
Qed.

(** C5, as the code has it.  For a user message that passed the primary
    filters the text handed on is: the stripped inside of the leftmost
    [<user_query>] span when there is one; nothing when there is none and
    the stripped text begins with a metadata tag; when the text holds
    the opening [<system_reminder>] tag as well as a closing one, what
    follows the last closing tag, stripped; and the text itself, unchanged,
    when it lacks the opening [<system_reminder>] tag or the closing one.
    Each is dropped when what is left after stripping is shorter than 10
    characters.  The last conjunct places this step in the loop body,
    whether the content is a string or a list of parts: the boilerplate
    filter and the cut to 2000 characters follow. *)
Theorem user_query_extraction :
  (forall pre inner post : string,
      find user_query_open
           (pre +:+ user_query_open +:+ inner +:+ user_query_close +:+ post)
      = Some (String.length pre) ->
      find user_query_close (inner +:+ user_query_close +:+ post)
      = Some (String.length inner) ->
      let text := pre +:+ user_query_open +:+ inner +:+ user_query_close +:+ post in
      _extract_user_query text = strip inner /\
      user_query_filter text
      = if (String.length (strip inner) <? 10)%nat then None else Some (strip inner))
  /\
  (forall text tag : string,
      ~ has_user_query_span text ->
      In tag metadata_tags ->
      startswith tag (strip text) = true ->
      _extract_user_query text = "" /\ user_query_filter text = None)
  /\
  (forall text pre rem : string,
      ~ has_user_query_span text ->
      (forall tag, In tag metadata_tags -> startswith tag (strip text) = false) ->
      contains "<system_reminder>" text = true ->
      text = pre +:+ "</system_reminder>" +:+ rem ->
      contains "</system_reminder>" rem = false ->
      _extract_user_query text = strip rem /\
      user_query_filter text
      = if (String.length (strip rem) <? 10)%nat then None else Some (strip rem))
  /\
  (forall text : string,
      ~ has_user_query_span text ->
      (forall tag, In tag metadata_tags -> startswith tag (strip text) = false) ->
      contains "<system_reminder>" text = false \/
      contains "</system_reminder>" text = false ->
      _extract_user_query text = text /\
      user_query_filter text
      = if (String.length (strip text) <? 10)%nat then None else Some text)
  /\
  (forall (fields : list (string * json)) (content : json) (text : string),
      dict_get fields "role" = Some (JStr "user") ->
      dict_get fields "content" = Some content ->
      _extract_text_content content = Ok text ->
      10 <= String.length (strip text) ->
      _extract_messages_body (JObj fields)
      = Ok (match user_query_filter text with
            | None => None
            | Some query =>
                if _is_mostly_metadata query then None
                else Some (Message (JStr "user") (take 2000 query))
            end)).
Proof.
  split; [|split; [|split; [|split]]].
  - intros pre inner post Ho Hc text.
    pose proof (extract_user_query_span pre inner post Ho Hc) as H.
    split; [exact H | now apply user_query_filter_stripped].
  - intros text tag Hno Hin Hst.
    pose proof (extract_user_query_metadata text tag Hno Hin Hst) as H.
    split; [exact H|]. unfold user_query_filter. now rewrite H.
  - intros text pre rem Hno Hmeta Hopen Hcut Hrem.
    pose proof (extract_user_query_reminder text pre rem Hno Hmeta Hopen Hcut Hrem) as H.
    split; [exact H | now apply user_query_filter_stripped].
  - intros text Hno Hmeta Hmissing.
    pose proof (extract_user_query_unchanged text Hno Hmeta Hmissing) as H.
    split; [exact H | now apply user_query_filter_unchanged].
  - exact user_body.
Qed.

Lemma user_query_extraction_witness :
  (_extract_user_query
     "<user_info>mac</user_info><user_query> Fix the login bug in auth.py </user_query>"
   = "Fix the login bug in auth.py" /\
   user_query_filter
     "<user_info>mac</user_info><user_query> Fix the login bug in auth.py </user_query>"
   = Some "Fix the login bug in auth.py")
  /\
  user_query_filter "<user_info>OS: macOS, shell: zsh</user_info>" = None
  /\
  user_query_filter
    "Earlier context <system_reminder>be brief</system_reminder> Fix the login bug"
  = Some "Fix the login bug"
  /\
  user_query_filter "</system_reminder> Fix the login bug in auth.py"
  = Some "</system_reminder> Fix the login bug in auth.py"
  /\
  _extract_messages_body
    (JObj [("role", JStr "user");
           ("content",
            JArr [JObj [("type", JStr "text");
                        ("text", JStr "<user_query>Fix the login bug")];
                  JObj [("type", JStr "text");
                        ("text", JStr "in auth.py</user_query>")]])])
  = Ok (Some (Message (JStr "user") "Fix the login bug in auth.py")).
Proof.
  destruct user_query_extraction as (Hspan & Hmeta & Hrem & Hsame & Hbody).
  split; [|split; [|split; [|split]]].
  - exact (Hspan "<user_info>mac</user_info>" " Fix the login bug in auth.py " ""
                 eq_refl eq_refl).
  - apply (Hmeta "<user_info>OS: macOS, shell: zsh</user_info>" "<user_info>").
    + apply search_user_query_None_iff. reflexivity.
    + simpl. tauto.
    + reflexivity.
  - apply (Hrem "Earlier context <system_reminder>be brief</system_reminder> Fix the login bug"
                "Earlier context <system_reminder>be brief" " Fix the login bug").
    + apply search_user_query_None_iff. reflexivity.
    + intros tag Hin. simpl in Hin.
      destruct Hin as [<- | [<- | [<- | [<- | []]]]]; reflexivity.
    + reflexivity.
    + reflexivity.
    + reflexivity.
  - apply (Hsame "</system_reminder> Fix the login bug in auth.py").
    + apply search_user_query_None_iff. reflexivity.
    + intros tag Hin. simpl in Hin.
      destruct Hin as [<- | [<- | [<- | [<- | []]]]]; reflexivity.
    + left. reflexivity.
  - rewrite (Hbody [("role", JStr "user");
                    ("content",
                     JArr [JObj [("type", JStr "text");
                                 ("text", JStr "<user_query>Fix the login bug")];
                           JObj [("type", JStr "text");
                                 ("text", JStr "in auth.py</user_query>")]])]
                   (JArr [JObj [("type", JStr "text");
                                ("text", JStr "<user_query>Fix the login bug")];
                          JObj [("type", JStr "text");
                                ("text", JStr "in auth.py</user_query>")]])
                   "<user_query>Fix the login bug in auth.py</user_query>"
                   eq_refl eq_refl eq_refl).
    + vm_compute. reflexivity.
    + apply Nat.leb_le. vm_compute. reflexivity.
Defined.

(** C5 as worded fails on a text that holds a closing [</system_reminder>]
    tag without the opening one: nothing is stripped, the text is kept
    whole, where the claim would keep only what follows the tag. *)
Lemma closing_tag_alone_strips_nothing :
  contains "</system_reminder>" stray_closing_tag = true /\
  search_user_query stray_closing_tag = None /\
  existsb (fun tag => startswith tag (strip stray_closing_tag)) metadata_tags = false /\
  _extract_user_query stray_closing_tag = stray_closing_tag /\
  user_query_filter stray_closing_tag = Some stray_closing_tag /\
  stray_closing_tag = "Please fix </system_reminder>" +:+ " the login bug" /\
  _extract_user_query stray_closing_tag <> strip " the login bug".
Proof. repeat split; try reflexivity. vm_compute. discriminate. Qed.

End SessionEndFacts.

(** ** hooks/session_end.py: the incremental updater *)

Module HookFacts.
Import PyStr PyStrFacts Json Summarize SessionEnd.

Lemma generate_summary_world (agent : string -> string -> option string)
      (m : message) (ms : list message) (model : string) (max_words : Z)
      (existing_summary : option string) (w : world) :
  snd (generate_summary agent (m :: ms) model max_words existing_summary w)
  = World (summaries w)
          (agent_calls w
             ++ [(build_summary_prompt (m :: ms) max_words existing_summary, model)]).
Proof.
  unfold generate_summary, run_agent.
  destruct (agent _ model) as [text|]; simpl; [|reflexivity].
  now destruct (negb _ && _).
Qed.

Lemma new_blob_ids_delta (covered : list string) (blobs : list (string * json)) :
  List.filter
    (fun b => bool_decide
                (fst b ∈ (list_to_set (List.map fst blobs) ∖ list_to_set covered
                          : gset string)))
    blobs
  = delta_blobs covered blobs.
Proof.
  unfold delta_blobs. apply filter_ext_in. intros b Hb.
  apply (in_map fst) in Hb. apply list_elem_of_In in Hb.
  destruct (decide (fst b ∈ covered)) as [Hc | Hc].
  - rewrite (bool_decide_eq_true_2 _ Hc). simpl.
    apply bool_decide_eq_false_2.
    rewrite elem_of_difference, !elem_of_list_to_set. tauto.
  - rewrite (bool_decide_eq_false_2 _ Hc). simpl.
    apply bool_decide_eq_true_2.
    rewrite elem_of_difference, !elem_of_list_to_set. tauto.
Qed.

Lemma new_blob_ids_nonempty (covered : list string) (blobs : list (string * json))
      (id : string) :
  In id (List.map fst blobs) -> ~ In id covered ->
  (list_to_set (List.map fst blobs) ∖ list_to_set covered : gset string) <> ∅.
Proof.
  intros Hin Hnot. apply list_elem_of_In in Hin.
  rewrite <- list_elem_of_In in Hnot.
  intros Hempty.
  assert (id ∈ (list_to_set (List.map fst blobs) ∖ list_to_set covered : gset string))
    as Hid by (rewrite elem_of_difference, !elem_of_list_to_set; tauto).
  rewrite Hempty in Hid. now apply not_elem_of_empty in Hid.
Qed.

Lemma new_blob_ids_empty (covered : list string) (blobs : list (string * json)) :
  (forall id, In id (List.map fst blobs) -> In id covered) ->
  (list_to_set (List.map fst blobs) ∖ list_to_set covered : gset string) = ∅.
Proof.
  intros Hsub. apply set_eq. intros id.
  rewrite elem_of_difference, !elem_of_list_to_set, !list_elem_of_In.
  split; [intros [H1 H2]; now apply Hsub in H1 | intros H; now apply not_elem_of_empty in H].
Qed.

(** *** From the guards to the update *)

(** Past its guards the hook is its update step on what the guards
    computed; at an early return it does nothing. *)
Lemma main_reaches (skip_hooks : option string) (cfg : config)
      (loads : string -> option json) (raw_input : string)
      (chats : option (list ChatStore.chat_folder))
      (agent : string -> string -> option string) (now : Z) (w : world)
      (input : hook_input) :
  main_prelude skip_hooks cfg loads raw_input chats = Ok (Some input) ->
  main skip_hooks cfg loads raw_input chats agent now w
  = main_update cfg agent now (hook_conversation_id input) (hook_chat_name input)
                (hook_chat_directory input) (hook_blobs input) w.
Proof. intros H. unfold main. now rewrite H. Qed.

Lemma main_returns_early (skip_hooks : option string) (cfg : config)
      (loads : string -> option json) (raw_input : string)
      (chats : option (list ChatStore.chat_folder))
      (agent : string -> string -> option string) (now : Z) (w : world) :
  main_prelude skip_hooks cfg loads raw_input chats = Ok None ->
  main skip_hooks cfg loads raw_input chats agent now w = Ok w.
Proof. intros H. unfold main. now rewrite H. Qed.

(** What the guards let through: hooks neither skipped nor disabled, a
    conversation id that is not empty and whose store is found in the
    chats folder, the blobs and the name of that store, and not a chat
    named "New Agent" from the cutoff on. *)
Lemma prelude_reaches (skip_hooks : option string) (cfg : config)
      (loads : string -> option json) (raw_input : string)
      (chats : option (list ChatStore.chat_folder)) (input : hook_input) :
  main_prelude skip_hooks cfg loads raw_input chats = Ok (Some input) ->
  skip_hooks <> Some "1" /\
  hooks_enabled cfg = true /\
  hook_conversation_id input <> "" /\
  exists db_path,
    ChatStore.find_chat_db_path chats (hook_conversation_id input) = Some db_path /\
    hook_blobs input = ChatStore.store_blobs db_path /\
    ChatStore.meta_get (ChatStore.store_meta db_path) "name" (JStr "Unnamed")
    = Ok (hook_chat_name input) /\
    (eq_str (hook_chat_name input) "New Agent" = true ->
     exists created_at,
       ChatStore.meta_get (ChatStore.store_meta db_path) "createdAt" (JNum 0)
       = Ok created_at /\
       ge_int created_at JAN_2026_MS = Ok false).
Proof.
  unfold main_prelude.
  destruct (bool_decide (skip_hooks = Some "1")) eqn:Hskip; [discriminate|].
  apply bool_decide_eq_false_1 in Hskip.
  destruct (hooks_enabled cfg); simpl negb; cbv iota; [|discriminate].
  destruct (String.eqb (strip raw_input) ""); [discriminate|].
  destruct (loads raw_input) as [[| | | | |payload]|]; try discriminate.
  cbv zeta.
  destruct (truthy (default JNull (dict_get payload "conversation_id"))) eqn:Htruthy;
    simpl negb; cbv iota; [|discriminate].
  destruct (first_root _) as [chat_directory|e]; cbn [bind]; [|discriminate].
  destruct (default JNull (dict_get payload "conversation_id"))
    as [| b | n | conversation_id | items | fields];
    try (destruct (existsb _ _); discriminate).
  destruct (ChatStore.find_chat_db_path chats conversation_id) as [db_path|] eqn:Hfind;
    [|discriminate].
  destruct (ChatStore.meta_get (ChatStore.store_meta db_path) "name" (JStr "Unnamed"))
    as [chat_name|e] eqn:Hname; cbn [bind]; [|discriminate].
  destruct (ChatStore.meta_get (ChatStore.store_meta db_path) "createdAt" (JNum 0))
    as [created_at|e] eqn:Hcreated; cbn [bind]; [|discriminate].
  assert (conversation_id <> "") as Hne.
  { intros ->. discriminate Htruthy. }
  destruct (eq_str chat_name "New Agent") eqn:Hnew.
  - destruct (ge_int created_at JAN_2026_MS) as [[|]|e] eqn:Hge; cbn [bind];
      try discriminate.
    intros [= <-]. cbn [hook_conversation_id hook_blobs hook_chat_name].
    repeat split; try assumption. exists db_path.
    repeat split; try assumption. intros _. now exists created_at.
  - cbn [bind]. intros [= <-]. cbn [hook_conversation_id hook_blobs hook_chat_name].
    repeat split; try assumption. exists db_path.
    repeat split; try assumption. congruence.
Qed.

(** *** The update step *)

Lemma update_unchanged (cfg : config) (agent : string -> string -> option string)
      (now : Z) (conversation_id : string) (chat_name chat_directory : json)
      (blobs : list (string * json)) (w : world) (r : Db.row) :
  Db.get_summary_state (summaries w) conversation_id = Some r ->
  (forall id, In id (List.map fst blobs) -> In id (Db.blob_ids r)) ->
  main_update cfg agent now conversation_id chat_name chat_directory blobs w = Ok w.
Proof.
  intros Hrow Hsub. unfold main_update. cbv zeta. rewrite Hrow.
  rewrite (new_blob_ids_empty _ _ Hsub).
  now rewrite bool_decide_eq_true_2.
Qed.

(** The update step once it is known which blobs the messages come from
    and what summary there was. *)
Lemma update_summarizes (cfg : config) (agent : string -> string -> option string)
      (now : Z) (conversation_id : string) (chat_name chat_directory : json)
      (blobs : list (string * json)) (w : world)
      (existing_summary : option string) (source : list (string * json))
      (messages : list message) :
  (exists r new_id,
      Db.get_summary_state (summaries w) conversation_id = Some r /\
      In new_id (List.map fst blobs) /\ ~ In new_id (Db.blob_ids r) /\
      existing_summary = Some (Db.summary_text r) /\
      source = delta_blobs (Db.blob_ids r) blobs)
  \/
  (Db.get_summary_state (summaries w) conversation_id = None /\
   existing_summary = None /\ source = blobs) ->
  _extract_messages source = Ok messages ->
  main_update cfg agent now conversation_id chat_name chat_directory blobs w
  = match messages with
    | [] => Ok w
    | _ =>
        if negb (has_meaningful_messages messages) then Ok w
        else
          let '(summary, w') :=
            generate_summary agent messages (summary_model cfg)
                             (summary_max_words cfg) existing_summary w in
          if negb (is_summary_actionable summary) then Ok w'
          else
            try! name := Db.sql_text chat_name in
            try! directory := Db.sql_text chat_directory in
            Ok (World
                  (Db.upsert_summary (summaries w') now conversation_id
                     (default "" summary) (List.map fst blobs) name directory)
                  (agent_calls w'))
    end.
Proof.
  intros [(r & new_id & Hrow & Hin & Hnot & -> & ->) | (Hrow & -> & ->)] Hextract;
    unfold main_update; cbv zeta; rewrite Hrow.
  - pose proof (new_blob_ids_nonempty _ _ _ Hin Hnot) as Hnew.
    rewrite (bool_decide_eq_false_2 _ Hnew). cbv iota. simpl negb. cbv iota.
    rewrite new_blob_ids_delta, Hextract. reflexivity.
  - rewrite bool_decide_eq_true_2 by reflexivity. simpl negb. cbv iota.
    rewrite Hextract. reflexivity.
Qed.

(** What a run of the update step over messages does, given the row
    there was, if any. *)
Lemma update_outcome (cfg : config) (agent : string -> string -> option string)
      (now : Z) (conversation_id : string) (chat_name chat_directory : json)
      (blobs : list (string * json)) (w : world)
      (existing_summary : option string) (source : list (string * json))
      (messages : list message) :
  (exists r new_id,
      Db.get_summary_state (summaries w) conversation_id = Some r /\
      In new_id (List.map fst blobs) /\ ~ In new_id (Db.blob_ids r) /\
      existing_summary = Some (Db.summary_text r) /\
      source = delta_blobs (Db.blob_ids r) blobs)
  \/
  (Db.get_summary_state (summaries w) conversation_id = None /\
   existing_summary = None /\ source = blobs) ->
  _extract_messages source = Ok messages ->
  let prompt :=
    build_summary_prompt messages (summary_max_words cfg) existing_summary in
  let summary :=
    fst (generate_summary agent messages (summary_model cfg)
                          (summary_max_words cfg) existing_summary w) in
  let result :=
    main_update cfg agent now conversation_id chat_name chat_directory blobs w in
  (messages = [] \/ has_meaningful_messages messages = false -> result = Ok w) /\
  (messages <> [] ->
   has_meaningful_messages messages = true ->
   (is_summary_actionable summary = false ->
    exists w',
      result = Ok w' /\
      agent_calls w' = agent_calls w ++ [(prompt, summary_model cfg)] /\
      summaries w' = summaries w) /\
   (is_summary_actionable summary = true ->
    forall name directory,
      Db.sql_text chat_name = Ok name ->
      Db.sql_text chat_directory = Ok directory ->
      exists w' text,
        result = Ok w' /\
        agent_calls w' = agent_calls w ++ [(prompt, summary_model cfg)] /\
        summary = Some text /\
        summaries w'
        = Db.upsert_summary (summaries w) now conversation_id text
                            (List.map fst blobs) name directory)).
Proof.
  intros Hcase Hextract prompt summary result.
  pose proof (update_summarizes cfg agent now conversation_id chat_name
                chat_directory blobs w existing_summary source messages
                Hcase Hextract) as Hrun.
  fold result in Hrun. split.
  - intros [-> | Hmean]; [exact Hrun|].
    rewrite Hrun, Hmean. now destruct messages.
  - intros Hsome Hmean. destruct messages as [|m ms]; [congruence|].
    rewrite Hmean in Hrun. simpl negb in Hrun. cbv iota in Hrun.
    subst prompt summary.
    pose proof (generate_summary_world agent m ms (summary_model cfg)
                  (summary_max_words cfg) existing_summary w) as Hw.
    destruct (generate_summary agent (m :: ms) (summary_model cfg)
                (summary_max_words cfg) existing_summary w)
      as [summary w1] eqn:Hgen.
    simpl in Hw. subst w1. simpl fst. split.
    + intros Hact. rewrite Hact in Hrun. simpl negb in Hrun. cbv iota in Hrun.
      eexists. split; [exact Hrun|]. split; reflexivity.
    + intros Hact name directory Hname Hdir.
      rewrite Hact, Hname, Hdir in Hrun. simpl in Hrun.
      destruct summary as [text|]; [|discriminate].
      eexists. exists text. split; [exact Hrun|]. repeat split; reflexivity.
Qed.

(** C2.  When the stored row covers every current blob id the update
    step returns without raising and leaves the world as it was: the
    summary table is the same map and no agent run was added.  So does the
    hook as a whole: at each of its early returns, and when it gets past
    its guards to a conversation whose row covers every blob id of its
    store. *)
Theorem unchanged_is_a_no_op :
  (forall (cfg : config) (agent : string -> string -> option string) (now : Z)
          (conversation_id : string) (chat_name chat_directory : json)
          (blobs : list (string * json)) (w : world) (r : Db.row),
      Db.get_summary_state (summaries w) conversation_id = Some r ->
      (forall id, In id (List.map fst blobs) -> In id (Db.blob_ids r)) ->
      main_update cfg agent now conversation_id chat_name chat_directory blobs w
      = Ok w)
  /\
  (forall (skip_hooks : option string) (cfg : config)
          (loads : string -> option json) (raw_input : string)
          (chats : option (list ChatStore.chat_folder))
          (agent : string -> string -> option string) (now : Z) (w : world),
      (main_prelude skip_hooks cfg loads raw_input chats = Ok None ->
       main skip_hooks cfg loads raw_input chats agent now w = Ok w) /\
      (forall (input : hook_input) (r : Db.row),
          main_prelude skip_hooks cfg loads raw_input chats = Ok (Some input) ->
          Db.get_summary_state (summaries w) (hook_conversation_id input) = Some r ->
          (forall id, In id (List.map fst (hook_blobs input)) ->
                      In id (Db.blob_ids r)) ->
          main skip_hooks cfg loads raw_input chats agent now w = Ok w)).
Proof.
  split; [exact update_unchanged|].
  intros skip_hooks cfg loads raw_input chats agent now w.
  split; [apply main_returns_early|].
  intros input r Hreach Hrow Hsub.
  rewrite (main_reaches _ _ _ _ _ agent now w input Hreach).
  now apply (update_unchanged cfg agent now _ _ _ _ w r).
Qed.

Lemma unchanged_is_a_no_op_witness :
  main None hook_config hook_loads "{payload}" (hook_chats [blob_a])
       (canned (Some twelve_words)) 2000 hook_world
  = Ok hook_world.
Proof.
  refine (proj2 (proj2 unchanged_is_a_no_op None hook_config hook_loads "{payload}"
                   (hook_chats [blob_a]) (canned (Some twelve_words)) 2000%Z
                   hook_world)
                (HookInput "conv" (JStr "Login fix")
                           (JStr "/Users/jane/dev/my-app") [blob_a])
                hook_row _ _ _).
  - vm_compute. reflexivity.
  - reflexivity.
  - intros id Hid. exact Hid.
Defined.

(** C1, as the code has it.  The hook has got past its guards to a
    conversation with a stored row and at least one blob id the row does
    not cover; the messages are extracted from the uncovered blobs only.
    When there is none, or they fail the meaningfulness screen, the hook
    returns with the world as it was: no agent run, no write.  Otherwise
    the agent is run exactly once, on the update prompt built from those
    messages and the stored summary text.  When the summary that comes
    back is not actionable the table is left as it was; when it is, and
    the chat name and the workspace root can be stored as text, the row is
    replaced: it lists every current blob id (hence every id covered before
    that is still in the store), keeps its creation time, and no other row
    changes. *)
Theorem incremental_pass_covers_all_current_ids :
  forall (skip_hooks : option string) (cfg : config)
         (loads : string -> option json) (raw_input : string)
         (chats : option (list ChatStore.chat_folder))
         (agent : string -> string -> option string) (now : Z) (w : world)
         (input : hook_input) (r : Db.row) (new_id : string)
         (messages : list message),
    main_prelude skip_hooks cfg loads raw_input chats = Ok (Some input) ->
    Db.get_summary_state (summaries w) (hook_conversation_id input) = Some r ->
    In new_id (List.map fst (hook_blobs input)) -> ~ In new_id (Db.blob_ids r) ->
    _extract_messages (delta_blobs (Db.blob_ids r) (hook_blobs input)) = Ok messages ->
    let prompt :=
      build_summary_prompt messages (summary_max_words cfg)
                           (Some (Db.summary_text r)) in
    let summary :=
      fst (generate_summary agent messages (summary_model cfg)
                            (summary_max_words cfg) (Some (Db.summary_text r)) w) in
    let result := main skip_hooks cfg loads raw_input chats agent now w in
    (messages = [] \/ has_meaningful_messages messages = false -> result = Ok w) /\
    (messages <> [] ->
     has_meaningful_messages messages = true ->
     (is_summary_actionable summary = false ->
      exists w',
        result = Ok w' /\
        agent_calls w' = agent_calls w ++ [(prompt, summary_model cfg)] /\
        summaries w' = summaries w) /\
     (is_summary_actionable summary = true ->
      forall name directory,
        Db.sql_text (hook_chat_name input) = Ok name ->
        Db.sql_text (hook_chat_directory input) = Ok directory ->
        exists w' text,
          result = Ok w' /\
          agent_calls w' = agent_calls w ++ [(prompt, summary_model cfg)] /\
          summary = Some text /\
          summaries w'
          = <[hook_conversation_id input :=
                Db.Row text (List.map fst (hook_blobs input)) (Db.created_at r) now
                       name directory]> (summaries w) /\
          (forall row',
              Db.get_summary_state (summaries w') (hook_conversation_id input)
              = Some row' ->
              incl (Db.blob_ids r) (List.map fst (hook_blobs input)) ->
              incl (Db.blob_ids r) (Db.blob_ids row')))).
Proof.
  intros skip_hooks cfg loads raw_input chats agent now w input r new_id messages
         Hreach Hrow Hin Hnot Hextract prompt summary result.
  subst result. rewrite (main_reaches _ _ _ _ _ agent now w input Hreach).
  destruct (update_outcome cfg agent now (hook_conversation_id input)
              (hook_chat_name input) (hook_chat_directory input) (hook_blobs input)
              w (Some (Db.summary_text r))
              (delta_blobs (Db.blob_ids r) (hook_blobs input)) messages)
    as [Hnone Hsome]; [left; exists r, new_id; auto | exact Hextract |].
  split; [exact Hnone|].
  intros Hne Hmean. destruct (Hsome Hne Hmean) as [Hreject Haccept].
  split; [exact Hreject|].
  intros Hact name directory Hname Hdir.
  destruct (Haccept Hact name directory Hname Hdir)
    as (w' & text & Hres & Hcalls & Htext & Htable).
  exists w', text. split; [exact Hres|]. split; [exact Hcalls|].
  split; [exact Htext|].
  unfold Db.upsert_summary, Db.get_summary_state in *. rewrite Hrow in Htable.
  split; [exact Htable|].
  intros row'. rewrite Htable, lookup_insert_eq. intros [= <-]. simpl. auto.
Qed.

Lemma incremental_pass_covers_all_current_ids_witness :
  main None hook_config hook_loads "{payload}" (hook_chats [blob_a; blob_c])
       (canned (Some twelve_words)) 2000 hook_world
  = Ok (World
          {[ "conv" := Db.Row twelve_words ["a"; "c"] 1000 2000 (Some "Login fix")
                              (Some "/Users/jane/dev/my-app") ]}
          [(build_summary_prompt
              [Message (JStr "assistant")
                 "I added a regression test for the password hashing mismatch and moved the salt handling into a helper so the login flow and the signup flow share it."]
              70
              (Some "Fixed a login bug in auth.py by correcting a password hashing mismatch."),
            "grok")]).
Proof.
  destruct (incremental_pass_covers_all_current_ids
              None hook_config hook_loads "{payload}" (hook_chats [blob_a; blob_c])
              (canned (Some twelve_words)) 2000 hook_world
              (HookInput "conv" (JStr "Login fix") (JStr "/Users/jane/dev/my-app")
                         [blob_a; blob_c])
              hook_row "c"
              [Message (JStr "assistant")
                 "I added a regression test for the password hashing mismatch and moved the salt handling into a helper so the login flow and the signup flow share it."])
    as [_ Hrun].
  - vm_compute. reflexivity.
  - reflexivity.
  - simpl. tauto.
  - simpl. intros [H | []]. discriminate H.
  - vm_compute. reflexivity.
  - destruct (Hrun ltac:(discriminate) ltac:(vm_compute; reflexivity)) as [_ Haccept].
    destruct (Haccept ltac:(vm_compute; reflexivity)
                      (Some "Login fix") (Some "/Users/jane/dev/my-app")
                      eq_refl eq_refl)
      as (w' & text & Hmain & Hcalls & Htext & Htable & _).
    rewrite Hmain. f_equal.
    vm_compute in Htext. injection Htext as <-.
    destruct w' as [table calls]. simpl in Hcalls, Htable. subst calls table.
    f_equal.
Defined.

(** C1 as worded fails when the uncovered blobs yield no message: the
    new blob "b" is a system message, the hook returns without running the
    agent, and the stored row still covers "a" only. *)
Lemma delta_without_messages_runs_no_agent :
  main_prelude None hook_config hook_loads "{payload}"
               (hook_chats [blob_a; blob_system])
  = Ok (Some (HookInput "conv" (JStr "Login fix") (JStr "/Users/jane/dev/my-app")
                        [blob_a; blob_system])) /\
  Db.get_summary_state (summaries hook_world) "conv" = Some hook_row /\
  In "b" (List.map fst [blob_a; blob_system]) /\
  ~ In "b" (Db.blob_ids hook_row) /\
  main None hook_config hook_loads "{payload}" (hook_chats [blob_a; blob_system])
       (canned (Some twelve_words)) 2000 hook_world
  = Ok hook_world /\
  agent_calls hook_world = [].
Proof.
  split; [vm_compute; reflexivity|].
  split; [reflexivity|].
  split; [simpl; tauto|].
  split; [simpl; intros [H | []]; discriminate H|].
  split; [vm_compute; reflexivity | reflexivity].
Qed.

(** First summary.  The hook has got past its guards to a conversation
    with no stored row; the messages are extracted from the full blob
    list.  When there is none, or they fail the meaningfulness screen, the
    hook returns with the world as it was.  Otherwise the agent is run
    exactly once, on the fresh prompt; a summary that is not actionable
    leaves the table as it was; an actionable one, when the chat name and
    the workspace root can be stored as text, creates the row, which lists
    every current blob id and whose creation and update times are the same
    clock reading.  The instance below is the scenario of one tagged user
    query and one assistant message of ordinary prose. *)
Theorem first_summary_covers_all_ids :
  forall (skip_hooks : option string) (cfg : config)
         (loads : string -> option json) (raw_input : string)
         (chats : option (list ChatStore.chat_folder))
         (agent : string -> string -> option string) (now : Z) (w : world)
         (input : hook_input) (messages : list message),
    main_prelude skip_hooks cfg loads raw_input chats = Ok (Some input) ->
    Db.get_summary_state (summaries w) (hook_conversation_id input) = None ->
    _extract_messages (hook_blobs input) = Ok messages ->
    let prompt := build_summary_prompt messages (summary_max_words cfg) None in
    let summary :=
      fst (generate_summary agent messages (summary_model cfg)
                            (summary_max_words cfg) None w) in
    let result := main skip_hooks cfg loads raw_input chats agent now w in
    (messages = [] \/ has_meaningful_messages messages = false -> result = Ok w) /\
    (messages <> [] ->
     has_meaningful_messages messages = true ->
     (is_summary_actionable summary = false ->
      exists w',
        result = Ok w' /\
        agent_calls w' = agent_calls w ++ [(prompt, summary_model cfg)] /\
        summaries w' = summaries w) /\
     (is_summary_actionable summary = true ->
      forall name directory,
        Db.sql_text (hook_chat_name input) = Ok name ->
        Db.sql_text (hook_chat_directory input) = Ok directory ->
        exists w' text,
          result = Ok w' /\
          agent_calls w' = agent_calls w ++ [(prompt, summary_model cfg)] /\
          summary = Some text /\
          summaries w'
          = <[hook_conversation_id input :=
                Db.Row text (List.map fst (hook_blobs input)) now now
                       name directory]> (summaries w))).
Proof.
  intros skip_hooks cfg loads raw_input chats agent now w input messages
         Hreach Hrow Hextract prompt summary result.
  subst result. rewrite (main_reaches _ _ _ _ _ agent now w input Hreach).
  destruct (update_outcome cfg agent now (hook_conversation_id input)
              (hook_chat_name input) (hook_chat_directory input) (hook_blobs input)
              w None (hook_blobs input) messages)
    as [Hnone Hsome]; [right; auto | exact Hextract |].
  split; [exact Hnone|].
  intros Hne Hmean. destruct (Hsome Hne Hmean) as [Hreject Haccept].
  split; [exact Hreject|].
  intros Hact name directory Hname Hdir.
  destruct (Haccept Hact name directory Hname Hdir)
    as (w' & text & Hres & Hcalls & Htext & Htable).
  exists w', text. split; [exact Hres|]. split; [exact Hcalls|].
  split; [exact Htext|].
  unfold Db.upsert_summary, Db.get_summary_state in *. now rewrite Hrow in Htable.
Qed.

Lemma first_summary_covers_all_ids_witness :
  main None hook_config hook_loads "{payload}" (hook_chats [blob_a; blob_prose])
       (canned (Some "Fixed a login bug in auth.py by correcting a password hashing mismatch."))
       2000 (World ∅ [])
  = Ok (World
          {[ "conv" :=
               Db.Row "Fixed a login bug in auth.py by correcting a password hashing mismatch."
                      ["a"; "p"] 2000 2000 (Some "Login fix")
                      (Some "/Users/jane/dev/my-app") ]}
          [(build_summary_prompt
              [Message (JStr "user") "Fix the login bug in auth.py";
               Message (JStr "assistant")
                       (repeat_string "The login check compared a salted hash with an unsalted one. " 3)]
              70 None,
            "grok")]).
Proof.
  destruct (first_summary_covers_all_ids
              None hook_config hook_loads "{payload}" (hook_chats [blob_a; blob_prose])
              (canned (Some "Fixed a login bug in auth.py by correcting a password hashing mismatch."))
              2000 (World ∅ [])
              (HookInput "conv" (JStr "Login fix") (JStr "/Users/jane/dev/my-app")
                         [blob_a; blob_prose])
              [Message (JStr "user") "Fix the login bug in auth.py";
               Message (JStr "assistant")
                       (repeat_string "The login check compared a salted hash with an unsalted one. " 3)])
    as [_ Hrun].
  - vm_compute. reflexivity.
  - reflexivity.
  - vm_compute. reflexivity.
  - destruct (Hrun ltac:(discriminate) ltac:(vm_compute; reflexivity)) as [_ Haccept].
    destruct (Haccept ltac:(vm_compute; reflexivity)
                      (Some "Login fix") (Some "/Users/jane/dev/my-app")
                      eq_refl eq_refl)
      as (w' & text & Hmain & Hcalls & Htext & Htable).
    rewrite Hmain. f_equal.
    vm_compute in Htext. injection Htext as <-.
    destruct w' as [table calls]. simpl in Hcalls, Htable. subst calls table.
    f_equal.
Defined.
End HookFacts.

(** ** hooks/session_end.py: more on the extractor *)

Module ExtractFacts.
Import PyStr PyStrFacts Json Summarize SessionEnd SessionEndFacts Shapes.

Lemma text_parts_filter (items : list json) :
  text_parts items = List.map part_text (List.filter is_text_part items).
Proof.
  induction items as [|item items IH]; [reflexivity|].
  destruct item as [| | | | |fields]; simpl; try exact IH.
  destruct (eq_str (default (JStr "") (dict_get fields "type")) "reasoning") eqn:Hr.
  - destruct (default (JStr "") (dict_get fields "type")) as [| | |t| |];
      try discriminate.
    simpl in Hr. apply String.eqb_eq in Hr. subst t. simpl. exact IH.
  - destruct (eq_str _ "text"); simpl; [now rewrite IH | exact IH].
Qed.

Lemma filter_idempotent {A} (f : A -> bool) (l : list A) :
  List.filter f (List.filter f l) = List.filter f l.
Proof.
  induction l as [|x l IH]; [reflexivity|]. simpl.
  destruct (f x) eqn:E; simpl; [now rewrite E, IH | exact IH].
Qed.

Lemma join_parts_strings (parts : list json) :
  Forall (fun p => is_str p = true) parts ->
  exists texts, join_parts parts = Ok texts /\ List.map JStr texts = parts.
Proof.
  induction 1 as [|p parts Hp _ (texts & Hj & Hm)]; [now exists []|].
  destruct p; try discriminate. exists (s :: texts). simpl.
  rewrite Hj, Hm. auto.
Qed.

Lemma join_parts_raises (parts : list json) :
  Exists (fun p => is_str p = false) parts -> join_parts parts = Raise TypeError.
Proof.
  induction 1 as [p parts Hp | p parts _ IH].
  - destruct p; try discriminate; reflexivity.
  - destruct p; try reflexivity. simpl. now rewrite IH.
Qed.

Lemma text_content_cases :
  forall items : list json,
    _extract_text_content (JArr items)
    = _extract_text_content (JArr (List.filter is_text_part items))
    /\
    (List.filter is_text_part items = [] ->
     _extract_text_content (JArr items) = Ok "")
    /\
    (forall texts,
        List.map part_text (List.filter is_text_part items) = List.map JStr texts ->
        _extract_text_content (JArr items) = Ok (join " " texts))
    /\
    (Exists (fun item => is_text_part item = true /\ is_str (part_text item) = false)
            items ->
     _extract_text_content (JArr items) = Raise TypeError).
Proof.
  intros items. unfold _extract_text_content.
  rewrite !text_parts_filter, filter_idempotent.
  split; [reflexivity|]. split; [|split].
  - intros ->. reflexivity.
  - intros texts ->.
    destruct (join_parts_strings (List.map JStr texts)) as (texts' & -> & Hm).
    { apply List.Forall_forall. intros p Hp. apply in_map_iff in Hp as (t & <- & _).
      reflexivity. }
    simpl. f_equal. f_equal.
    clear -Hm. revert texts' Hm.
    induction texts as [|t texts IH]; intros [|t' texts']; simpl; try discriminate.
    + reflexivity.
    + intros [= -> H]. f_equal. auto.
  - intros Hex. rewrite join_parts_raises; [reflexivity|].
    apply List.Exists_exists in Hex as (item & Hin & Htext & Hstr).
    apply List.Exists_exists. exists (part_text item). split; [|exact Hstr].
    apply in_map, filter_In. auto.
Qed.

(** Only the parts typed "text" count: reasoning parts, parts of any other
    type and items that are not dicts can be removed without changing the
    result, and a list without a text part gives the empty string.  When
    every text part carries a string (a missing "text" counting as the empty
    string) the result is those strings joined by single spaces; a text part
    carrying anything else makes the extraction raise [TypeError]. *)
Theorem text_content_of_parts :
  forall items : list json,
    _extract_text_content (JArr items)
    = _extract_text_content (JArr (List.filter is_text_part items))
    /\
    (List.filter is_text_part items = [] ->
     _extract_text_content (JArr items) = Ok "")
    /\
    (forall texts,
        List.map part_text (List.filter is_text_part items) = List.map JStr texts ->
        _extract_text_content (JArr items) = Ok (join " " texts))
    /\
    (Exists (fun item => is_text_part item = true /\ is_str (part_text item) = false)
            items ->
     _extract_text_content (JArr items) = Raise TypeError).
Proof. exact text_content_cases. Qed.

(** *** Lengths *)

Lemma length_lstrip (s : string) : String.length (lstrip s) <= String.length s.
Proof.
  induction s as [|c s IH]; simpl; [lia|]. destruct (isspace c); simpl; lia.
Qed.

Lemma length_rstrip (s : string) : String.length (rstrip s) <= String.length s.
Proof.
  induction s as [|c s IH]; [simpl; lia|].
  rewrite rstrip_cons. destruct (all_whitespace (String c s)); simpl; lia.
Qed.

Lemma length_strip (s : string) : String.length (strip s) <= String.length s.
Proof.
  unfold strip. pose proof (length_rstrip (lstrip s)). pose proof (length_lstrip s). lia.
Qed.

Lemma length_take (n : nat) (s : string) :
  String.length (take n s) = Nat.min n (String.length s).
Proof.
  revert s. induction n as [|n IH]; intros [|c s]; simpl; auto.
Qed.

Lemma take_all (n : nat) (s : string) : String.length s <= n -> take n s = s.
Proof.
  revert s. induction n as [|n IH]; intros [|c s]; simpl; intros H;
    try reflexivity; try lia.
  f_equal. apply IH. lia.
Qed.

(** *** What every emitted message satisfies *)

Lemma cut_not_metadata (text : string) :
  _is_mostly_metadata text = false -> _is_mostly_metadata (take 2000 text) = false.
Proof.
  intros H. destruct (Nat.le_gt_cases (String.length text) 2000) as [Hle | Hgt].
  - now rewrite take_all.
  - unfold _is_mostly_metadata. rewrite length_take.
    replace (500 <? Nat.min 2000 (String.length text))%nat with true; [reflexivity|].
    symmetry. apply Nat.ltb_lt. lia.
Qed.

Lemma body_well_formed (blob_data : json) (msg : message) :
  _extract_messages_body blob_data = Ok (Some msg) -> well_formed msg.
Proof.
  unfold _extract_messages_body.
  destruct blob_data as [| | | | |fields]; try discriminate.
  destruct (negb (truthy (default JNull (dict_get fields "role")))) eqn:Hrole;
    [discriminate|].
  destruct (negb (truthy (default JNull (dict_get fields "content"))));
    [discriminate|]. simpl orb. cbv iota.
  destruct (eq_str _ "system") eqn:Hsys; [discriminate|].
  destruct (_extract_text_content _) as [text|e]; simpl; [|discriminate].
  destruct (String.eqb text "" || (String.length (strip text) <? 10)%nat) eqn:Hshort;
    [discriminate|].
  apply orb_false_iff in Hshort as [_ Hlen]. apply Nat.ltb_ge in Hlen.
  assert (Hkeep : forall t, (String.length (strip t) <? 10)%nat = false ->
                            _is_mostly_metadata t = false ->
                            well_formed
                              (Message (default JNull (dict_get fields "role"))
                                       (take 2000 t))).
  { intros t Ht Hm. apply Nat.ltb_ge in Ht. pose proof (length_strip t).
    unfold well_formed. cbn [content role]. rewrite length_take.
    split; [lia|]. split; [now apply cut_not_metadata|].
    split; [now apply negb_false_iff in Hrole | exact Hsys]. }
  destruct (eq_str _ "user").
  - unfold user_query_filter. cbv zeta.
    destruct (String.eqb _ "" || (String.length (strip _) <? 10)%nat) eqn:Hq;
      [discriminate|].
    apply orb_false_iff in Hq as [_ Hq].
    destruct (_is_mostly_metadata (_extract_user_query text)) eqn:Hm; [discriminate|].
    intros [= <-]. now apply Hkeep.
  - destruct (_is_mostly_metadata text) eqn:Hm; [discriminate|].
    intros [= <-]. apply Hkeep; [apply Nat.ltb_ge; lia | exact Hm].
Qed.

(** Every message the extractor emits has a content of 10 to 2000
    characters that is not a metadata banner and a truthy role other than
    "system", and there are at most as many messages as blobs. *)
Theorem extracted_messages_well_formed :
  forall (blobs : list (string * json)) (messages : list message),
    _extract_messages blobs = Ok messages ->
    Forall well_formed messages /\ length messages <= length blobs.
Proof.
  induction blobs as [|[blob_id blob_data] blobs IH]; intros messages.
  - intros [= <-]. split; [constructor | simpl; lia].
  - rewrite extract_cons.
    destruct (_extract_messages_body blob_data) as [emitted|e] eqn:Hb; simpl;
      [|discriminate].
    destruct (_extract_messages blobs) as [rest|e]; simpl; [|discriminate].
    intros [= <-]. destruct (IH rest eq_refl) as [Hall Hlen].
    destruct emitted as [msg|]; simpl.
    + split; [constructor; [now apply body_well_formed in Hb | exact Hall] | lia].
    + split; [exact Hall | lia].
Qed.

Lemma extracted_messages_well_formed_witness :
  Forall well_formed
         [Message (JStr "user") "Fix the login bug in auth.py";
          Message (JStr "assistant")
                  "I added a regression test for the password hashing mismatch and moved the salt handling into a helper so the login flow and the signup flow share it."]
  /\ 2 <= 3.
Proof.
  exact (extracted_messages_well_formed [blob_a; blob_system; blob_c] _ eq_refl).
Defined.

(** *** Concatenation and skipped blobs *)

Lemma extract_app :
  forall a b : list (string * json),
    _extract_messages (a ++ b)
    = bind (_extract_messages a)
           (fun first =>
              bind (_extract_messages b) (fun second => Ok (first ++ second))).
Proof.
  intros a b. induction a as [|[id data] a IH].
  - change ([] ++ b) with b. simpl. now destruct (_extract_messages b).
  - change (((id, data) :: a) ++ b) with ((id, data) :: (a ++ b)).
    rewrite !extract_cons, IH.
    destruct (_extract_messages_body data) as [emitted|e]; simpl; [|reflexivity].
    destruct (_extract_messages a) as [first|e]; simpl; [|reflexivity].
    destruct (_extract_messages b) as [second|e]; simpl; [|reflexivity].
    now destruct emitted.
Qed.

(** Extraction works blob by blob and keeps the order: the messages of a
    concatenation are the messages of the first part followed by those of
    the second, and it raises when either part does. *)
Theorem extract_messages_app :
  forall a b : list (string * json),
    _extract_messages (a ++ b)
    = bind (_extract_messages a)
           (fun first =>
              bind (_extract_messages b) (fun second => Ok (first ++ second))).
Proof. exact extract_app. Qed.

Lemma malformed_body (blob_data : json) :
  malformed blob_data = true -> _extract_messages_body blob_data = Ok None.
Proof.
  unfold malformed, _extract_messages_body.
  destruct blob_data as [| | | | |fields]; try reflexivity.
  now intros ->.
Qed.

(** A blob whose payload is not a dict, or lacks a role or a content (or
    holds an empty, null, zero or false one), is passed over: removing it
    from the input changes neither the messages nor whether the extraction
    raises. *)
Theorem malformed_blobs_are_skipped :
  forall (before after : list (string * json)) (blob_id : string) (blob_data : json),
    malformed blob_data = true ->
    _extract_messages (before ++ (blob_id, blob_data) :: after)
    = _extract_messages (before ++ after).
Proof.
  intros before after blob_id blob_data Hbad.
  rewrite !extract_app, extract_cons, (malformed_body _ Hbad). simpl.
  destruct (_extract_messages before) as [first|e]; simpl; [|reflexivity].
  now destruct (_extract_messages after).
Qed.

Lemma malformed_blobs_are_skipped_witness :
  _extract_messages
    [blob_a; ("n", JNum 7); ("e", JObj [("role", JStr "user"); ("content", JStr "")]);
     ("m", JObj [("content", JStr "A message that has no role at all.")]); blob_c]
  = _extract_messages [blob_a; blob_c].
Proof.
  etransitivity.
  - exact (malformed_blobs_are_skipped [blob_a] _ "n" (JNum 7) eq_refl).
  - etransitivity.
    + exact (malformed_blobs_are_skipped
               [blob_a] _ "e" (JObj [("role", JStr "user"); ("content", JStr "")])
               eq_refl).
    + exact (malformed_blobs_are_skipped
               [blob_a] [blob_c] "m"
               (JObj [("content", JStr "A message that has no role at all.")]) eq_refl).
Defined.

(** *** The one exception of the extractor *)

Lemma join_parts_only_TypeError (parts : list json) (e : exn) :
  join_parts parts = Raise e -> e = TypeError.
Proof.
  induction parts as [|part parts IH]; [discriminate|].
  destruct part; simpl; try (intros [= <-]; reflexivity).
  destruct (join_parts parts) as [rest|e']; simpl; [discriminate|].
  intros [= <-]. now apply IH.
Qed.

Lemma body_only_TypeError (blob_data : json) (e : exn) :
  _extract_messages_body blob_data = Raise e -> e = TypeError.
Proof.
  unfold _extract_messages_body. destruct blob_data as [| | | | |fields]; try discriminate.
  cbv zeta.
  destruct (negb _ || negb _); [discriminate|].
  destruct (eq_str _ "system"); [discriminate|].
  destruct (_extract_text_content _) as [text|e'] eqn:Htext; cbn [bind].
  - destruct (String.eqb text "" || _); [discriminate|].
    destruct (if eq_str _ "user" then _ else _) as [query|]; [|discriminate].
    destruct (_is_mostly_metadata query); discriminate.
  - intros [= <-]. unfold _extract_text_content in Htext.
    destruct (default JNull (dict_get fields "content")); try discriminate.
    destruct (join_parts _) as [parts|e''] eqn:Hjoin; cbn [bind] in Htext;
      [discriminate|].
    injection Htext as <-. now apply join_parts_only_TypeError in Hjoin.
Qed.

Lemma extract_only_TypeError (blobs : list (string * json)) (e : exn) :
  _extract_messages blobs = Raise e -> e = TypeError.
Proof.
  induction blobs as [|[blob_id blob_data] blobs IH]; [discriminate|].
  rewrite extract_cons.
  destruct (_extract_messages_body blob_data) as [emitted|e'] eqn:Hbody; cbn [bind].
  - destruct (_extract_messages blobs) as [messages|e'']; cbn [bind]; [discriminate|].
    intros [= <-]. now apply IH.
  - intros [= <-]. now apply body_only_TypeError in Hbody.
Qed.

(** One blob with a text part that carries something other than a string
    makes the whole extraction raise, wherever it stands, unless it is
    passed over for its role. *)
Theorem non_string_text_part_raises :
  forall (before after : list (string * json)) (blob_id : string)
         (fields : list (string * json)) (role : json) (items : list json),
    dict_get fields "role" = Some role ->
    truthy role = true ->
    eq_str role "system" = false ->
    dict_get fields "content" = Some (JArr items) ->
    Exists (fun item => is_text_part item = true /\ is_str (part_text item) = false)
           items ->
    _extract_messages (before ++ (blob_id, JObj fields) :: after) = Raise TypeError.
Proof.
  intros before after blob_id fields role items Hrole Htruthy Hsys Hcontent Hex.
  assert (Hbody : _extract_messages_body (JObj fields) = Raise TypeError).
  { unfold _extract_messages_body. rewrite Hrole, Hcontent. simpl default.
    rewrite Htruthy, Hsys.
    replace (truthy (JArr items)) with true.
    2:{ destruct items; [inversion Hex | reflexivity]. }
    simpl orb. cbv iota.
    destruct (text_content_cases items) as (_ & _ & _ & Hraise).
    now rewrite (Hraise Hex). }
  rewrite extract_app, extract_cons, Hbody.
  destruct (_extract_messages before) as [first|e] eqn:Hbefore; simpl;
    [reflexivity|].
  f_equal. exact (extract_only_TypeError _ _ Hbefore).
Qed.

Lemma non_string_text_part_raises_witness :
  _extract_messages
    [blob_a;
     ("t", JObj [("role", JStr "assistant");
                 ("content", JArr [JObj [("type", JStr "text"); ("text", JNum 5)]])]);
     blob_c]
  = Raise TypeError.
Proof.
  apply (non_string_text_part_raises
           [blob_a] [blob_c] "t"
           [("role", JStr "assistant");
            ("content", JArr [JObj [("type", JStr "text"); ("text", JNum 5)]])]
           (JStr "assistant")
           [JObj [("type", JStr "text"); ("text", JNum 5)]]);
    try reflexivity.
  constructor. split; reflexivity.
Defined.

End ExtractFacts.

(** ** db.py and the hook: what a write does *)

Module UpdaterFacts.
Import PyStr PyStrFacts Json Summarize SessionEnd HookFacts.

(** Reading back what was written: the row holds the given text, ids,
    name and directory and the time of the write; its creation time is the
    time of the first write for that conversation.  Rows of other
    conversations are untouched, and a second write replaces everything
    but the creation time. *)
Theorem upsert_then_get :
  forall (db : gmap string Db.row) (now : Z) (conversation_id text : string)
         (ids : list string) (name directory : option string),
    Db.get_summary_state
      (Db.upsert_summary db now conversation_id text ids name directory)
      conversation_id
    = Some (Db.Row text ids
                   (match Db.get_summary_state db conversation_id with
                    | Some r => Db.created_at r
                    | None => now
                    end)
                   now name directory)
    /\
    (forall other,
        other <> conversation_id ->
        Db.get_summary_state
          (Db.upsert_summary db now conversation_id text ids name directory) other
        = Db.get_summary_state db other)
    /\
    (forall later text' ids' name' directory',
        Db.upsert_summary
          (Db.upsert_summary db now conversation_id text ids name directory)
          later conversation_id text' ids' name' directory'
        = <[conversation_id :=
              Db.Row text' ids'
                     (match Db.get_summary_state db conversation_id with
                      | Some r => Db.created_at r
                      | None => now
                      end)
                     later name' directory']> db).
Proof.
  intros db now conversation_id text ids name directory.
  unfold Db.get_summary_state, Db.upsert_summary.
  split; [apply lookup_insert_eq|]. split.
  - intros other Hne. now apply lookup_insert_ne.
  - intros later text' ids' name' directory'.
    rewrite lookup_insert_eq. simpl. apply insert_insert_eq.
Qed.

(** Where [main] goes after the extraction. *)
Lemma main_cases (cfg : config) (agent : string -> string -> option string)
      (now : Z) (conversation_id : string) (chat_name chat_directory : json)
      (blobs : list (string * json))
      (w w' : world) :
  main_update cfg agent now conversation_id chat_name chat_directory blobs w = Ok w' ->
  w' = w \/
  exists messages existing_summary summary,
    messages <> [] /\
    has_meaningful_messages messages = true /\
    summary
    = fst (generate_summary agent messages (summary_model cfg)
                            (summary_max_words cfg) existing_summary w) /\
    agent_calls w'
    = agent_calls w
        ++ [(build_summary_prompt messages (summary_max_words cfg) existing_summary,
             summary_model cfg)] /\
    (summaries w' = summaries w \/
     is_summary_actionable summary = true /\
     exists name directory,
       Db.sql_text chat_name = Ok name /\
       Db.sql_text chat_directory = Ok directory /\
       summaries w'
       = Db.upsert_summary (summaries w) now conversation_id (default "" summary)
                           (List.map fst blobs) name directory).
Proof.
  unfold main_update. cbv zeta.
  assert (Hsum : forall existing_summary extraction,
    bind extraction
      (fun messages =>
         match messages with
         | [] => Ok w
         | _ :: _ =>
             if negb (has_meaningful_messages messages) then Ok w
             else
               let '(summary, w1) :=
                 generate_summary agent messages (summary_model cfg)
                                  (summary_max_words cfg) existing_summary w in
               if negb (is_summary_actionable summary) then Ok w1
               else
                 try! name := Db.sql_text chat_name in
                 try! directory := Db.sql_text chat_directory in
                 Ok (World
                       (Db.upsert_summary (summaries w1) now conversation_id
                          (default "" summary) (List.map fst blobs)
                          name directory)
                       (agent_calls w1))
         end) = Ok w' ->
    w' = w \/
    exists messages existing_summary summary,
      messages <> [] /\
      has_meaningful_messages messages = true /\
      summary
      = fst (generate_summary agent messages (summary_model cfg)
                              (summary_max_words cfg) existing_summary w) /\
      agent_calls w'
      = agent_calls w
          ++ [(build_summary_prompt messages (summary_max_words cfg) existing_summary,
               summary_model cfg)] /\
      (summaries w' = summaries w \/
       is_summary_actionable summary = true /\
       exists name directory,
         Db.sql_text chat_name = Ok name /\
         Db.sql_text chat_directory = Ok directory /\
         summaries w'
         = Db.upsert_summary (summaries w) now conversation_id (default "" summary)
                             (List.map fst blobs) name directory)).
  { intros existing_summary [messages|e]; simpl; [|discriminate].
    destruct messages as [|m ms]; [intros [= <-]; now left|].
    destruct (has_meaningful_messages (m :: ms)) eqn:Hmean; simpl negb; cbv iota;
      [|intros [= <-]; now left].
    pose proof (generate_summary_world agent m ms (summary_model cfg)
                  (summary_max_words cfg) existing_summary w) as Hw.
    destruct (generate_summary agent (m :: ms) (summary_model cfg)
                (summary_max_words cfg) existing_summary w) as [summary w1] eqn:Hgen.
    simpl in Hw. subst w1. intros H. right.
    exists (m :: ms), existing_summary, summary.
    split; [discriminate|]. split; [exact Hmean|]. split; [now rewrite Hgen|].
    destruct (is_summary_actionable summary) eqn:Hact; simpl negb in H; cbv iota in H.
    - destruct (Db.sql_text chat_name) as [name|e]; cbn [bind] in H; [|discriminate].
      destruct (Db.sql_text chat_directory) as [directory|e]; cbn [bind] in H;
        [|discriminate].
      injection H as <-. simpl. split; [reflexivity|]. right.
      split; [reflexivity|]. exists name, directory. auto.
    - injection H as <-. simpl. auto. }
  destruct (Db.get_summary_state (summaries w) conversation_id) as [r|].
  - destruct (bool_decide _); [intros [= <-]; now left | apply Hsum].
  - apply Hsum.
Qed.

Lemma update_frame (cfg : config) (agent : string -> string -> option string)
      (now : Z) (conversation_id : string) (chat_name chat_directory : json)
      (blobs : list (string * json)) (w w' : world) :
  main_update cfg agent now conversation_id chat_name chat_directory blobs w = Ok w' ->
  (forall other,
      other <> conversation_id ->
      summaries w' !! other = summaries w !! other) /\
  (exists calls,
      agent_calls w' = agent_calls w ++ calls /\
      length calls <= 1 /\
      (summaries w' <> summaries w -> length calls = 1)) /\
  (forall row',
      summaries w' !! conversation_id = Some row' ->
      summaries w !! conversation_id = Some row' \/
      (Db.blob_ids row' = List.map fst blobs /\
       Db.updated_at row' = now /\
       is_summary_actionable (Some (Db.summary_text row')) = true /\
       (forall r, summaries w !! conversation_id = Some r ->
                  Db.created_at row' = Db.created_at r))).
Proof.
  intros Hmain.
  apply main_cases in Hmain
    as [-> | (messages & existing & summary & _ & _ & _ & Hcalls & Htable)].
  { split; [reflexivity|]. split; [|auto].
    exists []. rewrite app_nil_r. split; [reflexivity|]. split; [simpl; lia | congruence]. }
  assert (Hone : exists calls,
             agent_calls w' = agent_calls w ++ calls /\
             length calls <= 1 /\ (summaries w' <> summaries w -> length calls = 1)).
  { eexists. split; [exact Hcalls|]. simpl. split; [lia | reflexivity]. }
  destruct Htable as [Hsame | (Hact & name & directory & _ & _ & Hnew)].
  - split; [intros other _; now rewrite Hsame|].
    split; [exact Hone|]. intros row'. rewrite Hsame. auto.
  - split; [|split; [exact Hone|]]; rewrite Hnew; unfold Db.upsert_summary.
    { intros other Hne. now apply lookup_insert_ne. }
    intros row'. rewrite lookup_insert_eq. intros [= <-]. right. simpl.
    split; [reflexivity|]. split; [reflexivity|].
    split; [now destruct summary|].
    intros r ->. reflexivity.
Qed.

(** The frame of one run that returns, of the update step and of the
    hook as a whole.  Rows of other conversations are the same; at most
    one agent run is added, and the table differs only if one was; the row
    of this conversation is either the one that was there or a new one that
    lists exactly the current blob ids, carries the time of this invocation,
    holds an actionable summary text and keeps the creation time of a row it
    replaces.  An early return of the hook leaves the world as it was. *)
Theorem hook_frame :
  (forall (cfg : config) (agent : string -> string -> option string) (now : Z)
          (conversation_id : string) (chat_name chat_directory : json)
          (blobs : list (string * json)) (w w' : world),
      main_update cfg agent now conversation_id chat_name chat_directory blobs w
      = Ok w' ->
      (forall other,
          other <> conversation_id ->
          summaries w' !! other = summaries w !! other) /\
      (exists calls,
          agent_calls w' = agent_calls w ++ calls /\
          length calls <= 1 /\
          (summaries w' <> summaries w -> length calls = 1)) /\
      (forall row',
          summaries w' !! conversation_id = Some row' ->
          summaries w !! conversation_id = Some row' \/
          (Db.blob_ids row' = List.map fst blobs /\
           Db.updated_at row' = now /\
           is_summary_actionable (Some (Db.summary_text row')) = true /\
           (forall r, summaries w !! conversation_id = Some r ->
                      Db.created_at row' = Db.created_at r))))
  /\
  (forall (skip_hooks : option string) (cfg : config)
          (loads : string -> option json) (raw_input : string)
          (chats : option (list ChatStore.chat_folder))
          (agent : string -> string -> option string) (now : Z) (w w' : world),
      main skip_hooks cfg loads raw_input chats agent now w = Ok w' ->
      (exists calls,
          agent_calls w' = agent_calls w ++ calls /\
          length calls <= 1 /\
          (summaries w' <> summaries w -> length calls = 1)) /\
      (main_prelude skip_hooks cfg loads raw_input chats = Ok None -> w' = w) /\
      (forall input,
          main_prelude skip_hooks cfg loads raw_input chats = Ok (Some input) ->
          (forall other,
              other <> hook_conversation_id input ->
              summaries w' !! other = summaries w !! other) /\
          (forall row',
              summaries w' !! hook_conversation_id input = Some row' ->
              summaries w !! hook_conversation_id input = Some row' \/
              (Db.blob_ids row' = List.map fst (hook_blobs input) /\
               Db.updated_at row' = now /\
               is_summary_actionable (Some (Db.summary_text row')) = true /\
               (forall r, summaries w !! hook_conversation_id input = Some r ->
                          Db.created_at row' = Db.created_at r))))).
Proof.
  split; [exact update_frame|].
  intros skip_hooks cfg loads raw_input chats agent now w w' Hmain.
  destruct (main_prelude skip_hooks cfg loads raw_input chats)
    as [[input|]|e] eqn:Hreach.
  - rewrite (main_reaches _ _ _ _ _ agent now w input Hreach) in Hmain.
    apply update_frame in Hmain as (Hothers & Hcalls & Hrow).
    split; [exact Hcalls|]. split; [discriminate|].
    intros ? [= <-]. split; assumption.
  - rewrite (main_returns_early _ _ _ _ _ agent now w Hreach) in Hmain.
    injection Hmain as <-. split; [|split; [reflexivity | discriminate]].
    exists []. rewrite app_nil_r.
    split; [reflexivity|]. split; [simpl; lia | congruence].
  - unfold main in Hmain. rewrite Hreach in Hmain. discriminate.
Qed.

Lemma hook_frame_witness :
  summaries
    (World
       {[ "conv" := Db.Row twelve_words ["a"; "c"] 1000 2000 (Some "Login fix")
                           (Some "/Users/jane/dev/my-app") ]}
       [(build_summary_prompt
           [Message (JStr "assistant")
              "I added a regression test for the password hashing mismatch and moved the salt handling into a helper so the login flow and the signup flow share it."]
           70
           (Some "Fixed a login bug in auth.py by correcting a password hashing mismatch."),
         "grok")]) !! "other"
  = summaries hook_world !! "other".
Proof.
  apply (proj1 (proj2 (proj2 (proj2 hook_frame None hook_config hook_loads
                                "{payload}" (hook_chats [blob_a; blob_c])
                                (canned (Some twelve_words)) 2000%Z
                                hook_world _ ltac:(vm_compute; reflexivity)))
                  (HookInput "conv" (JStr "Login fix")
                             (JStr "/Users/jane/dev/my-app") [blob_a; blob_c])
                  ltac:(vm_compute; reflexivity))).
  discriminate.
Defined.

End UpdaterFacts.

(** ** backfill.py: one chat and the batch *)

Module BatchFacts.
Import PyStr PyStrFacts Json Summarize SessionEnd HookFacts Backfill BackfillFacts
       ChatStore BackfillBatch Shapes.

(** What [_process_single_chat] did: by status when it returned, and
    what an exception leaves behind. *)
Lemma single_chat_cases (cfg : config) (agent : string -> string -> option string)
      (now : Z) (conversation_id : string) (workspace_path : option string)
      (store_db : store) (w w' : world) (result : outcome (status * json)) :
  _process_single_chat cfg agent now conversation_id workspace_path store_db w
  = (result, w') ->
  match result with
  | Raise _ =>
      summaries w' = summaries w /\
      exists calls, agent_calls w' = agent_calls w ++ calls /\ length calls <= 1
  | Ok (result, chat_name) =>
      meta_get (store_meta store_db) "name" (JStr "Unnamed") = Ok chat_name /\
      exists messages,
        _extract_messages (store_blobs store_db) = Ok messages /\
        match result with
        | NoMessages => messages = [] /\ w' = w
        | NotMeaningful =>
            messages <> [] /\ has_meaningful_messages messages = false /\ w' = w
        | NotActionable =>
            has_meaningful_messages messages = true /\
            summaries w' = summaries w /\
            agent_calls w'
            = agent_calls w
                ++ [(build_summary_prompt messages (summary_max_words cfg) None,
                     summary_model cfg)]
        | Success =>
            has_meaningful_messages messages = true /\
            agent_calls w'
            = agent_calls w
                ++ [(build_summary_prompt messages (summary_max_words cfg) None,
                     summary_model cfg)] /\
            exists text name,
              is_summary_actionable (Some text) = true /\
              Db.sql_text chat_name = Ok name /\
              summaries w'
              = Db.upsert_summary (summaries w) now conversation_id text
                                  (List.map fst (store_blobs store_db))
                                  name workspace_path
        end
  end.
Proof.
  unfold _process_single_chat.
  assert (Hquiet : forall e : exn,
             summaries w = summaries w /\
             exists calls, agent_calls w = agent_calls w ++ calls /\ length calls <= 1).
  { intros _. split; [reflexivity|]. exists []. rewrite app_nil_r. simpl. auto. }
  destruct (meta_get (store_meta store_db) "name" (JStr "Unnamed"))
    as [chat_name|e]; [|intros [= <- <-]; now apply Hquiet].
  cbv zeta.
  destruct (_extract_messages (store_blobs store_db)) as [messages|e];
    [|intros [= <- <-]; now apply Hquiet].
  destruct messages as [|m ms].
  { intros [= <- <-]. split; [reflexivity|]. exists []. auto. }
  destruct (has_meaningful_messages (m :: ms)) eqn:Hmean; simpl negb; cbv iota.
  2:{ intros [= <- <-]. split; [reflexivity|]. exists (m :: ms).
      split; [reflexivity|]. split; [discriminate|]. auto. }
  pose proof (generate_summary_world agent m ms (summary_model cfg)
                (summary_max_words cfg) None w) as Hw.
  destruct (generate_summary agent (m :: ms) (summary_model cfg)
              (summary_max_words cfg) None w) as [summary w1].
  simpl in Hw. subst w1.
  destruct (is_summary_actionable summary) eqn:Hact; simpl negb; cbv iota.
  2:{ intros [= <- <-]. split; [reflexivity|]. exists (m :: ms).
      split; [reflexivity|]. simpl. auto. }
  destruct (Db.sql_text chat_name) as [name|e] eqn:Hname.
  - intros [= <- <-]. split; [reflexivity|]. exists (m :: ms).
    split; [reflexivity|]. simpl. split; [exact Hmean|]. split; [reflexivity|].
    destruct summary as [text|]; [|discriminate]. exists text, name. auto.
  - intros [= <- <-]. simpl. split; [reflexivity|].
    eexists. split; [reflexivity|]. simpl. lia.
Qed.

(** When the hook gets past its guards to a conversation that has no
    row yet, it does to the world what the backfill of that chat's store
    does, the workspace being what the hook's root is stored as: the same
    agent run, the same row written or none, and one raises exactly when
    the other does, with the same exception. *)
Theorem backfill_one_matches_hook :
  forall (skip_hooks : option string) (cfg : config)
         (loads : string -> option json) (raw_input : string)
         (chats : option (list chat_folder))
         (agent : string -> string -> option string) (now : Z) (w : world)
         (input : hook_input) (workspace_path : option string),
    main_prelude skip_hooks cfg loads raw_input chats = Ok (Some input) ->
    Db.sql_text (hook_chat_directory input) = Ok workspace_path ->
    Db.get_summary_state (summaries w) (hook_conversation_id input) = None ->
    exists store_db,
      find_chat_db_path chats (hook_conversation_id input) = Some store_db /\
      main skip_hooks cfg loads raw_input chats agent now w
      = match _process_single_chat cfg agent now (hook_conversation_id input)
                                   workspace_path store_db w with
        | (Ok _, w') => Ok w'
        | (Raise e, _) => Raise e
        end.
Proof.
  intros skip_hooks cfg loads raw_input chats agent now w input workspace_path
         Hreach Hdir Hrow.
  destruct (prelude_reaches _ _ _ _ _ _ Hreach)
    as (_ & _ & _ & store_db & Hfind & Hblobs & Hname & _).
  exists store_db. split; [exact Hfind|].
  rewrite (main_reaches _ _ _ _ _ agent now w input Hreach).
  unfold main_update, _process_single_chat. cbv zeta. rewrite Hrow, Hname, Hblobs.
  rewrite bool_decide_eq_true_2 by reflexivity. cbn [negb].
  destruct (_extract_messages (store_blobs store_db)) as [messages|e]; cbn [bind];
    [|reflexivity].
  destruct messages as [|m ms]; [reflexivity|].
  destruct (has_meaningful_messages (m :: ms)); cbn [negb]; [|reflexivity].
  destruct (generate_summary agent (m :: ms) (summary_model cfg)
              (summary_max_words cfg) None w) as [summary w1].
  destruct (is_summary_actionable summary); cbn [negb]; [|reflexivity].
  destruct (Db.sql_text (hook_chat_name input)) as [name|e]; cbn [bind];
    [|reflexivity].
  rewrite Hdir. reflexivity.
Qed.

Lemma backfill_one_matches_hook_witness :
  exists store_db,
    find_chat_db_path (hook_chats [blob_a; blob_c]) "conv" = Some store_db /\
    main None hook_config hook_loads "{payload}" (hook_chats [blob_a; blob_c])
         (canned (Some twelve_words)) 2000 (World ∅ [])
    = match _process_single_chat hook_config (canned (Some twelve_words)) 2000
                                 "conv" (Some "/Users/jane/dev/my-app") store_db
                                 (World ∅ []) with
      | (Ok _, w') => Ok w'
      | (Raise e, _) => Raise e
      end.
Proof.
  apply (backfill_one_matches_hook None hook_config hook_loads "{payload}"
           (hook_chats [blob_a; blob_c]) (canned (Some twelve_words)) 2000
           (World ∅ [])
           (HookInput "conv" (JStr "Login fix") (JStr "/Users/jane/dev/my-app")
                      [blob_a; blob_c])
           (Some "/Users/jane/dev/my-app")).
  - vm_compute. reflexivity.
  - reflexivity.
  - reflexivity.
Defined.

Lemma firstn_incl {A} (n : nat) (l : list A) (x : A) :
  In x (firstn n l) -> In x l.
Proof.
  revert l. induction n as [|n IH]; intros [|y l]; simpl; try tauto.
  intros [H | H]; auto.
Qed.

Lemma slice_to_incl {A} (n : Z) (l : list A) (x : A) :
  In x (slice_to n l) -> In x l.
Proof.
  unfold slice_to. destruct (0 <=? n)%Z; apply firstn_incl.
Qed.

Section Batch.
Variable cfg : config.
Variable agent : string -> string -> option string.
Variable clock : nat -> Z.
Variable sleep : outcome unit.

(** One round counts the chat once by its status or as failed, and at
    most once more as failed. *)
Lemma count_round_counts (i n : nat) (result : outcome (status * json)) (st : stats) :
  let st' := count_round sleep i n result st in
  total st' = total st /\
  skipped_exists st' = skipped_exists st /\
  handled st + 1 <= handled st' /\
  processed st' + skipped_no_messages st' + skipped_not_meaningful st'
  + skipped_not_actionable st'
  <= processed st + skipped_no_messages st + skipped_not_meaningful st
     + skipped_not_actionable st + 1 /\
  failed st' <= failed st + 1 /\
  processed st' <= processed st
                   + match result with Ok (Success, _) => 1 | _ => 0 end.
Proof.
  unfold count_round, handled.
  destruct result as [[result name]|e]; [|simpl; repeat split; lia].
  destruct (slice_30 name); [|destruct result; simpl; repeat split; lia].
  destruct result; try (simpl; repeat split; lia).
  destruct (i <? n)%nat; [|simpl; repeat split; lia].
  destruct sleep; simpl; repeat split; lia.
Qed.

(** A round counts the chat exactly once when the sleep returns and the
    name can be sliced. *)
Lemma count_round_once (i n : nat) (result : outcome (status * json)) (st : stats) :
  sleep = Ok tt ->
  (forall status name,
      result = Ok (status, name) -> exists cut, slice_30 name = Ok cut) ->
  handled (count_round sleep i n result st) = handled st + 1.
Proof.
  intros Hsleep Hname. unfold count_round, handled. rewrite Hsleep.
  destruct result as [[result name]|e]; [|simpl; lia].
  destruct (Hname result name eq_refl) as [cut ->].
  destruct result; try (simpl; lia).
  destruct (i <? n)%nat; simpl; lia.
Qed.

Lemma process_chats_counts (to_process : list chat) :
  forall i n st w,
    let st' := fst (process_chats cfg agent clock sleep i n to_process st w) in
    total st' = total st /\
    skipped_exists st' = skipped_exists st /\
    handled st + length to_process <= handled st' /\
    processed st' + skipped_no_messages st' + skipped_not_meaningful st'
    + skipped_not_actionable st'
    <= processed st + skipped_no_messages st + skipped_not_meaningful st
       + skipped_not_actionable st + length to_process /\
    failed st' <= failed st + length to_process.
Proof.
  induction to_process as [|c rest IH]; intros i n st w; simpl.
  - repeat split; lia.
  - destruct (_process_single_chat _ _ _ _ _ _ _) as [result w1].
    destruct (IH (S i) n (count_round sleep i n result st) w1)
      as (H1 & H2 & H3 & H4 & H5).
    destruct (count_round_counts i n result st) as (R1 & R2 & R3 & R4 & R5 & _).
    cbv zeta in *. rewrite H1, H2. repeat split; try assumption; lia.
Qed.

Lemma process_chats_exact (to_process : list chat) :
  sleep = Ok tt ->
  (forall c name,
      In c to_process ->
      meta_get (store_meta (chat_store c)) "name" (JStr "Unnamed") = Ok name ->
      exists cut, slice_30 name = Ok cut) ->
  forall i n st w,
    handled (fst (process_chats cfg agent clock sleep i n to_process st w))
    = handled st + length to_process.
Proof.
  intros Hsleep. induction to_process as [|c rest IH]; intros Hnames i n st w; simpl.
  - lia.
  - destruct (_process_single_chat _ _ _ _ _ _ _) as [result w1] eqn:Hone.
    rewrite IH by (intros c' name Hin; apply Hnames; simpl; auto).
    rewrite count_round_once; [lia | exact Hsleep |].
    intros status name ->. apply single_chat_cases in Hone as [Hname _].
    apply (Hnames c name); simpl; auto.
Qed.

Lemma process_chats_rows (to_process : list chat) :
  forall i n st w conversation_id row',
    summaries (snd (process_chats cfg agent clock sleep i n to_process st w))
      !! conversation_id
    = Some row' ->
    summaries w !! conversation_id = Some row' \/
    exists c,
      In c to_process /\
      chat_id c = conversation_id /\
      Db.chat_directory row' = chat_workspace c /\
      Db.blob_ids row' = List.map fst (store_blobs (chat_store c)) /\
      is_summary_actionable (Some (Db.summary_text row')) = true.
Proof.
  induction to_process as [|c rest IH]; intros i n st w conversation_id row'; simpl.
  - auto.
  - destruct (_process_single_chat _ _ _ _ _ _ _) as [result w1] eqn:Hone.
    intros H. apply IH in H as [H | (c' & Hin & H)]; [|right; eauto].
    apply single_chat_cases in Hone.
    destruct result as [[result name]|e].
    2:{ destruct Hone as [Htable _]. rewrite Htable in H. now left. }
    destruct Hone as (_ & messages & _ & Hcase).
    destruct result.
    + destruct Hcase as (_ & _ & text & bound & Hact & _ & Htable).
      rewrite Htable in H. unfold Db.upsert_summary in H.
      destruct (decide (chat_id c = conversation_id)) as [Heq | Hne].
      * rewrite Heq, lookup_insert_eq in H. injection H as <-.
        right. exists c. simpl. auto.
      * rewrite lookup_insert_ne in H by exact Hne. now left.
    + destruct Hcase as [_ ->]. now left.
    + destruct Hcase as (_ & _ & ->). now left.
    + destruct Hcase as (_ & Htable & _). rewrite Htable in H. now left.
Qed.

Lemma process_chats_keeps_others (to_process : list chat) :
  forall i n st w conversation_id,
    ~ In conversation_id (List.map chat_id to_process) ->
    summaries (snd (process_chats cfg agent clock sleep i n to_process st w))
      !! conversation_id
    = summaries w !! conversation_id.
Proof.
  induction to_process as [|c rest IH]; intros i n st w conversation_id Hnot; simpl.
  - reflexivity.
  - simpl in Hnot.
    destruct (_process_single_chat _ _ _ _ _ _ _) as [result w1] eqn:Hone.
    rewrite IH by tauto.
    apply single_chat_cases in Hone.
    destruct result as [[result name]|e].
    2:{ destruct Hone as [-> _]. reflexivity. }
    destruct Hone as (_ & messages & _ & Hcase).
    destruct result.
    + destruct Hcase as (_ & _ & text & bound & _ & _ & ->). unfold Db.upsert_summary.
      apply lookup_insert_ne. tauto.
    + now destruct Hcase as [_ ->].
    + now destruct Hcase as (_ & _ & ->).
    + destruct Hcase as (_ & -> & _). reflexivity.
Qed.

Lemma process_chats_calls (to_process : list chat) :
  forall i n st w,
    let run := process_chats cfg agent clock sleep i n to_process st w in
    exists calls,
      agent_calls (snd run) = agent_calls w ++ calls /\
      length calls <= length to_process /\
      processed (fst run) <= processed st + length calls.
Proof.
  induction to_process as [|c rest IH]; intros i n st w; simpl.
  - exists []. rewrite app_nil_r. simpl. repeat split; lia.
  - destruct (_process_single_chat _ _ _ _ _ _ _) as [result w1] eqn:Hone.
    destruct (IH (S i) n (count_round sleep i n result st) w1)
      as (calls & H1 & H2 & H3).
    destruct (count_round_counts i n result st) as (_ & _ & _ & _ & _ & Hp).
    cbv zeta in Hp.
    apply single_chat_cases in Hone.
    destruct result as [[result name]|e]; cbv iota beta in Hp.
    2:{ destruct Hone as (_ & first & Hc & Hlen). rewrite Hc, <- app_assoc in H1.
        eexists. split; [exact H1|]. rewrite length_app. split; lia. }
    destruct Hone as (_ & messages & _ & Hcase).
    destruct result; cbv iota beta in Hp.
    + destruct Hcase as (_ & Hc & _). rewrite Hc, <- app_assoc in H1.
      eexists. split; [exact H1|]. rewrite length_app. cbn [length]. split; lia.
    + destruct Hcase as [_ ->]. exists calls.
      split; [exact H1|]. cbn [length]. split; lia.
    + destruct Hcase as (_ & _ & ->). exists calls.
      split; [exact H1|]. cbn [length]. split; lia.
    + destruct Hcase as (_ & _ & Hc). rewrite Hc, <- app_assoc in H1.
      eexists. split; [exact H1|]. rewrite length_app. cbn [length]. split; lia.
Qed.

Lemma apply_limit_incl (limit : option Z) (l : list chat) (c : chat) :
  In c (apply_limit limit l) -> In c l.
Proof.
  unfold apply_limit. destruct limit as [n|]; [|auto].
  destruct (n =? 0)%Z; [auto | apply slice_to_incl].
Qed.

Lemma to_process_fresh (all_chats : list chat) (limit : option Z) (w : world) (c : chat) :
  In c (apply_limit limit (chats_to_process all_chats w)) ->
  In c all_chats /\
  known_workspace c = true /\
  Db.get_summary_state (summaries w) (chat_id c) = None.
Proof.
  intros H. apply apply_limit_incl in H. unfold chats_to_process in H.
  apply filter_In in H as [Hin H]. apply andb_true_iff in H as [Hk Hrow].
  split; [exact Hin|]. split; [exact Hk|].
  apply negb_true_iff, bool_decide_eq_false in Hrow.
  destruct (Db.get_summary_state _ _); [|reflexivity].
  exfalso. apply Hrow. eauto.
Qed.

(** The books of a batch.  [total] is the number of chats found and
    [skipped_exists] the number of those with a known workspace that already
    have a row.  A dry run stops there and changes nothing.  Otherwise every
    chat left after the limit is counted at least once; it is counted at
    most once by its status and at most once as failed, and both only when
    the progress line or the sleep raises after the status was counted:
    when the sleep returns and every chat name that is read can be sliced,
    every chat is counted exactly once.  The agent runs at most once per
    chat and at least once per chat counted as processed.  A limit of 0 is
    no limit. *)
Theorem backfill_accounting :
  forall (all_chats : list chat) (dry_run : bool) (limit : option Z) (w : world),
    let run := backfill_summaries cfg agent clock sleep all_chats dry_run limit w in
    let to_process := apply_limit limit (chats_to_process all_chats w) in
    total (fst run) = length all_chats /\
    skipped_exists (fst run)
    = length (List.filter
                (fun c => known_workspace c
                          && bool_decide
                               (is_Some (Db.get_summary_state (summaries w) (chat_id c))))
                all_chats) /\
    (dry_run = true -> snd run = w /\ handled (fst run) = 0) /\
    (dry_run = false ->
     length to_process <= handled (fst run) /\
     processed (fst run) + skipped_no_messages (fst run)
     + skipped_not_meaningful (fst run) + skipped_not_actionable (fst run)
     <= length to_process /\
     failed (fst run) <= length to_process /\
     (sleep = Ok tt ->
      (forall c name,
          In c to_process ->
          meta_get (store_meta (chat_store c)) "name" (JStr "Unnamed") = Ok name ->
          exists cut, slice_30 name = Ok cut) ->
      handled (fst run) = length to_process) /\
     exists calls,
       agent_calls (snd run) = agent_calls w ++ calls /\
       length calls <= length to_process /\
       processed (fst run) <= length calls) /\
    backfill_summaries cfg agent clock sleep all_chats dry_run (Some 0%Z) w
    = backfill_summaries cfg agent clock sleep all_chats dry_run None w.
Proof.
  intros all_chats dry_run limit w run to_process. subst run to_process.
  unfold backfill_summaries. cbv zeta.
  destruct dry_run.
  - simpl. repeat split; try reflexivity; discriminate.
  - set (to_process := apply_limit limit (chats_to_process all_chats w)).
    set (st := Stats (length all_chats) 0
                 (length (List.filter
                    (fun c => known_workspace c
                              && bool_decide
                                   (is_Some (Db.get_summary_state (summaries w)
                                               (chat_id c))))
                    all_chats)) 0 0 0 0).
    pose proof (process_chats_counts to_process 1 (length to_process) st w)
      as (H1 & H2 & H3 & H4 & H5).
    pose proof (process_chats_calls to_process 1 (length to_process) st w)
      as (calls & C1 & C2 & C3).
    cbv zeta in *. unfold handled in H3. simpl in H1, H2, H3, H4, H5, C3.
    split; [exact H1|]. split; [exact H2|]. split; [discriminate|].
    split; [|reflexivity]. intros _.
    split; [unfold handled; lia|]. split; [lia|]. split; [lia|].
    split.
    + intros Hsleep Hnames.
      rewrite (process_chats_exact to_process Hsleep Hnames). reflexivity.
    + exists calls. repeat split; assumption.
Qed.

(** A batch never overwrites: every row that was in the table before is
    still there, unchanged, afterwards.  A row that appears belongs to a chat
    of the list with a known workspace, which is the directory it records;
    it lists the blob ids of that chat and holds an actionable summary. *)
Theorem backfill_only_adds :
  forall (all_chats : list chat) (dry_run : bool) (limit : option Z) (w : world),
    let w' :=
      snd (backfill_summaries cfg agent clock sleep all_chats dry_run limit w) in
    (forall conversation_id r,
        summaries w !! conversation_id = Some r ->
        summaries w' !! conversation_id = Some r) /\
    (forall conversation_id row',
        summaries w' !! conversation_id = Some row' ->
        summaries w !! conversation_id = Some row' \/
        exists c,
          In c all_chats /\
          chat_id c = conversation_id /\
          known_workspace c = true /\
          Db.chat_directory row' = chat_workspace c /\
          Db.blob_ids row' = List.map fst (store_blobs (chat_store c)) /\
          is_summary_actionable (Some (Db.summary_text row')) = true).
Proof.
  intros all_chats dry_run limit w w'. subst w'.
  unfold backfill_summaries. cbv zeta.
  destruct dry_run; [simpl; split; auto|].
  split.
  - intros conversation_id r Hrow.
    rewrite process_chats_keeps_others; [exact Hrow|].
    intros Hin. apply in_map_iff in Hin as (c & Hid & Hin).
    apply to_process_fresh in Hin as (_ & _ & Hnone).
    unfold Db.get_summary_state in Hnone. congruence.
  - intros conversation_id row' H.
    apply process_chats_rows in H as [H | (c & Hin & Hid & Hdir & Hids & Hact)];
      [now left | right].
    apply to_process_fresh in Hin as (Hin & Hk & _).
    exists c. repeat split; assumption.
Qed.
End Batch.

(** With a sleep that returns and a chat named by a string, the one chat
    of a batch is counted once. *)
Lemma backfill_accounting_witness :
  handled
    (fst (backfill_summaries hook_config (canned (Some twelve_words))
            (fun _ => 2000%Z) (Ok tt) batch_of_one false None (World ∅ [])))
  = length batch_of_one.
Proof.
  destruct (backfill_accounting hook_config (canned (Some twelve_words))
              (fun _ => 2000%Z) (Ok tt) batch_of_one false None (World ∅ []))
    as (_ & _ & _ & Hrun & _).
  destruct (Hrun eq_refl) as (_ & _ & _ & Hexact & _).
  apply Hexact; [reflexivity|].
  intros c name [<- | []] Hname. vm_compute in Hname. injection Hname as <-.
  eexists. reflexivity.
Defined.

(** *** Discovery *)

Lemma fold_left_invariant {A B} (f : A -> B -> A) (P : A -> Prop) (l : list B) :
  forall a, P a -> (forall a b, In b l -> P a -> P (f a b)) -> P (fold_left f l a).
Proof.
  induction l as [|b l IH]; intros a Ha Hstep; simpl; [exact Ha|].
  apply IH; [apply Hstep; simpl; auto | intros a' b' Hb; apply Hstep; simpl; auto].
Qed.

Section Discovery.
Variable isdir : string -> bool.
Variable md5 : string -> string.

Lemma mapping_entry (projects : option (list (string * bool)))
      (hash path : string) :
  build_path_mapping isdir md5 projects !! hash = Some path ->
  isdir path = true /\ startswith "/" path = true /\ md5 path = hash /\
  exists folders name,
    projects = Some folders /\ In (name, true) folders /\
    startswith "Users-" name = true /\
    _resolve_folder_name_to_path isdir name = Some path.
Proof.
  unfold build_path_mapping. destruct projects as [folders|];
    [|rewrite lookup_empty; discriminate].
  revert hash path.
  apply (fold_left_invariant _
           (fun mapping : gmap string string =>
              forall hash path,
                mapping !! hash = Some path ->
                isdir path = true /\ startswith "/" path = true /\ md5 path = hash /\
                exists folders' name,
                  Some folders = Some folders' /\ In (name, true) folders' /\
                  startswith "Users-" name = true /\
                  _resolve_folder_name_to_path isdir name = Some path)).
  - intros hash path. rewrite lookup_empty. discriminate.
  - intros mapping [name is_dir] Hin IH hash path. simpl.
    destruct is_dir; simpl; [|apply IH].
    destruct (startswith "Users-" name) eqn:Hprefix; simpl; [|apply IH].
    destruct (truthy_path (_resolve_folder_name_to_path isdir name))
      as [resolved|] eqn:Hres; [|apply IH].
    apply truthy_path_Some in Hres.
    destruct (decide (md5 resolved = hash)) as [<- | Hne].
    + rewrite lookup_insert_eq. intros [= <-].
      destruct (resolve_sound isdir name resolved Hres) as [Hdir Habs].
      repeat split; try assumption. exists folders, name. auto.
    + rewrite lookup_insert_ne by exact Hne. apply IH.
Qed.

(** Every entry of the mapping is an existing, absolute directory filed
    under its own hash, decoded from a project folder whose name begins
    with "Users-". *)
Theorem path_mapping_sound (projects : option (list (string * bool)))
      (hash path : string) :
  build_path_mapping isdir md5 projects !! hash = Some path ->
  isdir path = true /\ startswith "/" path = true /\ md5 path = hash /\
  exists folders name,
    projects = Some folders /\ In (name, true) folders /\
    startswith "Users-" name = true /\
    _resolve_folder_name_to_path isdir name = Some path.
Proof. apply mapping_entry. Qed.

(** A chat is found exactly where a conversation folder holds a store,
    and the workspace it is given is what the mapping holds for its hash
    folder: when there is one, it is an existing absolute directory whose
    hash is the name of that folder. *)
Theorem discovered_workspaces_exist :
  forall (projects : option (list (string * bool))) (chats_dir : string)
         (listing : option (list hash_dir))
         (conversation_id : string) (workspace : option string) (store_db : string),
    In (conversation_id, workspace, store_db)
       (discover_all_chats (build_path_mapping isdir md5 projects) chats_dir listing)
    <->
    exists hash_dirs h c,
      listing = Some hash_dirs /\ In h hash_dirs /\ hash_is_dir h = true /\
      In c (hash_entries h) /\ conv_is_dir c = true /\ conv_has_store c = true /\
      conversation_id = conv_name c /\
      store_db = chats_dir +:+ "/" +:+ hash_name h +:+ "/" +:+ conv_name c
                   +:+ "/store.db" /\
      workspace = build_path_mapping isdir md5 projects !! hash_name h /\
      (forall path,
          workspace = Some path ->
          isdir path = true /\ startswith "/" path = true /\
          md5 path = hash_name h).
Proof.
  intros projects chats_dir listing conversation_id workspace store_db.
  unfold discover_all_chats. split.
  - destruct listing as [hash_dirs|]; [|intros []].
    intros H. apply in_concat in H as (found & Hfound & Hin).
    apply in_map_iff in Hfound as (h & <- & Hh).
    destruct (hash_is_dir h) eqn:Hdir; simpl in Hin; [|destruct Hin].
    apply in_concat in Hin as (one & Hone & Hin).
    apply in_map_iff in Hone as (c & <- & Hc).
    destruct (conv_is_dir c) eqn:Hcd; simpl in Hin; [|destruct Hin].
    destruct (conv_has_store c) eqn:Hcs; simpl in Hin; [|destruct Hin].
    destruct Hin as [[= <- <- <-] | []].
    exists hash_dirs, h, c. repeat split; try assumption; try reflexivity;
      apply mapping_entry in H; tauto.
  - intros (hash_dirs & h & c & -> & Hh & Hdir & Hc & Hcd & Hcs & -> & -> & -> & _).
    apply in_concat. eexists. split; [apply in_map, Hh|].
    rewrite Hdir. simpl. apply in_concat. eexists. split; [apply in_map, Hc|].
    rewrite Hcd, Hcs. simpl. auto.
Qed.

Lemma entry_survives (folders : list (string * bool)) (hash : string) :
  forall mapping : gmap string string,
    (exists stored, mapping !! hash = Some stored /\ md5 stored = hash /\
                    isdir stored = true) ->
    exists stored,
      fold_left
        (fun mapping folder =>
           if negb (snd folder) then mapping
           else if negb (startswith "Users-" (fst folder)) then mapping
           else
             match truthy_path (_resolve_folder_name_to_path isdir (fst folder)) with
             | Some resolved_path => <[md5 resolved_path := resolved_path]> mapping
             | None => mapping
             end)
        folders mapping !! hash = Some stored /\
      md5 stored = hash /\ isdir stored = true.
Proof.
  induction folders as [|[name is_dir] folders IH]; intros mapping Hm; simpl;
    [exact Hm|].
  apply IH.
  destruct is_dir; simpl; [|exact Hm].
  destruct (startswith "Users-" name); simpl; [|exact Hm].
  destruct (truthy_path (_resolve_folder_name_to_path isdir name))
    as [resolved|] eqn:Hres; [|exact Hm].
  apply truthy_path_Some, resolve_sound in Hres as [Hdir _].
  destruct (decide (md5 resolved = hash)) as [<- | Hne].
  - exists resolved. rewrite lookup_insert_eq. auto.
  - rewrite lookup_insert_ne by exact Hne. exact Hm.
Qed.

(** A project folder that decodes leaves an entry under the hash of its
    path: an existing directory with that hash, which is the path itself
    when no other path has the same hash. *)
Theorem path_mapping_holds_decoded_folders :
  forall (folders : list (string * bool)) (name path : string),
    In (name, true) folders ->
    startswith "Users-" name = true ->
    _resolve_folder_name_to_path isdir name = Some path ->
    exists stored,
      build_path_mapping isdir md5 (Some folders) !! md5 path = Some stored /\
      md5 stored = md5 path /\ isdir stored = true /\
      ((forall other, md5 other = md5 path -> other = path) -> stored = path).
Proof.
  intros folders name path Hin Hprefix Hres.
  assert (exists stored,
             build_path_mapping isdir md5 (Some folders) !! md5 path = Some stored /\
             md5 stored = md5 path /\ isdir stored = true) as (stored & Hs & Hh & Hd).
  { unfold build_path_mapping.
    apply in_split in Hin as (before & after & ->).
    rewrite fold_left_app. simpl. rewrite Hprefix. simpl.
    apply entry_survives.
    destruct (resolve_sound isdir name path Hres) as [Hdir Habs].
    assert (truthy_path (_resolve_folder_name_to_path isdir name) = Some path) as ->.
    { rewrite Hres. simpl. destruct path as [|c path]; [discriminate Habs|reflexivity]. }
    exists path. rewrite lookup_insert_eq. auto. }
  exists stored. repeat split; try assumption.
  intros Hinj. apply Hinj, Hh.
Qed.

End Discovery.

Lemma path_mapping_sound_witness :
  jane_tree "/Users/jane/dev/app" = true /\
  startswith "/" "/Users/jane/dev/app" = true /\
  tagged "/Users/jane/dev/app" = "digest of /Users/jane/dev/app" /\
  exists folders name,
    Some jane_projects = Some folders /\ In (name, true) folders /\
    startswith "Users-" name = true /\
    _resolve_folder_name_to_path jane_tree name = Some "/Users/jane/dev/app".
Proof.
  apply (path_mapping_sound jane_tree tagged (Some jane_projects)
           "digest of /Users/jane/dev/app" "/Users/jane/dev/app").
  vm_compute. reflexivity.
Defined.

Lemma path_mapping_holds_decoded_folders_witness :
  exists stored,
    build_path_mapping jane_tree tagged (Some jane_projects)
      !! tagged "/Users/jane/dev/app" = Some stored /\
    tagged stored = tagged "/Users/jane/dev/app" /\ jane_tree stored = true /\
    ((forall other, tagged other = tagged "/Users/jane/dev/app" ->
                    other = "/Users/jane/dev/app") ->
     stored = "/Users/jane/dev/app").
Proof.
  apply (path_mapping_holds_decoded_folders jane_tree tagged jane_projects
           "Users-jane-dev-app" "/Users/jane/dev/app").
  - simpl. auto.
  - reflexivity.
  - vm_compute. reflexivity.
Defined.

End BatchFacts.

(** ** search.py: keyword ranking and the agent's ranking *)

Module SearchFacts.
Import PyStr PyStrFacts Json Summarize Search Shapes BatchFacts.

(** *** The stable descending sort *)

Lemma insert_desc_perm {A} (key : A -> nat) (x : A) (l : list A) :
  Permutation (insert_desc key x l) (x :: l).
Proof.
  induction l as [|y l IH]; simpl; [reflexivity|].
  destruct (key x <? key y)%nat; [|reflexivity].
  rewrite IH. apply perm_swap.
Qed.

Lemma sort_desc_perm {A} (key : A -> nat) (l : list A) :
  Permutation (sort_desc key l) l.
Proof.
  induction l as [|x l IH]; simpl; [reflexivity|].
  rewrite insert_desc_perm. now constructor.
Qed.

Lemma insert_desc_sorted {A} (key : A -> nat) (x : A) (l : list A) :
  StronglySorted (fun a b => key b <= key a) l ->
  StronglySorted (fun a b => key b <= key a) (insert_desc key x l).
Proof.
  induction l as [|y l IH]; intros Hs; simpl.
  - repeat constructor.
  - inversion Hs as [|? ? Hl Hy]; subst.
    destruct (key x <? key y)%nat eqn:E.
    + apply Nat.ltb_lt in E. constructor; [now apply IH|].
      apply List.Forall_forall. intros b Hb.
      apply (Permutation_in _ (insert_desc_perm key x l)) in Hb as [<- | Hb]; [lia|].
      exact (proj1 (List.Forall_forall _ _) Hy b Hb).
    + apply Nat.ltb_ge in E. constructor; [exact Hs|].
      constructor; [exact E|].
      apply List.Forall_forall. intros b Hb.
      pose proof (proj1 (List.Forall_forall _ _) Hy b Hb). simpl in *. lia.
Qed.

Lemma sort_desc_sorted {A} (key : A -> nat) (l : list A) :
  StronglySorted (fun a b => key b <= key a) (sort_desc key l).
Proof.
  induction l as [|x l IH]; simpl; [constructor | now apply insert_desc_sorted].
Qed.

Lemma sorted_firstn {A} (R : A -> A -> Prop) (n : nat) (l : list A) :
  StronglySorted R l -> StronglySorted R (firstn n l).
Proof.
  revert l. induction n as [|n IH]; intros l Hs; [simpl; constructor|].
  destruct l as [|x l]; simpl; [constructor|].
  inversion Hs as [|? ? Hl Hx]; subst. constructor; [now apply IH|].
  apply List.Forall_forall. intros b Hb. apply firstn_incl in Hb.
  exact (proj1 (List.Forall_forall _ _) Hx b Hb).
Qed.

Lemma sorted_app {A} (R : A -> A -> Prop) (l1 l2 : list A) :
  StronglySorted R (l1 ++ l2) ->
  forall a b, In a l1 -> In b l2 -> R a b.
Proof.
  induction l1 as [|x l1 IH]; intros Hs a b Ha Hb; [destruct Ha|].
  simpl in Hs. inversion Hs as [|? ? Hl Hx]; subst.
  destruct Ha as [<- | Ha]; [|now apply IH].
  apply (proj1 (List.Forall_forall _ _) Hx). apply in_or_app. now right.
Qed.

Lemma sorted_map {A B} (R : A -> A -> Prop) (R' : B -> B -> Prop)
      (f : A -> B) (l : list A) :
  (forall a b, In a l -> In b l -> R a b -> R' (f a) (f b)) ->
  StronglySorted R l -> StronglySorted R' (List.map f l).
Proof.
  induction l as [|x l IH]; intros Hf Hs; simpl; [constructor|].
  inversion Hs as [|? ? Hl Hx]; subst. constructor.
  - apply IH; [|exact Hl]. intros a b Ha Hb. apply Hf; simpl; auto.
  - apply List.Forall_forall. intros b Hb.
    apply in_map_iff in Hb as (a & <- & Ha).
    apply Hf; simpl; auto.
    exact (proj1 (List.Forall_forall _ _) Hx a Ha).
Qed.

(** *** [_fallback_ranking] *)

Lemma score_positive (keywords : gset string) (s : summary) :
  0 < score keywords s ->
  exists kw, kw ∈ keywords /\ contains kw (haystack s) = true.
Proof.
  unfold score.
  destruct (List.filter _ (elements keywords)) as [|kw rest] eqn:E;
    [simpl; lia|].
  intros _. assert (In kw (List.filter (fun kw => contains kw (haystack s))
                                       (elements keywords))) as Hin
      by (rewrite E; simpl; auto).
  apply filter_In in Hin as [Hin Hc].
  exists kw. split; [|exact Hc].
  apply elem_of_elements, list_elem_of_In, Hin.
Qed.

(** The scored pairs behind a keyword ranking. *)
Lemma scored_pairs (keywords : gset string) (summaries : list summary)
      (p : nat * summary) :
  In p (sort_desc fst
          (List.filter (fun p => (0 <? fst p)%nat)
             (List.map (fun s => (score keywords s, s)) summaries)))
  <-> In (snd p) summaries /\ fst p = score keywords (snd p) /\ 0 < fst p.
Proof.
  split.
  - intros H. apply (Permutation_in _ (sort_desc_perm _ _)) in H.
    apply filter_In in H as [H Hpos]. apply Nat.ltb_lt in Hpos.
    apply in_map_iff in H as (s & <- & Hs). simpl. auto.
  - intros (Hs & Hf & Hpos).
    apply (Permutation_in _ (Permutation_sym (sort_desc_perm _ _))).
    apply filter_In. split; [|now apply Nat.ltb_lt].
    apply in_map_iff. exists (snd p). split; [|exact Hs].
    destruct p; simpl in *; congruence.
Qed.

Lemma fallback_ranking_members :
  forall (description : string) (summaries : list summary) (max_results : Z)
         (r : ranked),
    In r (_fallback_ranking description summaries max_results) ->
    In (entry r) summaries /\
    reason r = JStr "Keyword match" /\
    exists kw, In kw (split_ws (lower description)) /\
               contains kw (haystack (entry r)) = true.
Proof.
  intros description summaries max_results r. unfold _fallback_ranking.
  intros H. apply in_map_iff in H as (p & <- & Hp).
  apply slice_to_incl, scored_pairs in Hp as (Hs & Hf & Hpos).
  simpl. repeat split; [exact Hs|].
  rewrite Hf in Hpos. apply score_positive in Hpos as (kw & Hkw & Hc).
  exists kw. split; [|exact Hc].
  apply elem_of_list_to_set, list_elem_of_In in Hkw. exact Hkw.
Qed.

(** A keyword ranking lists only given summaries in which a word of the
    description occurs, each with the reason "Keyword match". *)
Theorem fallback_ranking_sound :
  forall (description : string) (summaries : list summary) (max_results : Z)
         (r : ranked),
    In r (_fallback_ranking description summaries max_results) ->
    In (entry r) summaries /\
    reason r = JStr "Keyword match" /\
    exists kw, In kw (split_ws (lower description)) /\
               contains kw (haystack (entry r)) = true.
Proof. exact fallback_ranking_members. Qed.

(** A keyword ranking is in descending order of the number of words of
    the description that occur in a summary. *)
Theorem fallback_ranking_sorted :
  forall (description : string) (summaries : list summary) (max_results : Z),
    StronglySorted
      (fun a b =>
         score (list_to_set (split_ws (lower description))) (entry b)
         <= score (list_to_set (split_ws (lower description))) (entry a))
      (_fallback_ranking description summaries max_results).
Proof.
  intros description summaries max_results. unfold _fallback_ranking.
  set (keywords := list_to_set (split_ws (lower description)) : gset string).
  set (sorted := sort_desc fst _).
  apply (sorted_map (fun a b => fst b <= fst a)).
  - intros a b Ha Hb Hab. simpl.
    apply slice_to_incl, scored_pairs in Ha as (_ & <- & _).
    apply slice_to_incl, scored_pairs in Hb as (_ & <- & _). exact Hab.
  - unfold slice_to. destruct (0 <=? max_results)%Z;
      apply sorted_firstn, sort_desc_sorted.
Qed.

(** With a limit that is not negative a keyword ranking has at most that
    many results, and a matching summary is left out only when the
    ranking is full and nothing in it matches fewer words. *)
Theorem fallback_ranking_best_first :
  forall (description : string) (summaries : list summary) (max_results : Z)
         (s : summary),
    (0 <= max_results)%Z ->
    In s summaries ->
    0 < score (list_to_set (split_ws (lower description))) s ->
    length (_fallback_ranking description summaries max_results)
    <= Z.to_nat max_results /\
    (In s (List.map entry (_fallback_ranking description summaries max_results)) \/
     (length (_fallback_ranking description summaries max_results)
      = Z.to_nat max_results /\
      forall r, In r (_fallback_ranking description summaries max_results) ->
                score (list_to_set (split_ws (lower description))) s
                <= score (list_to_set (split_ws (lower description))) (entry r))).
Proof.
  intros description summaries max_results s Hn Hs Hpos.
  unfold _fallback_ranking.
  set (keywords := list_to_set (split_ws (lower description)) : gset string) in *.
  set (sorted := sort_desc fst _).
  unfold slice_to. apply Z.leb_le in Hn. rewrite Hn.
  set (n := Z.to_nat max_results).
  rewrite !length_map. split; [rewrite length_firstn; lia|].
  assert (In (score keywords s, s) sorted) as Hin
      by (apply scored_pairs; simpl; auto).
  rewrite <- (firstn_skipn n sorted) in Hin.
  apply in_app_or in Hin as [Hin | Hin].
  - left. rewrite map_map. apply in_map_iff. now exists (score keywords s, s).
  - right. split.
    + rewrite length_firstn.
      destruct (le_lt_dec (length sorted) n) as [Hle | Hlt]; [|lia].
      rewrite skipn_all2 in Hin by exact Hle. destruct Hin.
    + intros r Hr. apply in_map_iff in Hr as (p & <- & Hp). simpl.
      pose proof (sort_desc_sorted fst
                    (List.filter (fun p => (0 <? fst p)%nat)
                       (List.map (fun s => (score keywords s, s)) summaries)))
        as Hsorted.
      fold sorted in Hsorted. rewrite <- (firstn_skipn n sorted) in Hsorted.
      pose proof (sorted_app _ _ _ Hsorted p _ Hp Hin) as Hle. simpl in Hle.
      apply firstn_incl, scored_pairs in Hp as (_ & <- & _). exact Hle.
Qed.

(** *** The bracketed span of a reply *)

Lemma endswith_append (p suf : string) : endswith suf (p +:+ suf) = true.
Proof.
  induction p as [|c p IH].
  - destruct suf as [|x suf]; [reflexivity|]. simpl.
    rewrite Ascii.eqb_refl, String.eqb_refl. reflexivity.
  - change (String c p +:+ suf) with (String c (p +:+ suf)).
    simpl. fold (endswith suf (p +:+ suf)). rewrite IH. apply orb_true_r.
Qed.

Lemma find_first (sub s : string) (i : nat) :
  sub <> "" -> find sub s = Some i -> contains sub (take i s) = false.
Proof.
  intros Hsub Hfind. destruct (contains sub (take i s)) eqn:Hc; [|reflexivity].
  exfalso. apply contains_iff in Hc as (p & q & Hp).
  pose proof (find_Some_split _ _ _ Hfind) as [Hsplit Hlen].
  rewrite Hp in Hsplit, Hlen. rewrite !append_assoc in Hsplit.
  rewrite Hsplit in Hfind. apply find_le in Hfind.
  rewrite !length_append in Hlen.
  destruct sub; [congruence | simpl in Hlen; lia].
Qed.

Lemma drop_at_find (sub s : string) (i : nat) :
  find sub s = Some i -> drop i s = sub +:+ drop (i + String.length sub) s.
Proof.
  intros H. apply find_Some_split in H as [Hsplit Hlen].
  remember (take i s) as before. remember (drop (i + String.length sub) s) as rest.
  rewrite Hsplit, <- Hlen. apply SessionEndFacts.drop_append.
Qed.

Lemma through_last_spec (c : ascii) (s : string) :
  match through_last c s with
  | Some t => exists pre post,
                t = pre +:+ String c "" /\ s = t +:+ post /\
                contains (String c "") post = false
  | None => contains (String c "") s = false
  end.
Proof.
  induction s as [|d s IH].
  - reflexivity.
  - simpl through_last. destruct (through_last c s) as [t|].
    + destruct IH as (pre & post & -> & -> & Hpost).
      exists (String d pre), post. auto.
    + destruct (Ascii.eqb d c) eqn:E.
      * apply Ascii.eqb_eq in E as ->. exists "", s. auto.
      * apply Ascii.eqb_neq in E. apply contains_false_iff.
        apply contains_false_iff in IH. rewrite find_cons, IH.
        rewrite startswith_head_ne by congruence. reflexivity.
Qed.

Lemma search_array_without_open (response : string) :
  contains "[" response = false -> search_array response = None.
Proof.
  intros H. apply contains_false_iff in H. unfold search_array. now rewrite H.
Qed.

Lemma search_array_without_close (response : string) :
  contains "]" response = false -> search_array response = None.
Proof.
  intros H. unfold search_array.
  destruct (find "[" response) as [i|] eqn:Hfind; [|reflexivity].
  pose proof (through_last_spec "]" (drop i response)) as Hspec.
  destruct (through_last "]" (drop i response)) as [t|]; [|reflexivity].
  destruct Hspec as (pre & post & -> & Hdrop & _).
  pose proof (drop_at_find _ _ _ Hfind) as Hd.
  apply find_Some_split in Hfind as [Hsplit Hlen].
  assert (contains "]" response = true) as Hc; [|congruence].
  apply contains_iff. exists (take i response +:+ pre), post.
  rewrite Hsplit at 1. rewrite <- Hd, Hdrop, !append_assoc. reflexivity.
Qed.

(** The text handed to the parser runs from the first "[" of the reply
    through its last "]". *)
Theorem ranking_array_span :
  forall (response text : string),
    search_array response = Some text ->
    exists before after,
      response = before +:+ text +:+ after /\
      contains "[" before = false /\ contains "]" after = false /\
      startswith "[" text = true /\ endswith "]" text = true.
Proof.
  intros response text. unfold search_array.
  destruct (find "[" response) as [i|] eqn:Hfind; [|discriminate].
  pose proof (through_last_spec "]" (drop i response)) as Hspec.
  intros Ht. rewrite Ht in Hspec. destruct Hspec as (pre & post & -> & Hdrop & Hpost).
  pose proof (find_first "[" response i ltac:(discriminate) Hfind) as Hbefore.
  pose proof (drop_at_find _ _ _ Hfind) as Hd.
  apply find_Some_split in Hfind as [Hsplit Hlen].
  exists (take i response), post. repeat split.
  - rewrite Hsplit at 1. rewrite <- Hd, Hdrop. reflexivity.
  - exact Hbefore.
  - exact Hpost.
  - rewrite Hd in Hdrop. destruct pre as [|x pre].
    + simpl in Hdrop. discriminate Hdrop.
    + simpl in Hdrop. injection Hdrop as <- _.
      exact (startswith_append "[" (pre +:+ "]")).
  - apply endswith_append.
Qed.

Lemma ranking_array_span_witness :
  exists before after,
    "Sure: [1] and [2]. Done" = before +:+ "[1] and [2]" +:+ after /\
    contains "[" before = false /\ contains "]" after = false /\
    startswith "[" "[1] and [2]" = true /\ endswith "]" "[1] and [2]" = true.
Proof.
  apply (ranking_array_span "Sure: [1] and [2]. Done" "[1] and [2]").
  vm_compute. reflexivity.
Defined.

(** *** [_parse_ranking_response] *)

Lemma summary_map_lookup (summaries : list summary) (conv_id : string) (s : summary) :
  summary_map summaries !! conv_id = Some s ->
  In s summaries /\ conversation_id s = conv_id.
Proof.
  unfold summary_map. revert conv_id s.
  apply (fold_left_invariant _
           (fun m : gmap string summary =>
              forall conv_id s, m !! conv_id = Some s ->
                                In s summaries /\ conversation_id s = conv_id)).
  - intros conv_id s. rewrite lookup_empty. discriminate.
  - intros m s' Hin IH conv_id s.
    destruct (decide (conversation_id s' = conv_id)) as [<- | Hne].
    + rewrite lookup_insert_eq. intros [= <-]. auto.
    + rewrite lookup_insert_ne by exact Hne. apply IH.
Qed.

Lemma ranked_results_cases (map : gmap string summary) (item : json)
      (ranked_ids : list json) :
  (exists fields conv_id s,
      item = JObj fields /\ dict_get fields "id" = Some (JStr conv_id) /\
      map !! conv_id = Some s /\
      ranked_results map (item :: ranked_ids)
      = try! rest := ranked_results map ranked_ids in
        Ok (Ranked s (default (JStr "") (dict_get fields "reason")) :: rest)) \/
  (exists fields,
      item = JObj fields /\
      ((exists items, dict_get fields "id" = Some (JArr items)) \/
       (exists inner, dict_get fields "id" = Some (JObj inner))) /\
      ranked_results map (item :: ranked_ids) = Raise TypeError) \/
  ((forall fields,
       item = JObj fields ->
       (forall items, dict_get fields "id" <> Some (JArr items)) /\
       (forall inner, dict_get fields "id" <> Some (JObj inner)) /\
       (forall conv_id, dict_get fields "id" = Some (JStr conv_id) ->
                        map !! conv_id = None)) /\
   ranked_results map (item :: ranked_ids) = ranked_results map ranked_ids).
Proof.
  destruct item as [| b | n | t | items | fields];
    try (right; right; split; [intros ? [=] | reflexivity]).
  simpl. destruct (dict_get fields "id") as [[| b | n | conv_id | items | inner]|] eqn:E;
    try (right; right; split; [|reflexivity]; intros ? [= <-]; rewrite E;
         repeat split; intros; congruence).
  - destruct (map !! conv_id) as [s|] eqn:Hs.
    + left. exists fields, conv_id, s. auto.
    + right; right. split; [|reflexivity]. intros ? [= <-]. rewrite E.
      repeat split; intros; congruence.
  - right; left. exists fields. split; [reflexivity|]. split; [|reflexivity].
    left. now exists items.
  - right; left. exists fields. split; [reflexivity|]. split; [|reflexivity].
    right. now exists inner.
Qed.

Lemma ranked_results_sound (map : gmap string summary) (ranked_ids : list json) :
  forall results,
    ranked_results map ranked_ids = Ok results ->
    length results <= length ranked_ids /\
    forall r, In r results ->
              exists fields conv_id,
                In (JObj fields) ranked_ids /\
                dict_get fields "id" = Some (JStr conv_id) /\
                map !! conv_id = Some (entry r) /\
                reason r = default (JStr "") (dict_get fields "reason").
Proof.
  induction ranked_ids as [|item ranked_ids IH]; intros results.
  - intros [= <-]. split; [simpl; lia | intros r []].
  - destruct (ranked_results_cases map item ranked_ids)
      as [(fields & conv_id & s & -> & Hid & Hs & ->)
         | [(fields & _ & _ & ->) | [_ ->]]].
    + destruct (ranked_results map ranked_ids) as [rest|e]; simpl; [|discriminate].
      intros [= <-]. destruct (IH rest eq_refl) as [Hlen Hrest].
      split; [simpl; lia|].
      intros r [<- | Hr].
      * exists fields, conv_id. simpl. auto.
      * destruct (Hrest r Hr) as (f & c & Hin & H). exists f, c. simpl. auto.
    + discriminate.
    + intros H. destruct (IH results H) as [Hlen Hrest].
      split; [simpl; lia|].
      intros r Hr. destruct (Hrest r Hr) as (f & c & Hin & H'). exists f, c.
      simpl. auto.
Qed.

Lemma ranked_results_raises (map : gmap string summary) (ranked_ids : list json)
      (fields : list (string * json)) :
  In (JObj fields) ranked_ids ->
  (exists items, dict_get fields "id" = Some (JArr items)) \/
  (exists inner, dict_get fields "id" = Some (JObj inner)) ->
  ranked_results map ranked_ids = Raise TypeError.
Proof.
  intros Hin Hid. induction ranked_ids as [|item ranked_ids IH]; [destruct Hin|].
  destruct (ranked_results_cases map item ranked_ids)
    as [(f & conv_id & s & -> & Hf & Hs & ->)
       | [(f & _ & _ & ->) | [Hnone ->]]].
  - destruct Hin as [[= ->] | Hin].
    + destruct Hid as [[? Hid] | [? Hid]]; congruence.
    + rewrite (IH Hin). reflexivity.
  - reflexivity.
  - destruct Hin as [-> | Hin]; [|exact (IH Hin)].
    destruct (Hnone fields eq_refl) as (Ha & Ho & _).
    destruct Hid as [[? Hid] | [? Hid]]; [now apply Ha in Hid | now apply Ho in Hid].
Qed.

Section Parser.
Variable loads_array : string -> option (list json).

Lemma parsed_ranking_names_known (response : string) (summaries : list summary)
      (results : list ranked) :
  _parse_ranking_response loads_array response summaries = Ok results ->
  forall r, In r results -> In (entry r) summaries.
Proof.
  unfold _parse_ranking_response.
  destruct (search_array response) as [text|]; [|intros [= <-] r []].
  destruct (loads_array text) as [ranked_ids|]; [|intros [= <-] r []].
  intros H r Hr.
  destruct (ranked_results_sound _ _ _ H) as [_ Hall].
  destruct (Hall r Hr) as (fields & conv_id & _ & _ & Hs & _).
  now apply summary_map_lookup in Hs as [Hs _].
Qed.

(** What a parsed ranking holds was named by the reply and is known:
    every result is a given summary whose id an object of the reply's
    array gives as its "id", with that object's "reason" (the empty text
    when it has none), and there are no more results than array items. *)
Theorem parsed_ranking_names_known_chats :
  forall (response : string) (summaries : list summary) (results : list ranked),
    _parse_ranking_response loads_array response summaries = Ok results ->
    forall r, In r results ->
      In (entry r) summaries /\
      exists text ranked_ids fields,
        search_array response = Some text /\
        loads_array text = Some ranked_ids /\
        length results <= length ranked_ids /\
        In (JObj fields) ranked_ids /\
        dict_get fields "id" = Some (JStr (conversation_id (entry r))) /\
        reason r = default (JStr "") (dict_get fields "reason").
Proof.
  intros response summaries results. unfold _parse_ranking_response.
  destruct (search_array response) as [text|]; [|intros [= <-] r []].
  destruct (loads_array text) as [ranked_ids|] eqn:Hload; [|intros [= <-] r []].
  intros H r Hr.
  destruct (ranked_results_sound _ _ _ H) as [Hlen Hall].
  destruct (Hall r Hr) as (fields & conv_id & Hin & Hid & Hs & Hreason).
  apply summary_map_lookup in Hs as [Hs <-].
  split; [exact Hs|]. exists text, ranked_ids, fields.
  repeat split; try reflexivity; assumption.
Qed.

(** *** [rank_summaries] *)

Lemma fallback_ranking_nil (description : string) (max_results : Z) :
  _fallback_ranking description [] max_results = [].
Proof.
  unfold _fallback_ranking, slice_to. simpl.
  destruct (0 <=? max_results)%Z; rewrite ?firstn_nil; reflexivity.
Qed.

Lemma fallback_ranking_length (description : string) (candidates : list summary)
      (max_results : Z) :
  (0 <= max_results)%Z ->
  length (_fallback_ranking description candidates max_results)
  <= Z.to_nat max_results.
Proof.
  intros Hn. unfold _fallback_ranking, slice_to. apply Z.leb_le in Hn.
  rewrite Hn, length_map, length_firstn. lia.
Qed.

Lemma rank_summaries_cases (agent : string -> string -> option string)
      (description : string) (candidates : list summary) (model : string)
      (max_results : Z) (use_llm : bool) (w : world) :
  let prompt := ranking_prompt description candidates max_results in
  let called := World (summaries w) (agent_calls w ++ [(prompt, model)]) in
  let fallback := Ok (_fallback_ranking description candidates max_results) in
  (candidates = [] \/ use_llm = false) /\
  rank_summaries loads_array agent description candidates model max_results
                 use_llm w = (fallback, w)
  \/
  candidates <> [] /\ use_llm = true /\
  (nonempty (agent prompt model) = false /\
   rank_summaries loads_array agent description candidates model max_results
                  use_llm w = (fallback, called)
   \/
   exists response,
     agent prompt model = Some response /\ response <> "" /\
     match _parse_ranking_response loads_array response candidates with
     | Raise e =>
         rank_summaries loads_array agent description candidates model max_results
                        use_llm w = (Raise e, called)
     | Ok [] =>
         rank_summaries loads_array agent description candidates model max_results
                        use_llm w = (fallback, called)
     | Ok ranked =>
         rank_summaries loads_array agent description candidates model max_results
                        use_llm w = (Ok (slice_to max_results ranked), called)
     end).
Proof.
  intros prompt called fallback.
  destruct candidates as [|s candidates].
  - left. split; [now left|]. unfold fallback. now rewrite fallback_ranking_nil.
  - destruct use_llm; [|left; split; [now right | reflexivity]].
    right. split; [discriminate|]. split; [reflexivity|].
    unfold rank_summaries, run_agent. cbv iota beta. simpl negb. cbv iota.
    fold prompt. fold called.
    destruct (agent prompt model) as [response|] eqn:Hreply; simpl nonempty;
      [|left; split; reflexivity].
    destruct (String.eqb response "") eqn:E; simpl negb; cbv iota.
    + left. split; reflexivity.
    + right. exists response. apply String.eqb_neq in E.
      split; [reflexivity|]. split; [exact E|]. simpl default.
      destruct (_parse_ranking_response loads_array response (s :: candidates))
        as [[|r ranked]|e]; reflexivity.
Qed.

(** Whichever way a ranking is made, with a limit that is not negative
    it has at most that many results, every result is one of the given
    summaries, the database is left alone, and the agent is run once for
    a smart search over a non-empty list and not at all otherwise. *)
Theorem rank_summaries_bounded :
  forall (agent : string -> string -> option string) (description : string)
         (candidates : list summary) (model : string) (max_results : Z)
         (use_llm : bool) (w w' : world) (results : list ranked),
    (0 <= max_results)%Z ->
    rank_summaries loads_array agent description candidates model max_results
                   use_llm w = (Ok results, w') ->
    length results <= Z.to_nat max_results /\
    (forall r, In r results -> In (entry r) candidates) /\
    summaries w' = summaries w /\
    agent_calls w'
    = agent_calls w ++
        match candidates with
        | [] => []
        | _ => if use_llm
               then [(ranking_prompt description candidates max_results, model)]
               else []
        end.
Proof.
  intros agent description candidates model max_results use_llm w w' results Hn.
  assert (forall r,
             In r (_fallback_ranking description candidates max_results) ->
             In (entry r) candidates) as Hfb
      by (intros r Hr; now apply fallback_ranking_members in Hr).
  pose proof (fallback_ranking_length description candidates max_results Hn) as Hlen.
  destruct (rank_summaries_cases agent description candidates model max_results
              use_llm w) as [[Hwhich ->] | (Hne & -> & Hcase)].
  - intros [= <- <-]. repeat split; [exact Hlen | exact Hfb |].
    destruct Hwhich as [-> | ->]; [|destruct candidates];
      now rewrite app_nil_r.
  - assert (match candidates with
            | [] => []
            | _ :: _ => [(ranking_prompt description candidates max_results, model)]
            end = [(ranking_prompt description candidates max_results, model)]) as ->
        by (destruct candidates; [congruence | reflexivity]).
    destruct Hcase as [[_ ->] | (response & _ & _ & Hparse)].
    + intros [= <- <-]. repeat split; assumption.
    + destruct (_parse_ranking_response loads_array response candidates)
        as [[|r0 ranked]|e] eqn:Hp; rewrite Hparse.
      * intros [= <- <-]. repeat split; assumption.
      * intros [= <- <-]. split; [|split; [|split; reflexivity]].
        -- unfold slice_to. apply Z.leb_le in Hn. rewrite Hn, length_firstn. lia.
        -- intros r Hr. apply slice_to_incl in Hr.
           now apply (parsed_ranking_names_known response candidates _ Hp).
      * discriminate.
Qed.

(** A smart search whose agent gives nothing usable (no reply, an empty
    one, one without "[" or without "]", or one the parser rejects)
    returns the keyword ranking. *)
Theorem smart_search_falls_back :
  forall (agent : string -> string -> option string) (description : string)
         (candidates : list summary) (model : string) (max_results : Z) (w : world),
    (match agent (ranking_prompt description candidates max_results) model with
     | None => True
     | Some response =>
         response = "" \/ contains "[" response = false \/
         contains "]" response = false \/
         exists text, search_array response = Some text /\ loads_array text = None
     end) ->
    fst (rank_summaries loads_array agent description candidates model max_results
                        true w)
    = Ok (_fallback_ranking description candidates max_results).
Proof.
  intros agent description candidates model max_results w Hreply.
  destruct (rank_summaries_cases agent description candidates model max_results
              true w) as [[_ ->] | (_ & _ & [[_ ->] | (response & Hr & Hne & Hparse)])];
    try reflexivity.
  rewrite Hr in Hreply.
  assert (_parse_ranking_response loads_array response candidates = Ok []) as Hp.
  { unfold _parse_ranking_response.
    destruct Hreply as [-> | [H | [H | (text & -> & ->)]]];
      [congruence | | | reflexivity].
    - now rewrite search_array_without_open.
    - now rewrite search_array_without_close. }
  rewrite Hp in Hparse. now rewrite Hparse.
Qed.

(** A smart search crashes with a TypeError, instead of falling back,
    when an object of the agent's array gives a list or an object as its
    "id". *)
Theorem unhashable_id_raises :
  forall (agent : string -> string -> option string) (description : string)
         (candidates : list summary) (model : string) (max_results : Z) (w : world)
         (response text : string) (ranked_ids : list json)
         (fields : list (string * json)),
    candidates <> [] ->
    agent (ranking_prompt description candidates max_results) model = Some response ->
    search_array response = Some text ->
    loads_array text = Some ranked_ids ->
    In (JObj fields) ranked_ids ->
    (exists items, dict_get fields "id" = Some (JArr items)) \/
    (exists inner, dict_get fields "id" = Some (JObj inner)) ->
    fst (rank_summaries loads_array agent description candidates model max_results
                        true w)
    = Raise TypeError.
Proof.
  intros agent description candidates model max_results w response text ranked_ids
         fields Hne Hreply Hspan Hload Hin Hid.
  assert (_parse_ranking_response loads_array response candidates = Raise TypeError)
    as Hp.
  { unfold _parse_ranking_response. rewrite Hspan, Hload.
    exact (ranked_results_raises _ _ _ Hin Hid). }
  destruct (rank_summaries_cases agent description candidates model max_results
              true w) as [[[H | H] _] | (_ & _ & [[Hempty _] | (r & Hr & _ & Hparse)])].
  - contradiction.
  - discriminate.
  - rewrite Hreply in Hempty. simpl in Hempty.
    destruct response; [discriminate Hspan | discriminate Hempty].
  - rewrite Hreply in Hr. injection Hr as <-. rewrite Hp in Hparse.
    now rewrite Hparse.
Qed.

End Parser.

Lemma fallback_ranking_sound_witness :
  In chat_auth sample_summaries /\
  JStr "Keyword match" = JStr "Keyword match" /\
  exists kw, In kw (split_ws (lower "Login TOKEN")) /\
             contains kw (haystack chat_auth) = true.
Proof.
  apply (fallback_ranking_sound "Login TOKEN" sample_summaries 2
           (Ranked chat_auth (JStr "Keyword match"))).
  vm_compute. auto.
Defined.

Lemma fallback_ranking_best_first_witness :
  length (_fallback_ranking "Login TOKEN" sample_summaries 1) <= Z.to_nat 1 /\
  (In chat_css (List.map entry (_fallback_ranking "Login TOKEN" sample_summaries 1)) \/
   (length (_fallback_ranking "Login TOKEN" sample_summaries 1) = Z.to_nat 1 /\
    forall r, In r (_fallback_ranking "Login TOKEN" sample_summaries 1) ->
              score (list_to_set (split_ws (lower "Login TOKEN"))) chat_css
              <= score (list_to_set (split_ws (lower "Login TOKEN"))) (entry r))).
Proof.
  apply (fallback_ranking_best_first "Login TOKEN" sample_summaries 1 chat_css).
  - lia.
  - simpl. auto.
  - apply Nat.ltb_lt. vm_compute. reflexivity.
Defined.

Lemma parsed_ranking_names_known_chats_witness :
  In chat_auth sample_summaries /\
  exists text ranked_ids fields,
    search_array "Ranked: [...]" = Some text /\
    parsed_as ranked_reply text = Some ranked_ids /\
    length [Ranked chat_auth (JStr "best")] <= length ranked_ids /\
    In (JObj fields) ranked_ids /\
    dict_get fields "id" = Some (JStr "c1") /\
    JStr "best" = default (JStr "") (dict_get fields "reason").
Proof.
  exact (parsed_ranking_names_known_chats (parsed_as ranked_reply) "Ranked: [...]"
           sample_summaries [Ranked chat_auth (JStr "best")]
           ltac:(vm_compute; reflexivity)
           (Ranked chat_auth (JStr "best")) ltac:(simpl; auto)).
Defined.

Lemma rank_summaries_bounded_witness :
  length [Ranked chat_auth (JStr "best")] <= Z.to_nat 3 /\
  (forall r, In r [Ranked chat_auth (JStr "best")] -> In (entry r) sample_summaries) /\
  summaries (World ∅ [(ranking_prompt "login" sample_summaries 3, "grok")])
  = summaries (World ∅ []) /\
  agent_calls (World ∅ [(ranking_prompt "login" sample_summaries 3, "grok")])
  = agent_calls (World ∅ []) ++
      [(ranking_prompt "login" sample_summaries 3, "grok")].
Proof.
  apply (rank_summaries_bounded (parsed_as ranked_reply)
           (canned (Some "Ranked: [...]")) "login" sample_summaries "grok" 3 true
           (World ∅ [])
           (World ∅ [(ranking_prompt "login" sample_summaries 3, "grok")])
           [Ranked chat_auth (JStr "best")]).
  - lia.
  - vm_compute. reflexivity.
Defined.

Lemma smart_search_falls_back_witness :
  fst (rank_summaries (parsed_as ranked_reply) (canned (Some "I found nothing."))
                      "login" sample_summaries "grok" 3 true (World ∅ []))
  = Ok (_fallback_ranking "login" sample_summaries 3).
Proof.
  apply (smart_search_falls_back (parsed_as ranked_reply)
           (canned (Some "I found nothing.")) "login" sample_summaries "grok" 3
           (World ∅ [])).
  simpl. right. left. vm_compute. reflexivity.
Defined.

Lemma unhashable_id_raises_witness :
  fst (rank_summaries (parsed_as unhashable_reply) (canned (Some "Ranked: [...]"))
                      "login" sample_summaries "grok" 3 true (World ∅ []))
  = Raise TypeError.
Proof.
  apply (unhashable_id_raises (parsed_as unhashable_reply)
           (canned (Some "Ranked: [...]")) "login" sample_summaries "grok" 3
           (World ∅ []) "Ranked: [...]" "[...]" unhashable_reply
           [("id", JArr [JStr "c2"])]).
  - discriminate.
  - reflexivity.
  - vm_compute. reflexivity.
  - reflexivity.
  - simpl. auto.
  - left. exists [JStr "c2"]. reflexivity.
Defined.

End SearchFacts.

(** ** summarize.py: truncating twice *)

Module TruncateFacts.
Import PyStr PyStrFacts Json Summarize SummarizeFacts.

(** For a limit that is not negative, truncating a truncated text changes
    nothing. *)
Theorem truncate_to_words_idempotent :
  forall (text : string) (max_words : Z),
    (0 <= max_words)%Z ->
    truncate_to_words (truncate_to_words text max_words) max_words
    = truncate_to_words text max_words.
Proof.
  intros text max_words Hn.
  destruct (Z.of_nat (word_count text) <=? max_words)%Z eqn:Hfits.
  - assert (truncate_to_words text max_words = text) as ->; [|].
    + unfold truncate_to_words, word_count in *. cbv zeta. now rewrite Hfits.
    + unfold truncate_to_words, word_count in *. cbv zeta. now rewrite Hfits.
  - apply Z.leb_gt in Hfits.
    destruct (Z.eq_dec max_words 0%Z) as [-> | Hpos].
    + assert (truncate_to_words text 0%Z = "...") as ->; [|reflexivity].
      unfold truncate_to_words, word_count in *. cbv zeta.
      replace (Z.of_nat (length (split_ws text)) <=? 0)%Z with false
        by (symmetry; apply Z.leb_gt; exact Hfits).
      reflexivity.
    + destruct (truncated_word_count text max_words ltac:(lia) Hfits) as [_ Hcount].
      set (once := truncate_to_words text max_words) in *.
      unfold truncate_to_words at 1. cbv zeta. fold (word_count once).
      rewrite Hcount, Z.leb_refl. reflexivity.
Qed.

Lemma truncate_to_words_idempotent_witness :
  truncate_to_words (truncate_to_words "fix the login page today" 3) 3
  = truncate_to_words "fix the login page today" 3.
Proof.
  apply (truncate_to_words_idempotent "fix the login page today" 3). lia.
Defined.

End TruncateFacts.
